(** * The master's HTTP request plane, and the stout URI value

    A shallow embedding of the handlers of [src/master/http.cpp]
    ([Master::Http]) and of [stout/uri.hpp], each definition keeping the
    name of the C++ function it renders.  Futures are resolved by
    passing the result of the awaited collaborator (authorizer,
    registrar, agent) as an argument; a failed [CHECK] or a
    [LOG(FATAL)] is the outcome [Aborted]. *)

From Stdlib Require Import ZArith NArith Ascii String List Bool Lia.
From Stdlib Require Import DecimalString DecimalN.
From stdpp Require Import base decidable option list strings gmap fin_maps.

Local Open Scope Z_scope.
Local Open Scope list_scope.
Local Open Scope stdpp_scope.

(** ** HTTP responses of libprocess *)

Inductive Response : Type :=
| OK (body : string)
| OKPipe (headers : list (string * string))
| Accepted
| TemporaryRedirect (location : string)
| BadRequest (body : string)
| Forbidden (body : string)
| NotFound (body : string)
| MethodNotAllowed (allowed : list string) (requested : string)
| NotAcceptable (body : string)
| Conflict (body : string)
| UnsupportedMediaType (body : string)
| InternalServerError (body : string)
| NotImplemented
| ServiceUnavailable (body : string).

(** Modelled from the spec: the status code of each response type (the
    taxonomy of section 7); the [process::http] response constructors
    themselves live in libprocess' [http.hpp]. *)
Definition status (r : Response) : Z :=
  match r with
  | OK _ | OKPipe _ => 200
  | Accepted => 202
  | TemporaryRedirect _ => 307
  | BadRequest _ => 400
  | Forbidden _ => 403
  | NotFound _ => 404
  | MethodNotAllowed _ _ => 405
  | NotAcceptable _ => 406
  | Conflict _ => 409
  | UnsupportedMediaType _ => 415
  | InternalServerError _ => 500
  | NotImplemented => 501
  | ServiceUnavailable _ => 503
  end.

(** What a handler (or a continuation of one) ends in. *)
Inductive Outcome : Type :=
| Replied (r : Response)
| Aborted.

(** The state of a [Future<bool>] handed back by the registrar. *)
Inductive RegistrarResult : Type :=
| Ready (applied : bool)
| Failed (message : string)
| Discarded.

Definition SlaveID := string.
Definition TimeInfo := Z.

(** ** MARK_AGENT_GONE *)

Module MarkGone.

(** The registry operation submitted by the handler. *)
Inductive RegistryOperation : Type :=
| MarkSlaveGone (slaveId : SlaveID) (goneTime : TimeInfo).

(** The part of [Master::slaves] (and of the registrar's queue) the
    handler reads and writes.  [registered] maps an id to the [Slave]
    it owns; the other containers are only asked [contains]. *)
Record Master (Slave : Type) : Type := mkMaster {
  registered : gmap SlaveID Slave;
  recovered : gset SlaveID;
  unreachable : gset SlaveID;
  gone : gset SlaveID;
  markingGone : gset SlaveID;
  removing : gset SlaveID;
  markingUnreachable : gset SlaveID;
  registrar : list RegistryOperation
}.

Arguments mkMaster {Slave}.
Arguments registered {Slave}.
Arguments recovered {Slave}.
Arguments unreachable {Slave}.
Arguments gone {Slave}.
Arguments markingGone {Slave}.
Arguments removing {Slave}.
Arguments markingUnreachable {Slave}.
Arguments registrar {Slave}.

(** What the synchronous part of [_markAgentGone] produces: a response
    right away, or a future that waits on the registrar. *)
Inductive Started : Type :=
| Now (r : Response)
| Awaiting (op : RegistryOperation).

Section Handler.

Context {Slave : Type}.

(** [Master::markGone] is defined in [master.cpp]; the handler only
    calls it, so it is a parameter here. *)
Variable markGone : Slave -> TimeInfo -> Master Slave -> Master Slave.

Definition insert_markingGone (slaveId : SlaveID) (op : RegistryOperation)
    (m : Master Slave) : Master Slave :=
  mkMaster (registered m) (recovered m) (unreachable m) (gone m)
           ({[slaveId]} ∪ markingGone m) (removing m) (markingUnreachable m)
           (registrar m ++ [op]).

(** [Master::Http::_markAgentGone], up to the [registrar->apply] call. *)
Definition _markAgentGone (m : Master Slave) (slaveId : SlaveID)
    (goneTime : TimeInfo) : Started * Master Slave :=
  if decide (slaveId ∈ gone m) then (Now (OK ""), m)
  else if decide (slaveId ∈ markingGone m) then
    (Now (ServiceUnavailable
            ("Agent '" +:+ slaveId +:+ "' is already being transitioned"
             +:+ " to gone")), m)
  else if decide (slaveId ∈ removing m) then
    (Now (ServiceUnavailable
            ("Agent '" +:+ slaveId +:+ "' is being transitioned to removed")),
     m)
  else if decide (slaveId ∈ markingUnreachable m) then
    (Now (ServiceUnavailable
            ("Agent '" +:+ slaveId +:+ "' is being transitioned to"
             +:+ " unreachable")), m)
  else
    let found :=
      if decide (is_Some (registered m !! slaveId)) then true
      else if decide (slaveId ∈ recovered m) then true
      else if decide (slaveId ∈ unreachable m) then true
      else false in
    if negb found then
      (Now (NotFound ("Agent '" +:+ slaveId +:+ "' not found")), m)
    else
      let op := MarkSlaveGone slaveId goneTime in
      (Awaiting op, insert_markingGone slaveId op m).

(** The [onAny] continuation, run on the master actor once the
    registrar's future has left the pending state. *)
Definition _markAgentGone_onAny (m : Master Slave) (slaveId : SlaveID)
    (goneTime : TimeInfo) (registrarResult : RegistrarResult)
    : option (Master Slave) :=
  match registrarResult with
  | Discarded => None
  | Failed _ => None
  | Ready _ =>
      match registered m !! slaveId with
      | None => Some m
      | Some slave => Some (markGone slave goneTime m)
      end
  end.

(** The [then] continuation: the response of a call that went to the
    registrar. *)
Definition _markAgentGone_then (registrarResult : RegistrarResult)
    : option Response :=
  match registrarResult with
  | Ready _ => Some (OK "")
  | _ => None
  end.

(** [Master::Http::markAgentGone]: the approval check, then the guard. *)
Definition markAgentGone (approved : bool) (m : Master Slave)
    (slaveId : SlaveID) (goneTime : TimeInfo) : Started * Master Slave :=
  if negb approved then (Now (Forbidden ""), m)
  else _markAgentGone m slaveId goneTime.

(** A whole call: the guard and, when the registrar was asked, its two
    continuations. *)
Definition markAgentGone_call (approved : bool) (m : Master Slave)
    (slaveId : SlaveID) (goneTime : TimeInfo)
    (registrarResult : RegistrarResult) : Outcome * Master Slave :=
  match markAgentGone approved m slaveId goneTime with
  | (Now r, m') => (Replied r, m')
  | (Awaiting _, m') =>
      match _markAgentGone_onAny m' slaveId goneTime registrarResult,
            _markAgentGone_then registrarResult with
      | Some m'', Some r => (Replied r, m'')
      | _, _ => (Aborted, m')
      end
  end.

(** Further calls for the same agent, each on the state the previous
    one left and with its own time and registrar result; the outcomes
    in order. *)
Fixpoint markAgentGone_again (calls : list (TimeInfo * RegistrarResult))
    (m : Master Slave) (slaveId : SlaveID) : list Outcome :=
  match calls with
  | [] => []
  | (goneTime, registrarResult) :: calls =>
      let '(o, m') :=
        markAgentGone_call true m slaveId goneTime registrarResult in
      o :: markAgentGone_again calls m' slaveId
  end.

(** The agent is in one of the three tables a gone transition may
    start from. *)
Definition known (m : Master Slave) (slaveId : SlaveID) : Prop :=
  is_Some (registered m !! slaveId) ∨
  (slaveId ∈ recovered m ∨ slaveId ∈ unreachable m).

(** No guard of [_markAgentGone] stops the call. *)
Definition unguarded (m : Master Slave) (slaveId : SlaveID) : Prop :=
  (slaveId ∉ gone m) ∧ (slaveId ∉ markingGone m) ∧ (slaveId ∉ removing m) ∧
  (slaveId ∉ markingUnreachable m).

End Handler.

End MarkGone.

(** ** The mutating-operation pipeline *)

(** [process::http::authentication::Principal]. *)
Record Principal : Type := mkPrincipal {
  value : option string;
  claims : list (string * string)
}.

(** The check every handler opens with: a principal with claims but no
    value string is refused. *)
Definition principal_without_value (principal : option Principal) : bool :=
  match principal with
  | Some p => if value p is None then true else false
  | None => false
  end.

Definition principal_message : string :=
  "The request's authenticated principal contains claims, but no value "
  +:+ "string. The master currently requires that principals have a value".

Module Operation.

Definition FrameworkID := string.
Definition OfferID := string.

(** The [Filters] protobuf message. *)
Record Filters : Type := mkFilters { refuse_seconds : Z }.

(** Modelled from the spec: [Filters()], the default-constructed
    message, refuses for 5 seconds (the default is declared in
    [mesos.proto]; the handler's comment states it). *)
Definition Filters_default : Filters := mkFilters 5.

(** The interface of [Resource] and [Resources] ([resources.hpp]) that
    the pipeline relies on. *)
Class ResourcesOps (Resource Resources : Type) : Type := {
  Resources_empty : Resources;
  Resources_of : list Resource -> Resources;
  Resources_eqb : Resources -> Resources -> bool;
  Resources_add : Resources -> Resources -> Resources;
  Resources_sub : Resources -> Resources -> Resources;
  Resources_add1 : Resources -> Resource -> Resources;
  unallocate : Resources -> Resources;
  popReservation : Resources -> Resources;
  clear_disk : Resource -> Resource
}.

Section Pipeline.

Context {Resource Resources : Type} `{!ResourcesOps Resource Resources}.

(** [Offer::Operation], restricted to the six types the operator API
    submits. *)
Inductive OfferOperation : Type :=
| RESERVE (resources : list Resource)
| UNRESERVE (resources : list Resource)
| CREATE (volumes : list Resource)
| DESTROY (volumes : list Resource)
| GROW_VOLUME (volume addition : Resource)
| SHRINK_VOLUME (volume : Resource) (subtract : Z).

Record Offer : Type := mkOffer {
  offer_id : OfferID;
  framework_id : FrameworkID;
  slave_id : SlaveID;
  resources : list Resource
}.

(** A registered agent; [offers] lists the agent's outstanding offers
    in the order the [foreach] over the hashset visits them. *)
Record Slave : Type := mkSlave {
  info : string;
  offers : list Offer
}.

(** Calls the pipeline makes on its collaborators, in order. *)
Inductive Effect : Type :=
| recoverResources (frameworkId : FrameworkID) (slaveId : SlaveID)
    (recovered : Resources) (filters : Filters)
| removeOffer (offer : Offer) (rescind : bool)
| apply (slave : Slave) (operation : OfferOperation).

(** [Resources::apply(operation)]. *)
Variable Resources_apply : Resources -> OfferOperation -> option Resources.

(** [static Resources removeDiskInfos(const Resources&)]. *)
Definition removeDiskInfos (resources : list Resource) : Resources :=
  fold_left (fun result resource => Resources_add1 result (clear_disk resource))
            resources Resources_empty.

(** The variables of the rescinding loop of [_operation]. *)
Record Rescinding : Type := mkRescinding {
  required : Resources;
  totalRecovered : Resources;
  effects : list Effect
}.

(** The [foreach] loop of [Master::Http::_operation]. *)
Fixpoint rescind_loop (operation : OfferOperation) (offers : list Offer)
    (required totalRecovered : Resources) (effects : list Effect)
    : Rescinding :=
  match offers with
  | [] => mkRescinding required totalRecovered effects
  | offer :: rest =>
      let recovered := unallocate (Resources_of (resources offer)) in
      if Resources_eqb required (Resources_sub required recovered) then
        rescind_loop operation rest required totalRecovered effects
      else
        let totalRecovered := Resources_add totalRecovered recovered in
        let required := Resources_sub required recovered in
        let effects :=
          effects ++
          [recoverResources (framework_id offer) (slave_id offer)
             (Resources_of (resources offer)) Filters_default;
           removeOffer offer true] in
        match Resources_apply totalRecovered operation with
        | Some _ => mkRescinding required totalRecovered effects
        | None => rescind_loop operation rest required totalRecovered effects
        end
  end.

(** [Master::Http::_operation]; [applied] is how the future of
    [master->apply] ends: [None] ready, [Some failure] failed. *)
Definition _operation (registered : gmap SlaveID Slave) (slaveId : SlaveID)
    (required : Resources) (operation : OfferOperation)
    (applied : option string) : Response * list Effect :=
  match registered !! slaveId with
  | None => (BadRequest "No agent found with specified ID", [])
  | Some slave =>
      let loop :=
        rescind_loop operation (offers slave) required Resources_empty [] in
      (match applied with
       | None => Accepted
       | Some failure => Conflict failure
       end,
       effects loop ++ [apply slave operation])
  end.

(** The continuation that [_reserve], [_unreserve], [_createVolumes],
    [_destroyVolumes], [growVolume] and [shrinkVolume] each defer to
    the master actor with the authorizer's answer, once the operation
    has been upgraded and validated: [Forbidden] when denied, otherwise
    [_operation] on the resources the operation needs.  [registered]
    is the agent table when the continuation runs. *)
Definition authorized_then (registered : gmap SlaveID Slave)
    (slaveId : SlaveID) (operation : OfferOperation) (authorized : bool)
    (applied : option string) : Response * list Effect :=
  if negb authorized then (Forbidden "", [])
  else
    match operation with
    | RESERVE resources =>
        let required := popReservation (Resources_of resources) in
        _operation registered slaveId required operation applied
    | UNRESERVE resources =>
        _operation registered slaveId (Resources_of resources) operation
                   applied
    | CREATE volumes =>
        _operation registered slaveId (removeDiskInfos volumes) operation
                   applied
    | DESTROY volumes =>
        _operation registered slaveId (Resources_of volumes) operation applied
    | GROW_VOLUME volume addition =>
        _operation registered slaveId
                   (Resources_add (Resources_of [volume])
                                  (Resources_of [addition]))
                   operation applied
    | SHRINK_VOLUME volume _ =>
        _operation registered slaveId (Resources_of [volume]) operation
                   applied
    end.

(** The rule of the specification for one offer that contributes:
    recover it with the default filter, remove it, credit it. *)
Definition rescind_spec (offer : Offer) (s : Rescinding) : Rescinding :=
  let recovered := unallocate (Resources_of (resources offer)) in
  mkRescinding
    (Resources_sub (required s) recovered)
    (Resources_add (totalRecovered s) recovered)
    (effects s ++
     [recoverResources (framework_id offer) (slave_id offer)
        (Resources_of (resources offer)) Filters_default;
      removeOffer offer true]).

(** The rescinding rule as the specification words it: [rescinds_spec
    operation offers s s'] when visiting [offers] from the loop
    variables [s] ends in [s']. *)
Inductive rescinds_spec (operation : OfferOperation)
    : list Offer -> Rescinding -> Rescinding -> Prop :=
| rescinds_done s :
    rescinds_spec operation [] s s
| rescinds_skip offer rest s s' :
    Resources_eqb (required s)
      (Resources_sub (required s)
         (unallocate (Resources_of (resources offer)))) = true ->
    rescinds_spec operation rest s s' ->
    rescinds_spec operation (offer :: rest) s s'
| rescinds_stop offer rest s :
    Resources_eqb (required s)
      (Resources_sub (required s)
         (unallocate (Resources_of (resources offer)))) = false ->
    is_Some (Resources_apply (totalRecovered (rescind_spec offer s))
                             operation) ->
    rescinds_spec operation (offer :: rest) s (rescind_spec offer s)
| rescinds_next offer rest s s' :
    Resources_eqb (required s)
      (Resources_sub (required s)
         (unallocate (Resources_of (resources offer)))) = false ->
    Resources_apply (totalRecovered (rescind_spec offer s)) operation
      = None ->
    rescinds_spec operation rest (rescind_spec offer s) s' ->
    rescinds_spec operation (offer :: rest) s s'.

End Pipeline.

End Operation.

(** ** The maintenance schedule *)

Module Maintenance.

(** [MachineInfo::Mode]. *)
Inductive Mode : Type := UP | DRAINING | DOWN.

Global Instance Mode_eq_dec : EqDecision Mode.
Proof. solve_decision. Defined.

(** The [MachineID] message: a hostname and an ip. *)
Record MachineID : Type := mkMachineID { hostname : string; ip : string }.

Global Instance MachineID_eq_dec : EqDecision MachineID.
Proof. solve_decision. Defined.

Global Instance MachineID_countable : Countable MachineID :=
  inj_countable' (fun i => (hostname i, ip i))
                 (fun p => mkMachineID (fst p) (snd p))
                 (fun i => match i with mkMachineID _ _ => eq_refl end).

(** [Unavailability]: a start time and an optional duration. *)
Record Unavailability : Type := mkUnavailability {
  start : Z;
  duration : option Z
}.

Record MachineInfo : Type := mkMachineInfo {
  id : option MachineID;
  mode : Mode;
  unavailability : option Unavailability
}.

(** [struct Machine] of [master/machine.hpp]. *)
Record Machine : Type := mkMachine {
  info : MachineInfo;
  slaves : gset SlaveID
}.

(** A default-constructed [Machine], as [machines[id]] creates for an
    absent key; the default [mode] of the message is [UP]. *)
Definition Machine_default : Machine :=
  mkMachine (mkMachineInfo None UP None) ∅.

Record Window : Type := mkWindow {
  machine_ids : list MachineID;
  window_unavailability : Unavailability
}.

Record Schedule : Type := mkSchedule { windows : list Window }.

Inductive RegistryOperation : Type :=
| UpdateSchedule (schedule : Schedule).

(** The part of the master the schedule handlers touch. *)
Record Master : Type := mkMaster {
  machines : gmap MachineID Machine;
  schedules : list Schedule;
  registrar : list RegistryOperation
}.

(** [master->machines[id]], read. *)
Definition machine_at (m : Master) (id : MachineID) : Machine :=
  default Machine_default (machines m !! id).

Definition set_machines (ms : gmap MachineID Machine) (m : Master) : Master :=
  mkMaster ms (schedules m) (registrar m).

(** [master->machines[id].info.set_mode(mode)]. *)
Definition set_mode (id : MachineID) (mode' : Mode) (m : Master) : Master :=
  let machine := machine_at m id in
  let info' :=
    mkMachineInfo (Maintenance.id (info machine)) mode'
                  (unavailability (info machine)) in
  set_machines (<[id := mkMachine info' (slaves machine)]> (machines m)) m.

(** [master->machines[id].info.CopyFrom(info)]. *)
Definition set_info (id : MachineID) (info' : MachineInfo) (m : Master)
    : Master :=
  let machine := machine_at m id in
  set_machines (<[id := mkMachine info' (slaves machine)]> (machines m)) m.

(** Modelled from the spec: [Master::updateUnavailability] is defined
    in [master.cpp].  It stores (or clears) the unavailability of the
    machine and has the allocator resend inverse offers; the mode of a
    machine is changed by the schedule handlers only (section 4.9). *)
Definition updateUnavailability (id : MachineID)
    (unavailability' : option Unavailability) (m : Master) : Master :=
  let machine := machine_at m id in
  let info' :=
    mkMachineInfo (Maintenance.id (info machine)) (mode (info machine))
                  unavailability' in
  set_machines (<[id := mkMachine info' (slaves machine)]> (machines m)) m.

(** The mode of every machine the master knows. *)
Definition modes (m : Master) : gmap MachineID Mode :=
  (fun machine => mode (info machine)) <$> machines m.

(** What the second loop does to the mode of one machine: a machine
    that is new or [UP] starts draining, any other keeps its mode. *)
Definition drain (md : gmap MachineID Mode) (id : MachineID)
    : gmap MachineID Mode :=
  match md !! id with
  | Some UP | None => <[id := DRAINING]> md
  | Some _ => md
  end.

(** What the first loop does to the mode of one machine: a machine
    the schedule omits goes back to [UP]. *)
Definition restore (unavailabilities : gmap MachineID Unavailability)
    (md : gmap MachineID Mode) (id : MachineID) : gmap MachineID Mode :=
  match unavailabilities !! id with
  | Some _ => md
  | None => <[id := UP]> md
  end.

(** Every machine id of the schedule, window after window. *)
Definition named (schedule : Schedule) : list MachineID :=
  concat (map machine_ids (windows schedule)).

(** The [unavailabilities] hashmap of [___updateMaintenanceSchedule]. *)
Definition collect_unavailabilities (schedule : Schedule)
    : gmap MachineID Unavailability :=
  fold_left
    (fun acc window =>
       fold_left (fun acc id => <[id := window_unavailability window]> acc)
                 (machine_ids window) acc)
    (windows schedule) ∅.

(** Body of the first loop, over the keys of a copy of the machines. *)
Definition update_existing (unavailabilities : gmap MachineID Unavailability)
    (m : Master) (id : MachineID) : Master :=
  match unavailabilities !! id with
  | Some u =>
      if decide (mode (info (machine_at m id)) = UP) then m
      else updateUnavailability id (Some u) m
  | None => updateUnavailability id None (set_mode id UP m)
  end.

(** Body of the second loop, over the machines of one window. *)
Definition save_new (window : Window) (m : Master) (id : MachineID) : Master :=
  if bool_decide (is_Some (machines m !! id)) &&
     negb (bool_decide (mode (info (machine_at m id)) = UP))
  then m
  else
    let info' := mkMachineInfo (Some id) DRAINING None in
    updateUnavailability id (Some (window_unavailability window))
                         (set_info id info' m).

(** [Master::Http::___updateMaintenanceSchedule]; [None] when
    [CHECK(applied)] fails. *)
Definition ___updateMaintenanceSchedule (m : Master) (schedule : Schedule)
    (applied : bool) : option (Response * Master) :=
  if negb applied then None
  else
    let unavailabilities := collect_unavailabilities schedule in
    let m1 :=
      fold_left (update_existing unavailabilities)
                (map fst (map_to_list (machines m))) m in
    let m2 :=
      fold_left (fun m window => fold_left (save_new window)
                                           (machine_ids window) m)
                (windows schedule) m1 in
    Some (OK "", mkMaster (machines m2) [schedule] (registrar m2)).

Section Handlers.

(** [maintenance::validation::schedule] is defined in
    [master/maintenance.cpp]; the handler only calls it, on the
    schedule and on the machines as they are when the request arrives,
    so it is a parameter here. *)
Variable validation_schedule :
  Schedule -> gmap MachineID Machine -> option string.

(** [Master::Http::_updateMaintenanceSchedule], as far as it answers
    itself: the first turn of a request ends in [BadRequest] when the
    validation fails, and otherwise ([None]) hands the schedule to
    [__updateMaintenanceSchedule], which runs in a later turn of the
    master, once the authorizer has answered. *)
Definition _updateMaintenanceSchedule (m : Master) (schedule : Schedule)
    : option Response :=
  match validation_schedule schedule (machines m) with
  | Some error => Some (BadRequest error)
  | None => None
  end.

(** [Master::Http::__updateMaintenanceSchedule], up to the registrar:
    every machine of every window has to be approved. *)
Definition __updateMaintenanceSchedule (m : Master) (schedule : Schedule)
    (approved : MachineID -> bool) : Response + Master :=
  if forallb approved (named schedule)
  then inr (mkMaster (machines m) (schedules m)
                     (registrar m ++ [UpdateSchedule schedule]))
  else inl (Forbidden "").

(** A whole request.  Its three parts run in three turns of the master
    actor: the validation when the request arrives, the approval and
    the call of the registrar once the authorizer has answered, the
    two loops once the registrar has.  [between1] and [between2] are
    what the other events of the master do to its state between these
    turns. *)
Definition updateMaintenanceSchedule (m : Master) (schedule : Schedule)
    (approved : MachineID -> bool) (registrarResult : RegistrarResult)
    (between1 between2 : Master -> Master) : Outcome * Master :=
  match _updateMaintenanceSchedule m schedule with
  | Some response => (Replied response, m)
  | None =>
      let m1 := between1 m in
      match __updateMaintenanceSchedule m1 schedule approved with
      | inl response => (Replied response, m1)
      | inr submitted =>
          let m2 := between2 submitted in
          match registrarResult with
          | Ready applied =>
              match ___updateMaintenanceSchedule m2 schedule applied with
              | Some (response, m3) => (Replied response, m3)
              | None => (Aborted, m2)
              end
          | _ => (Aborted, m2)
          end
      end
  end.

End Handlers.

(** The last loop of the continuation of [_startMaintenance], another
    event of the master: the machines that were brought down are
    [DOWN]. *)
Definition _startMaintenance_down (machineIds : list MachineID) (m : Master)
    : Master :=
  fold_left (fun m id => set_mode id DOWN m) machineIds m.

Definition is_down (ms : gmap MachineID Machine) (id : MachineID) : bool :=
  match ms !! id with
  | Some machine => bool_decide (mode (info machine) = DOWN)
  | None => false
  end.

(** Modelled from the spec: what [maintenance::validation::schedule]
    checks about the modes of the machines (section 4.9).  A schedule
    may only reference machines in [UP] or [DRAINING]: naming a [DOWN]
    machine would ask for the transition [DOWN] to [DRAINING], which
    the validation rejects. *)
Definition validation_of_modes (schedule : Schedule)
    (ms : gmap MachineID Machine) : option string :=
  if existsb (is_down ms) (named schedule)
  then Some "Machine is deactivated and cannot be rescheduled"
  else None.

End Maintenance.

(** ** Requests *)

(** [process::http::URL]. *)
Record URL : Type := mkURL {
  url_scheme : option string;
  url_path : string;
  url_query : list (string * string);
  url_fragment : option string
}.

Definition isAbsolute (url : URL) : bool :=
  if url_scheme url is Some _ then true else false.

Inductive RequestType : Type := BODY | PIPE.

Global Instance RequestType_eq_dec : EqDecision RequestType.
Proof. solve_decision. Defined.

(** [process::http::Request].  [headers] is keyed by the header names
    in the spelling the handlers use; [body] is what the request's
    body (or pipe) delivers once read to its end. *)
Record Request : Type := mkRequest {
  method : string;
  url : URL;
  headers : gmap string string;
  type : RequestType;
  has_reader : bool;
  body : string
}.

(** The leadership and recovery flags of the master. *)
Record Leadership : Type := mkLeadership {
  elected : bool;
  recovered : option bool
}.

(** [mesos::ContentType]. *)
Inductive ContentType : Type := JSON | PROTOBUF | RECORDIO.

Global Instance ContentType_eq_dec : EqDecision ContentType.
Proof. solve_decision. Defined.

(** Modelled from the spec: the media type names and the two message
    headers (sections 4.4 and 6); the constants are declared in
    [common/http.hpp]. *)
Definition APPLICATION_JSON : string := "application/json".
Definition APPLICATION_PROTOBUF : string := "application/x-protobuf".
Definition APPLICATION_RECORDIO : string := "application/recordio".
Definition MESSAGE_CONTENT_TYPE : string := "Message-Content-Type".
Definition MESSAGE_ACCEPT : string := "Message-Accept".

Definition stringify_ContentType (contentType : ContentType) : string :=
  match contentType with
  | JSON => APPLICATION_JSON
  | PROTOBUF => APPLICATION_PROTOBUF
  | RECORDIO => APPLICATION_RECORDIO
  end.

(** Modelled from the spec: [streamingMediaType] of [common/http.hpp];
    recordio is the only streaming media. *)
Definition streamingMediaType (contentType : ContentType) : bool :=
  match contentType with
  | RECORDIO => true
  | _ => false
  end.

Section Accepts.

(** How [Request::acceptsMediaType] (libprocess) matches the value of
    a header that is present against a media type. *)
Variable accepts : string -> string -> bool.

(** Modelled from the spec: [Request::acceptsMediaType] is defined in
    libprocess ([http.cpp]).  That it returns true if the header field
    does not exist is the note at its call in [api]; how it matches the
    value of a header that is present is left to [accepts]. *)
Definition acceptsMediaType (request : Request) (name mediaType : string)
    : bool :=
  match headers request !! name with
  | None => true
  | Some accepted => accepts accepted mediaType
  end.

End Accepts.

(** A matcher for worked examples: the header names exactly one media
    type. *)
Definition accepts_exactly (accepted mediaType : string) : bool :=
  bool_decide (accepted = mediaType).

(** ** The operator API, [/api/v1] *)

Module Api.

(** [mesos::master::Call::Type]. *)
Inductive CallType : Type :=
| UNKNOWN | GET_HEALTH | GET_FLAGS | GET_VERSION | GET_METRICS
| GET_LOGGING_LEVEL | SET_LOGGING_LEVEL | LIST_FILES | READ_FILE
| GET_STATE | GET_AGENTS | GET_FRAMEWORKS | GET_EXECUTORS | GET_OPERATIONS
| GET_TASKS | GET_ROLES | GET_WEIGHTS | UPDATE_WEIGHTS | GET_MASTER
| SUBSCRIBE | RESERVE_RESOURCES | UNRESERVE_RESOURCES | CREATE_VOLUMES
| DESTROY_VOLUMES | GROW_VOLUME | SHRINK_VOLUME | GET_MAINTENANCE_STATUS
| GET_MAINTENANCE_SCHEDULE | UPDATE_MAINTENANCE_SCHEDULE | START_MAINTENANCE
| STOP_MAINTENANCE | GET_QUOTA | UPDATE_QUOTA | SET_QUOTA | REMOVE_QUOTA
| TEARDOWN | MARK_AGENT_GONE.

Global Instance CallType_eq_dec : EqDecision CallType.
Proof. solve_decision. Defined.

(** [struct RequestMediaTypes]. *)
Record RequestMediaTypes : Type := mkRequestMediaTypes {
  content : ContentType;
  accept : ContentType;
  messageContent : option ContentType;
  messageAccept : option ContentType
}.

(** [struct HttpConnection], as far as the encoding of what is sent on
    it goes. *)
Record HttpConnection : Type := mkHttpConnection {
  contentType : ContentType
}.

(** What the reader of a streaming request yields first. *)
Inductive Result (A : Type) : Type :=
| RSome (a : A)
| RNone
| RError (message : string).

Arguments RSome {A}.
Arguments RNone {A}.
Arguments RError {A}.

Section Handler.

Context {Call : Type}.

Variable accepts : string -> string -> bool.

(** [call.type()], and how the type is printed. *)
Variable call_type : Call -> CallType.
Variable stringify_CallType : CallType -> string.

(** [deserialize] followed by [devolve], and
    [validation::master::call::validate]. *)
Variable deserialize : ContentType -> string -> Call + string.
Variable validate : Call -> option string.

(** The first record the recordio decoder finds in the request pipe. *)
Variable first_record : string -> Result string.

(** The handlers [_api] dispatches to, other than [subscribe]. *)
Variable handle :
  Call -> option Principal -> ContentType -> Response.

(** [Master::Http::subscribe]: the response and the connection the
    subscriber is registered with. *)
Definition subscribe (call : Call) (mediaTypes : RequestMediaTypes)
    : option (Response * HttpConnection) :=
  let contentType :=
    if streamingMediaType (accept mediaTypes)
    then messageAccept mediaTypes
    else Some (accept mediaTypes) in
  match contentType with
  | None => None
  | Some contentType =>
      Some (OKPipe [("Content-Type", stringify_ContentType contentType)],
            mkHttpConnection contentType)
  end.

(** [Master::Http::_api]. *)
Definition _api (call : Call) (mediaTypes : RequestMediaTypes)
    (principal : option Principal) : Outcome :=
  if streamingMediaType (content mediaTypes) &&
     negb (bool_decide (call_type call = SUBSCRIBE))
  then Replied (UnsupportedMediaType
         ("Streaming 'Content-Type' "
          +:+ stringify_ContentType (content mediaTypes) +:+ " is "
          +:+ "not supported for " +:+ stringify_CallType (call_type call)
          +:+ " call"))
  else if streamingMediaType (accept mediaTypes) &&
          negb (bool_decide (call_type call = SUBSCRIBE))
  then Replied (NotAcceptable
         ("Streaming response is not supported for "
          +:+ stringify_CallType (call_type call) +:+ " call"))
  else
    match call_type call with
    | UNKNOWN => Replied NotImplemented
    | UPDATE_QUOTA => Replied NotImplemented
    | SUBSCRIBE =>
        match subscribe call mediaTypes with
        | Some (response, _) => Replied response
        | None => Aborted
        end
    | _ => Replied (handle call principal (accept mediaTypes))
    end.

(** The [deserializer] lambda of [api]. *)
Definition deserializer (body : string) (contentType : ContentType)
    : Call + string :=
  match deserialize contentType body with
  | inr error => inr error
  | inl call =>
      match validate call with
      | Some message => inr ("Failed to validate master::Call: " +:+ message)
      | None => inl call
      end
  end.

(** The [Content-Type] and [Message-Content-Type] part of [api]. *)
Definition negotiate_content (request : Request)
    : Response + ContentType * option ContentType :=
  match headers request !! "Content-Type" with
  | None => inl (BadRequest "Expecting 'Content-Type' to be present")
  | Some contentType_ =>
      let contentType :=
        if decide (contentType_ = APPLICATION_JSON) then Some JSON
        else if decide (contentType_ = APPLICATION_PROTOBUF) then Some PROTOBUF
        else if decide (contentType_ = APPLICATION_RECORDIO) then Some RECORDIO
        else None in
      match contentType with
      | None =>
          inl (UnsupportedMediaType
                 ("Expecting 'Content-Type' of " +:+ APPLICATION_JSON
                  +:+ " or " +:+ APPLICATION_PROTOBUF +:+ " or "
                  +:+ APPLICATION_RECORDIO))
      | Some contentType =>
          let messageContentType_ := headers request !! MESSAGE_CONTENT_TYPE in
          if streamingMediaType contentType then
            match messageContentType_ with
            | None =>
                inl (BadRequest
                       ("Expecting '" +:+ MESSAGE_CONTENT_TYPE +:+ "' to be"
                        +:+ " set for streaming requests"))
            | Some v =>
                if decide (v = APPLICATION_JSON)
                then inr (contentType, Some JSON)
                else if decide (v = APPLICATION_PROTOBUF)
                then inr (contentType, Some PROTOBUF)
                else
                  inl (UnsupportedMediaType
                         ("Expecting '" +:+ MESSAGE_CONTENT_TYPE +:+ "' of "
                          +:+ APPLICATION_JSON +:+ " or "
                          +:+ APPLICATION_PROTOBUF))
            end
          else
            match messageContentType_ with
            | Some _ =>
                inl (UnsupportedMediaType
                       ("Expecting '" +:+ MESSAGE_CONTENT_TYPE
                        +:+ "' to be not set for non-streaming requests"))
            | None => inr (contentType, None)
            end
      end
  end.

(** The [Accept] and [Message-Accept] part of [api]. *)
Definition negotiate_accept (request : Request)
    : Response + ContentType * option ContentType :=
  let acceptType :=
    if acceptsMediaType accepts request "Accept" APPLICATION_JSON
    then Some JSON
    else if acceptsMediaType accepts request "Accept" APPLICATION_PROTOBUF
    then Some PROTOBUF
    else if acceptsMediaType accepts request "Accept" APPLICATION_RECORDIO
    then Some RECORDIO
    else None in
  match acceptType with
  | None =>
      inl (NotAcceptable
             ("Expecting 'Accept' to allow " +:+ APPLICATION_JSON
              +:+ " or " +:+ APPLICATION_PROTOBUF +:+ " or "
              +:+ APPLICATION_RECORDIO))
  | Some acceptType =>
      if streamingMediaType acceptType then
        if acceptsMediaType accepts request MESSAGE_ACCEPT APPLICATION_JSON
        then inr (acceptType, Some JSON)
        else if acceptsMediaType accepts request MESSAGE_ACCEPT
                                 APPLICATION_PROTOBUF
        then inr (acceptType, Some PROTOBUF)
        else
          inl (NotAcceptable
                 ("Expecting '" +:+ MESSAGE_ACCEPT +:+ "' to allow "
                  +:+ APPLICATION_JSON +:+ " or " +:+ APPLICATION_PROTOBUF))
      else if bool_decide (is_Some (headers request !! MESSAGE_ACCEPT))
      then
        inl (NotAcceptable
               ("Expecting '" +:+ MESSAGE_ACCEPT
                +:+ "' to be not set for non-streaming responses"))
      else inr (acceptType, None)
  end.

(** The media types of a request, in the order [api] settles them:
    the content types first, then the accept types. *)
Definition negotiate (request : Request) : Response + RequestMediaTypes :=
  match negotiate_content request with
  | inl response => inl response
  | inr (contentType, messageContentType) =>
      match negotiate_accept request with
      | inl response => inl response
      | inr (acceptType, messageAcceptType) =>
          inr (mkRequestMediaTypes contentType acceptType
                 messageContentType messageAcceptType)
      end
  end.

(** The end of [api]: the call is the first record of a streaming
    request, or else the whole body. *)
Definition receive (request : Request) (mediaTypes : RequestMediaTypes)
    : Outcome + Call :=
  if streamingMediaType (content mediaTypes) then
    match messageContent mediaTypes with
    | None => inl Aborted
    | Some messageContent =>
        match first_record (body request) with
        | RNone =>
            inl (Replied (BadRequest
                            "Received EOF while reading request body"))
        | RError error => inl (Replied (BadRequest error))
        | RSome record =>
            match deserializer record messageContent with
            | inr error => inl (Replied (BadRequest error))
            | inl call => inr call
            end
        end
    end
  else
    match deserializer (body request) (content mediaTypes) with
    | inr error => inl (Replied (BadRequest error))
    | inl call => inr call
    end.

(** [Master::Http::api]; [redirected] is what [redirect(request)]
    answers on a master that is not the leader. *)
Definition api (master : Leadership) (redirected : Outcome)
    (request : Request) (principal : option Principal) : Outcome :=
  if principal_without_value principal
  then Replied (Forbidden principal_message)
  else if negb (elected master) then redirected
  else
    match recovered master with
    | None => Aborted
    | Some false => Replied (ServiceUnavailable
                               "Master has not finished recovery")
    | Some true =>
        if negb (bool_decide (method request = "POST"))
        then Replied (MethodNotAllowed ["POST"] (method request))
        else
          match negotiate request with
          | inl response => Replied response
          | inr mediaTypes =>
              if negb (bool_decide (type request = PIPE)) ||
                 negb (has_reader request)
              then Aborted
              else
                match receive request mediaTypes with
                | inl outcome => outcome
                | inr call => _api call mediaTypes principal
                end
          end
    end.

End Handler.

End Api.

(** ** The scheduler API, [/api/v1/scheduler] *)

Module Scheduler.

Definition FrameworkID := string.

(** [mesos::scheduler::Call::Type]. *)
Inductive CallType : Type :=
| UNKNOWN | SUBSCRIBE | TEARDOWN | ACCEPT | DECLINE | ACCEPT_INVERSE_OFFERS
| DECLINE_INVERSE_OFFERS | REVIVE | SUPPRESS | KILL | SHUTDOWN | ACKNOWLEDGE
| ACKNOWLEDGE_OPERATION_STATUS | RECONCILE | RECONCILE_OPERATIONS | MESSAGE
| REQUEST.

Global Instance CallType_eq_dec : EqDecision CallType.
Proof. solve_decision. Defined.

Record FrameworkInfo : Type := mkFrameworkInfo {
  id : FrameworkID;
  principal : option string
}.

Record AcknowledgeOperationStatus : Type := mkAcknowledgeOperationStatus {
  status_uuid : string;
  has_slave_id : bool;
  has_resource_provider_id : bool
}.

(** [mesos::scheduler::Call]: an absent optional field is [None] (or
    [false] where only its presence is looked at). *)
Record Call : Type := mkCall {
  initialization_error : option string;
  type : option CallType;
  framework_id : option FrameworkID;
  subscribe : option FrameworkInfo;
  has_accept : bool;
  has_decline : bool;
  has_accept_inverse_offers : bool;
  has_decline_inverse_offers : bool;
  has_kill : bool;
  has_shutdown : bool;
  acknowledge : option string;
  acknowledge_operation_status : option AcknowledgeOperationStatus;
  has_reconcile : bool;
  has_reconcile_operations : bool;
  has_message : bool;
  has_request : bool
}.

(** [call.type()] and [call.framework_id()] with the defaults of an
    unset field. *)
Definition call_type (call : Call) : CallType := default UNKNOWN (type call).
Definition call_framework_id (call : Call) : FrameworkID :=
  default "" (framework_id call).

(** Modelled from the spec: [principal != name] for an authenticated
    principal and a string (the operator is libprocess'); a principal
    equals the name when its value is that string. *)
Definition principal_differs (p : Principal) (name : string) : bool :=
  negb (bool_decide (value p = Some name)).

(** Modelled from the spec: [id::UUID::fromBytes] of stout; a UUID has
    to be parseable as 16 bytes. *)
Definition UUID_fromBytes (bytes : string) : option string :=
  if bool_decide (String.length bytes = 16%nat) then None
  else Some "Not a valid UUID".

Definition expecting (present : bool) (field : string) : option string :=
  if present then None
  else Some ("Expecting '" +:+ field +:+ "' to be present").

(** [validation::scheduler::call::validate] of
    [scheduler/validation.cpp]: [None] when the call is valid. *)
Definition validate (call : Call) (principal : option Principal)
    : option string :=
  match initialization_error call with
  | Some error => Some ("Not initialized: " +:+ error)
  | None =>
  match type call with
  | None => Some "Expecting 'type' to be present"
  | Some SUBSCRIBE =>
      match subscribe call with
      | None => Some "Expecting 'subscribe' to be present"
      | Some frameworkInfo =>
          if negb (bool_decide (id frameworkInfo = call_framework_id call))
          then Some "'framework_id' differs from 'subscribe.framework_info.id'"
          else
            match principal, Scheduler.principal frameworkInfo with
            | Some p, Some name =>
                if principal_differs p name
                then Some ("Authenticated principal '"
                           +:+ default "" (value p)
                           +:+ "' does not match principal '" +:+ name
                           +:+ "' set in `FrameworkInfo`")
                else None
            | _, _ => None
            end
      end
  | Some t =>
      if negb (bool_decide (is_Some (framework_id call)))
      then Some "Expecting 'framework_id' to be present"
      else
        match t with
        | SUBSCRIBE => None
        | TEARDOWN | REVIVE | SUPPRESS | UNKNOWN => None
        | ACCEPT => expecting (has_accept call) "accept"
        | DECLINE => expecting (has_decline call) "decline"
        | ACCEPT_INVERSE_OFFERS =>
            expecting (has_accept_inverse_offers call) "accept_inverse_offers"
        | DECLINE_INVERSE_OFFERS =>
            expecting (has_decline_inverse_offers call)
                      "decline_inverse_offers"
        | KILL => expecting (has_kill call) "kill"
        | SHUTDOWN => expecting (has_shutdown call) "shutdown"
        | ACKNOWLEDGE =>
            match acknowledge call with
            | None => Some "Expecting 'acknowledge' to be present"
            | Some uuid => UUID_fromBytes uuid
            end
        | ACKNOWLEDGE_OPERATION_STATUS =>
            match acknowledge_operation_status call with
            | None =>
                Some "Expecting 'acknowledge_operation_status' to be present"
            | Some acknowledge =>
                match UUID_fromBytes (status_uuid acknowledge) with
                | Some error => Some error
                | None =>
                    if negb (has_slave_id acknowledge)
                    then Some "Expecting 'agent_id' to be present"
                    else expecting (has_resource_provider_id acknowledge)
                                   "resource_provider_id"
                end
            end
        | RECONCILE => expecting (has_reconcile call) "reconcile"
        | RECONCILE_OPERATIONS =>
            expecting (has_reconcile_operations call) "reconcile_operations"
        | MESSAGE => expecting (has_message call) "message"
        | REQUEST => expecting (has_request call) "request"
        end
  end
  end.

(** [struct Framework], as far as the handler looks at it. *)
Record Framework : Type := mkFramework {
  info_principal : string;
  connected : bool;
  http : option string
}.

Section Handler.

Variable accepts : string -> string -> bool.

(** The two decoders of the request body, and the body of the
    response to RECONCILE_OPERATIONS. *)
Context {JSONValue : Type}.
Variable ParseFromString : string -> option Call.
Variable JSON_parse : string -> JSONValue + string.
Variable protobuf_parse : JSONValue -> Call + string.
Variable reconcileOperations :
  Framework -> Call -> ContentType -> Response.

(** The part of [scheduler] that decodes the body according to the
    [Content-Type] (followed by [devolve]). *)
Definition decode (contentType : string) (body : string) : Response + Call :=
  if decide (contentType = APPLICATION_PROTOBUF) then
    match ParseFromString body with
    | None => inl (BadRequest "Failed to parse body into Call protobuf")
    | Some call => inr call
    end
  else if decide (contentType = APPLICATION_JSON) then
    match JSON_parse body with
    | inr error =>
        inl (BadRequest ("Failed to parse body into JSON: " +:+ error))
    | inl value =>
        match protobuf_parse value with
        | inr error =>
            inl (BadRequest
                   ("Failed to convert JSON into Call protobuf: " +:+ error))
        | inl call => inr call
        end
    end
  else
    inl (UnsupportedMediaType
           ("Expecting 'Content-Type' of " +:+ APPLICATION_JSON +:+ " or "
            +:+ APPLICATION_PROTOBUF)).

(** The Accept header allows one of the two encodings of a response. *)
Definition acceptable (request : Request) : Prop :=
  acceptsMediaType accepts request "Accept" APPLICATION_JSON = true ∨
  acceptsMediaType accepts request "Accept" APPLICATION_PROTOBUF = true.

(** The part of [scheduler] that serves a call other than SUBSCRIBE:
    the framework lookup, the checks on the framework and on the
    stream id, and the [switch] on the type of the call. *)
Definition serve (frameworks : gmap FrameworkID Framework)
    (request : Request) (principal : option Principal) (call : Call)
    (acceptType : option ContentType) : Outcome :=
  match frameworks !! call_framework_id call with
  | None => Replied (BadRequest "Framework cannot be found")
  | Some framework =>
  if match principal with
     | Some p => principal_differs p (info_principal framework)
     | None => false
     end
  then Replied (BadRequest
         ("Authenticated principal '"
          +:+ default "" (principal ≫= value)
          +:+ "' does not " +:+ "match principal '"
          +:+ info_principal framework +:+ "' set in "
          +:+ "`FrameworkInfo`"))
  else if negb (connected framework)
  then Replied (Forbidden "Framework is not subscribed")
  else
  match http framework with
  | None => Replied (Forbidden "Framework is not connected via HTTP")
  | Some registered =>
  match headers request !! "Mesos-Stream-Id" with
  | None =>
      Replied (BadRequest
        "All non-subscribe calls should include the 'Mesos-Stream-Id' header")
  | Some streamId =>
  if negb (bool_decide (streamId = registered))
  then Replied (BadRequest
         ("The stream ID '" +:+ streamId +:+ "' included in this request "
          +:+ "didn't match the stream ID currently associated with framework ID "
          +:+ call_framework_id call))
  else
    match call_type call with
    | SUBSCRIBE => Aborted
    | RECONCILE_OPERATIONS =>
        match acceptType with
        | None => Aborted
        | Some acceptType =>
            Replied (reconcileOperations framework call acceptType)
        end
    | UNKNOWN => Replied NotImplemented
    | _ => Replied Accepted
    end
  end end end.

(** [Master::Http::scheduler]; [streamId] is the UUID drawn for a new
    subscription. *)
Definition scheduler (master : Leadership)
    (frameworks : gmap FrameworkID Framework) (redirected : Outcome)
    (streamId : string) (request : Request) (principal : option Principal)
    : Outcome :=
  if principal_without_value principal
  then Replied (Forbidden principal_message)
  else if negb (elected master) then redirected
  else
  match recovered master with
  | None => Aborted
  | Some false => Replied (ServiceUnavailable "Master has not finished recovery")
  | Some true =>
  if negb (bool_decide (method request = "POST"))
  then Replied (MethodNotAllowed ["POST"] (method request))
  else
  match headers request !! "Content-Type" with
  | None => Replied (BadRequest "Expecting 'Content-Type' to be present")
  | Some contentType =>
  match decode contentType (body request) with
  | inl response => Replied response
  | inr call =>
  match validate call principal with
  | Some message =>
      Replied (BadRequest ("Failed to validate scheduler::Call: " +:+ message))
  | None =>
  let acceptType : Response + option ContentType :=
    if bool_decide (call_type call = SUBSCRIBE) ||
       bool_decide (call_type call = RECONCILE_OPERATIONS)
    then
      if acceptsMediaType accepts request "Accept" APPLICATION_JSON
      then inr (Some JSON)
      else if acceptsMediaType accepts request "Accept" APPLICATION_PROTOBUF
      then inr (Some PROTOBUF)
      else
        inl (NotAcceptable
               ("Expecting 'Accept' to allow " +:+ "'" +:+ APPLICATION_PROTOBUF
                +:+ "' or '" +:+ APPLICATION_JSON +:+ "'"))
    else inr None in
  match acceptType with
  | inl response => Replied response
  | inr acceptType =>
  if bool_decide (call_type call = SUBSCRIBE) then
    if bool_decide (is_Some (headers request !! "Mesos-Stream-Id"))
    then Replied (BadRequest
           "Subscribe calls should not include the 'Mesos-Stream-Id' header")
    else
      match acceptType with
      | None => Aborted
      | Some acceptType =>
          Replied (OKPipe [("Content-Type", stringify_ContentType acceptType);
                           ("Mesos-Stream-Id", streamId)])
      end
  else serve frameworks request principal call acceptType
  end end end end end.

End Handler.

End Scheduler.

(** ** Redirecting to the leader *)

Module Redirect.

(** [MasterInfo], the fields [redirect] reads. *)
Record MasterInfo : Type := mkMasterInfo {
  hostname : option string;
  ip : Z;
  port : Z
}.

(** Modelled from the spec: [strings::startsWith] of stout; [s]
    begins with [prefix]. *)
Definition startsWith (s prefix : string) : bool := String.prefix prefix s.

Section Handler.

(** [net::getHostname] on the leader's address, the printing of a
    request URL and of a port number; all three are library code. *)
Variable getHostname : Z -> string + string.
Variable stringify_URL : URL -> string.
Variable stringify_port : Z -> string.

(** The leader's host name: the one it advertises, or else the name
    its address resolves to. *)
Definition resolve (info : MasterInfo) : string + string :=
  match hostname info with
  | Some name => inl name
  | None => getHostname (ip info)
  end.

(** [Master::Http::redirect]; [self_id] is [master->self().id]. *)
Definition redirect (leader : option MasterInfo) (self_id : string)
    (request : Request) : Outcome :=
  match leader with
  | None => Replied (ServiceUnavailable "No leader elected")
  | Some info =>
      let hostname : string + string := resolve info in
      match hostname with
      | inr error => Replied (InternalServerError error)
      | inl hostname =>
          let basePath :=
            "//" +:+ hostname +:+ ":" +:+ stringify_port (port info) in
          let redirectPath := "/redirect" in
          let masterRedirectPath := "/" +:+ self_id +:+ "/redirect" in
          if bool_decide (url_path (url request) = redirectPath) ||
             bool_decide (url_path (url request) = masterRedirectPath)
          then Replied (TemporaryRedirect basePath)
          else if startsWith (url_path (url request)) (redirectPath +:+ "/") ||
                  startsWith (url_path (url request))
                             (masterRedirectPath +:+ "/")
          then Replied (NotFound "")
          else if isAbsolute (url request) then Aborted
          else Replied (TemporaryRedirect
                          (basePath +:+ stringify_URL (url request)))
      end
  end.

End Handler.

End Redirect.

(** ** The URI value of stout *)

Module Uri.

(** [UriUriA], the structure uriparser fills.  A text range whose
    [first] is null is [None]; the path is the list of the segments
    linked from [pathHead] (empty when [pathHead] is null). *)
Record UriUriA : Type := mkUriUriA {
  scheme : option string;
  userInfo : option string;
  hostText : option string;
  hostData_ip6 : bool;
  hostData_ipFuture : bool;
  portText : option string;
  pathHead : list string;
  absolutePath : bool;
  query : option string;
  fragment : option string
}.

(** [struct URI]. *)
Record URI : Type := mkURI {
  uri_scheme : string;
  uri_user : option string;
  uri_host : option string;
  uri_port : option Z;
  uri_path : string;
  uri_query : option string;
  uri_fragment : option string
}.

(** The characters from [pathHead->text.first] to
    [pathTail->text.afterLast]: the segments with the slashes between
    them. *)
Fixpoint path_text (segments : list string) : string :=
  match segments with
  | [] => ""
  | [segment] => segment
  | segment :: rest => segment +:+ "/" +:+ path_text rest
  end.

(** How a [uint16_t] is written to a stream. *)
Definition stringify_port (port : Z) : string :=
  NilZero.string_of_uint (N.to_uint (Z.to_N port)).

(** Modelled from the spec: [numify<uint16_t>] of stout; it fails when
    the port string contains non-digits or does not fit 0..65535. *)
Definition numify (s : string) : Z + string :=
  match NilEmpty.uint_of_string s with
  | Some digits =>
      let n := Z.of_N (N.of_uint digits) in
      if bool_decide (s ≠ "") && bool_decide (n ≤ 65535) then inl n
      else inr ("Failed to convert '" +:+ s +:+ "' to number")
  | None => inr ("Failed to convert '" +:+ s +:+ "' to number")
  end.

(** [URI::parse] from the point where [uriParseUriA] has succeeded. *)
Definition unpack (uri : UriUriA) : URI + string :=
  match scheme uri with
  | None => inr "Missing scheme in uri string"
  | Some scheme =>
      let user := userInfo uri in
      let host :=
        match hostText uri with
        | None => None
        | Some host =>
            if hostData_ip6 uri || hostData_ipFuture uri
            then Some ("[" +:+ host +:+ "]")
            else Some host
        end in
      let _port := default "" (portText uri) in
      let port : option Z + string :=
        if bool_decide (_port ≠ "") then
          match numify _port with
          | inr error => inr ("Failed to parse port: " +:+ error)
          | inl number => inl (Some number)
          end
        else inl None in
      match port with
      | inr error => inr error
      | inl port =>
          let path :=
            match pathHead uri with
            | [] => ""
            | segments =>
                (if absolutePath uri || bool_decide (is_Some host)
                 then "/" else "")
                +:+ path_text segments
            end in
          inl (mkURI scheme user host port path (query uri) (fragment uri))
      end
  end.

(** [value.c_str()], read as the C string [uriParseUriA] takes: the
    characters of [value] before its first NUL character. *)
Fixpoint c_str (value : string) : string :=
  match value with
  | EmptyString => EmptyString
  | String c rest =>
      if Ascii.eqb c Ascii.zero then EmptyString else String c (c_str rest)
  end.

Section Parse.

(** [uriParseUriA] of the uriparser library, on a C string: [None]
    for anything but [URI_SUCCESS]. *)
Variable uriParseUriA : string -> option UriUriA.

(** [URI::parse]. *)
Definition parse (value : string) : URI + string :=
  match uriParseUriA (c_str value) with
  | None => inr "Failed to parse uri string"
  | Some uri => unpack uri
  end.

End Parse.

(** [operator<<] on a [URI]. *)
Definition stringify (uri : URI) : string :=
  uri_scheme uri +:+ ":"
  +:+ match uri_host uri with
      | Some host =>
          "//"
          +:+ match uri_user uri with
              | Some user => user +:+ "@"
              | None => ""
              end
          +:+ host
          +:+ match uri_port uri with
              | Some port => ":" +:+ stringify_port port
              | None => ""
              end
      | None => ""
      end
  +:+ uri_path uri
  +:+ match uri_query uri with
      | Some query => "?" +:+ query
      | None => ""
      end
  +:+ match uri_fragment uri with
      | Some fragment => "#" +:+ fragment
      | None => ""
      end.

(** The characters the ranges of a [UriUriA] cover, delimiters
    included, in the order of RFC 3986 (section 5.3); uriparser's own
    [uriToStringA] writes a URI back this way. *)
Definition text (uri : UriUriA) : string :=
  match scheme uri with
  | Some scheme => scheme +:+ ":"
  | None => ""
  end
  +:+ match hostText uri with
      | Some host =>
          "//"
          +:+ match userInfo uri with
              | Some user => user +:+ "@"
              | None => ""
              end
          +:+ (if hostData_ip6 uri || hostData_ipFuture uri
               then "[" +:+ host +:+ "]" else host)
          +:+ match portText uri with
              | Some port => ":" +:+ port
              | None => ""
              end
      | None => ""
      end
  +:+ (if absolutePath uri ||
          (bool_decide (pathHead uri ≠ []) &&
           bool_decide (is_Some (hostText uri)))
       then "/" else "")
  +:+ path_text (pathHead uri)
  +:+ match query uri with
      | Some query => "?" +:+ query
      | None => ""
      end
  +:+ match fragment uri with
      | Some fragment => "#" +:+ fragment
      | None => ""
      end.

(** The port is written the way [stringify] writes it back: either
    there is none, or it is the decimal form of its own value. *)
Definition port_canonical (uri : UriUriA) : Prop :=
  match portText uri with
  | None => True
  | Some port =>
      match numify port with
      | inl number => stringify_port number = port
      | inr _ => False
      end
  end.

(** The path is not the lone slash of a reference without authority
    (an absolute path without any segment). *)
Definition path_not_bare_slash (uri : UriUriA) : Prop :=
  absolutePath uri = true -> pathHead uri ≠ [].

(** No character of the string is the NUL character. *)
Fixpoint no_nul (s : string) : Prop :=
  match s with
  | EmptyString => True
  | String c rest => c ≠ Ascii.zero ∧ no_nul rest
  end.

End Uri.

(** ** A reference parser

    uriparser is a library outside the repository.  [Rfc3986.parse] cuts
    a string into the components of RFC 3986, which [uri.hpp] cites,
    and reports them in the fields uriparser fills.  It looks at the
    characters of a component only where a delimiter depends on them
    (scheme, brackets, port).  It stands in for [uriParseUriA] where a
    URI has to be run: on the strings of [uri_tests.cpp] it gives what
    the tests expect. *)

Module Rfc3986.

Import Uri.

(** [break p s]: the characters of [s] before the first one that
    satisfies [p], then that character and what follows it. *)
Fixpoint break (p : ascii -> bool) (s : string)
    : string * option (ascii * string) :=
  match s with
  | EmptyString => (EmptyString, None)
  | String c rest =>
      if p c then (EmptyString, Some (c, rest))
      else let '(before, after) := break p rest in (String c before, after)
  end.

Definition is_char (c : ascii) (x : ascii) : bool := Ascii.eqb c x.

Definition one_of (cs : list ascii) (x : ascii) : bool :=
  existsb (fun c => Ascii.eqb c x) cs.

Definition is_digit (c : ascii) : bool :=
  let n := nat_of_ascii c in (48 <=? n)%nat && (n <=? 57)%nat.

Definition is_alpha (c : ascii) : bool :=
  let n := nat_of_ascii c in
  ((65 <=? n)%nat && (n <=? 90)%nat) || ((97 <=? n)%nat && (n <=? 122)%nat).

Fixpoint all (p : ascii -> bool) (s : string) : bool :=
  match s with
  | EmptyString => true
  | String c rest => p c && all p rest
  end.

(** scheme = ALPHA *( ALPHA / DIGIT / "+" / "-" / "." ) *)
Definition is_scheme (s : string) : bool :=
  match s with
  | EmptyString => false
  | String c rest =>
      is_alpha c &&
      all (fun x => is_alpha x || is_digit x ||
                    one_of ["+"%char; "-"%char; "."%char] x) rest
  end.

(** The segments of a path body: the pieces between slashes. *)
Fixpoint segments (fuel : nat) (s : string) : list string :=
  match fuel with
  | O => [s]
  | S fuel =>
      match break (is_char "/") s with
      | (segment, None) => [segment]
      | (segment, Some (_, rest)) => segment :: segments fuel rest
      end
  end.

(** [strip prefix s]: what follows [prefix] in [s], if [s] starts with
    it. *)
Fixpoint strip (prefix s : string) : option string :=
  match prefix with
  | EmptyString => Some s
  | String a prefix =>
      match s with
      | EmptyString => None
      | String b s => if Ascii.eqb a b then strip prefix s else None
      end
  end.

Record Authority : Type := mkAuthority {
  a_userInfo : option string;
  a_hostText : string;
  a_ip6 : bool;
  a_ipFuture : bool;
  a_portText : option string
}.

(** host [ ":" port ], the host being a bracketed literal or a name. *)
Definition host_port (s : string)
    : option (string * bool * bool * option string) :=
  match strip "[" s with
  | Some literal =>
      let future :=
        match literal with
        | String c _ => one_of ["v"%char; "V"%char] c
        | EmptyString => false
        end in
      match break (is_char "]") literal with
      | (inside, Some (_, after)) =>
          match strip ":" after with
          | Some port => Some (inside, negb future, future, Some port)
          | None =>
              if bool_decide (after = "")
              then Some (inside, negb future, future, None)
              else None
          end
      | (_, None) => None
      end
  | None =>
      match break (is_char ":") s with
      | (host, Some (_, port)) => Some (host, false, false, Some port)
      | (host, None) => Some (host, false, false, None)
      end
  end.

(** authority = [ userinfo "@" ] host [ ":" port ] *)
Definition authority (s : string) : option Authority :=
  let '(user, hostport) :=
    match break (is_char "@") s with
    | (user, Some (_, rest)) => (Some user, rest)
    | (_, None) => (None, s)
    end in
  match host_port hostport with
  | None => None
  | Some (host, ip6, future, port) =>
      if all is_digit (default "" port) &&
         all (fun c => negb (is_char "@" c)) host
      then Some (mkAuthority user host ip6 future port)
      else None
  end.

(** The text of an authority, as its components cover it. *)
Definition authority_text (a : Authority) : string :=
  match a_userInfo a with
  | Some user => user +:+ "@"
  | None => ""
  end
  +:+ (if a_ip6 a || a_ipFuture a then "[" +:+ a_hostText a +:+ "]"
       else a_hostText a)
  +:+ match a_portText a with
      | Some port => ":" +:+ port
      | None => ""
      end.

(** The text of a host and port, as their components cover it. *)
Definition host_text (host : string) (ip6 future : bool)
    (port : option string) : string :=
  (if ip6 || future then "[" +:+ host +:+ "]" else host)
  +:+ match port with
      | Some port => ":" +:+ port
      | None => ""
      end.

(** [ scheme ":" ]: the scheme, if the reference has one, and what
    follows its colon. *)
Definition split_scheme (s : string) : option (option string * string) :=
  match break (one_of [":"%char; "/"%char; "?"%char; "#"%char]) s with
  | (name, Some (c, rest)) =>
      if is_char ":" c
      then if is_scheme name then Some (Some name, rest) else None
      else Some (None, s)
  | (_, None) => Some (None, s)
  end.

(** [ "//" authority ]: the authority, if the reference has one, and
    what follows it. *)
Definition split_authority (hier : string)
    : option (option Authority * string) :=
  match strip "//" hier with
  | Some rest =>
      match break (one_of ["/"%char; "?"%char; "#"%char]) rest with
      | (a, Some (c, after)) =>
          match authority a with
          | Some a => Some (Some a, String c after)
          | None => None
          end
      | (a, None) =>
          match authority a with
          | Some a => Some (Some a, "")
          | None => None
          end
      end
  | None => Some (None, hier)
  end.

(** The segments of a path and whether uriparser flags it absolute:
    it does so only without authority. *)
Definition split_path (no_authority : bool) (path : string)
    : list string * bool :=
  match strip "/" path with
  | Some body =>
      if bool_decide (body = "") && no_authority then ([], true)
      else (segments (String.length body) body, no_authority)
  | None =>
      if bool_decide (path = "") then ([], false)
      else (segments (String.length path) path, false)
  end.

(** [ "?" query ] [ "#" fragment ] *)
Definition split_tail (tail : option (ascii * string))
    : option string * option string :=
  match tail with
  | None => (None, None)
  | Some (c, rest) =>
      if is_char "#" c then (None, Some rest)
      else
        match break (is_char "#") rest with
        | (query, Some (_, fragment)) => (Some query, Some fragment)
        | (query, None) => (Some query, None)
        end
  end.

(** URI-reference = [ scheme ":" ] [ "//" authority ] path
                    [ "?" query ] [ "#" fragment ] *)
Definition parse (s : string) : option UriUriA :=
  match split_scheme s with
  | None => None
  | Some (scheme, hier) =>
      match split_authority hier with
      | None => None
      | Some (auth, rest) =>
          let '(path, tail) := break (one_of ["?"%char; "#"%char]) rest in
          let '(pathHead, absolutePath) :=
            split_path (if auth is None then true else false) path in
          let '(query, fragment) := split_tail tail in
          Some (mkUriUriA scheme
                  (auth ≫= a_userInfo) (a_hostText <$> auth)
                  (default false (a_ip6 <$> auth))
                  (default false (a_ipFuture <$> auth))
                  (auth ≫= a_portText)
                  pathHead absolutePath query fragment)
      end
  end.

End Rfc3986.

(** ** Worked instances

    Concrete collaborators and requests, used to run the handlers. *)

Module Examples.

(** A request to the operator API, given its headers and body. *)
Definition post (headers : list (string * string)) (body : string) : Request :=
  mkRequest "POST" (mkURL None "/api/v1" [] None) (list_to_map headers)
            PIPE true body.

Definition leading : Leadership := mkLeadership true (Some true).

(** An operator call reduced to its type, written in the body by name. *)
Definition deserialize_type (contentType : ContentType) (body : string)
    : Api.CallType + string :=
  if decide (body = "GET_HEALTH") then inl Api.GET_HEALTH
  else if decide (body = "SUBSCRIBE") then inl Api.SUBSCRIBE
  else inr "Failed to deserialize the call".

Definition stringify_type (type : Api.CallType) : string :=
  match type with
  | Api.GET_HEALTH => "GET_HEALTH"
  | Api.SUBSCRIBE => "SUBSCRIBE"
  | _ => "UNKNOWN"
  end.

(** The operator API with those collaborators: a pipe holding one
    record, every call valid, every handler answering 200 OK. *)
Definition run_api : Leadership -> Outcome -> Request -> option Principal -> Outcome :=
  Api.api accepts_exactly (fun type : Api.CallType => type) stringify_type
          deserialize_type (fun _ => None) (fun record => Api.RSome record)
          (fun _ _ _ => OK "").

(** GET_HEALTH sent as a record stream, asking for a record stream. *)
Definition streaming_get_health : Request :=
  post [("Content-Type", APPLICATION_RECORDIO);
        (MESSAGE_CONTENT_TYPE, APPLICATION_JSON);
        ("Accept", APPLICATION_RECORDIO)]
       "GET_HEALTH".

(** SUBSCRIBE asking for a record stream, without [Message-Accept]. *)
Definition streaming_subscribe : Request :=
  post [("Content-Type", APPLICATION_JSON);
        ("Accept", APPLICATION_RECORDIO)]
       "SUBSCRIBE".

(** A record stream whose records have no declared encoding. *)
Definition undeclared_records : Request :=
  post [("Content-Type", APPLICATION_RECORDIO)] "GET_HEALTH".

(** A scheduler call reduced to what the handler looks at. *)
Definition scheduler_call (type : Scheduler.CallType) : Scheduler.Call :=
  Scheduler.mkCall None (Some type) (Some "framework-1")
    (Some (Scheduler.mkFrameworkInfo "framework-1" None))
    false false false false false false None None false true false false.

Definition parse_call (body : string) : option Scheduler.Call :=
  if decide (body = "SUBSCRIBE")
  then Some (scheduler_call Scheduler.SUBSCRIBE)
  else if decide (body = "TEARDOWN")
  then Some (scheduler_call Scheduler.TEARDOWN)
  else if decide (body = "RECONCILE_OPERATIONS")
  then Some (scheduler_call Scheduler.RECONCILE_OPERATIONS)
  else None.

(** One framework, subscribed over HTTP with stream id [stream-1]. *)
Definition frameworks : gmap Scheduler.FrameworkID Scheduler.Framework :=
  {[ "framework-1" := Scheduler.mkFramework "" true (Some "stream-1") ]}.

(** The scheduler API of a leading master with those collaborators;
    a new subscription would get the stream id [stream-2]. *)
Definition run_scheduler (request : Request) : Outcome :=
  Scheduler.scheduler accepts_exactly parse_call
    (fun body : string => inl body)
    (fun value : string =>
       match parse_call value with
       | Some call => inl call
       | None => inr "Unknown call"
       end)
    (fun _ _ _ => OK "")
    leading frameworks Aborted "stream-2" request None.

Definition scheduler_post (headers : list (string * string)) (body : string)
    : Request :=
  mkRequest "POST" (mkURL None "/api/v1/scheduler" [] None)
            (list_to_map headers) BODY false body.

(** SUBSCRIBE with a stream id, asking for a plain-text response. *)
Definition subscribe_text_plain : Request :=
  scheduler_post [("Content-Type", APPLICATION_PROTOBUF);
                  ("Accept", "text/plain");
                  ("Mesos-Stream-Id", "stream-1")]
                 "SUBSCRIBE".

(** SUBSCRIBE with a stream id, asking for JSON. *)
Definition subscribe_with_stream_id : Request :=
  scheduler_post [("Content-Type", APPLICATION_PROTOBUF);
                  ("Accept", APPLICATION_JSON);
                  ("Mesos-Stream-Id", "stream-1")]
                 "SUBSCRIBE".

(** TEARDOWN carrying a stream id that is not the registered one. *)
Definition teardown_stale_stream_id : Request :=
  scheduler_post [("Content-Type", APPLICATION_PROTOBUF);
                  ("Mesos-Stream-Id", "stream-0")]
                 "TEARDOWN".

(** A leader that advertises a host name, and one that only has an
    address; a resolver that knows no address. *)
Definition named_leader : Redirect.MasterInfo :=
  Redirect.mkMasterInfo (Some "leader-host") 0 5050.

Definition unnamed_leader : Redirect.MasterInfo :=
  Redirect.mkMasterInfo None 16777343 5050.

Definition unresolvable (ip : Z) : string + string :=
  inr "Failed to resolve the address".

Definition print_port (port : Z) : string :=
  NilZero.string_of_uint (N.to_uint (Z.to_N port)).

(** [redirect] on a master whose id is [master]; a request URL is
    printed as its path. *)
Definition run_redirect (leader : option Redirect.MasterInfo)
    (path : string)
    : Outcome :=
  Redirect.redirect unresolvable url_path print_port leader "master"
    (mkRequest "POST" (mkURL None path [] None) ∅ BODY false "").

(** Agents named by their id.  [agent-1] is registered, [agent-2] is
    unreachable, and no transition is under way. *)
Definition agents : MarkGone.Master SlaveID :=
  MarkGone.mkMaster {[ "agent-1" := "agent-1" ]} ∅ {[ "agent-2" ]} ∅ ∅ ∅ ∅ [].

(** A stand-in for [Master::markGone]: the agent leaves the registered
    table and the [markingGone] set and enters the [gone] set. *)
Definition mark_gone (slave : SlaveID) (goneTime : TimeInfo)
    (m : MarkGone.Master SlaveID) : MarkGone.Master SlaveID :=
  MarkGone.mkMaster (delete slave (MarkGone.registered m))
    (MarkGone.recovered m) (MarkGone.unreachable m)
    ({[ slave ]} ∪ MarkGone.gone m)
    (MarkGone.markingGone m ∖ {[ slave ]})
    (MarkGone.removing m) (MarkGone.markingUnreachable m)
    (MarkGone.registrar m).

(** Resources as a number of cpus: a list of resources stands for
    their sum, and what is subtracted beyond zero is lost. *)
Global Instance cpus : Operation.ResourcesOps Z Z := {|
  Operation.Resources_empty := 0;
  Operation.Resources_of := fold_right Z.add 0;
  Operation.Resources_eqb := Z.eqb;
  Operation.Resources_add := Z.add;
  Operation.Resources_sub := fun a b => Z.max 0 (a - b);
  Operation.Resources_add1 := Z.add;
  Operation.unallocate := fun r => r;
  Operation.popReservation := fun r => r;
  Operation.clear_disk := fun r => r
|}.

(** An operation applies to recovered cpus that cover what it asks. *)
Definition apply_cpus (total : Z)
    (operation : Operation.OfferOperation (Resource := Z)) : option Z :=
  match operation with
  | Operation.RESERVE resources =>
      if (fold_right Z.add 0 resources <=? total) then Some total else None
  | _ => Some total
  end.

(** An agent with two outstanding offers of 2 cpus each. *)
Definition offered : Operation.Slave (Resource := Z) :=
  Operation.mkSlave "agent-1"
    [Operation.mkOffer "offer-1" "framework-1" "agent-1" [2];
     Operation.mkOffer "offer-2" "framework-2" "agent-1" [2]].

Definition offered_agents : gmap SlaveID (Operation.Slave (Resource := Z)) :=
  {[ "agent-1" := offered ]}.

(** Two machines, one [UP] and one [DRAINING], and a schedule that
    names the first and omits the second. *)
Definition machine_1 : Maintenance.MachineID :=
  Maintenance.mkMachineID "host-1" "10.0.0.1".

Definition machine_2 : Maintenance.MachineID :=
  Maintenance.mkMachineID "host-2" "10.0.0.2".

Definition machine_in (id : Maintenance.MachineID) (mode : Maintenance.Mode)
    : Maintenance.Machine :=
  Maintenance.mkMachine (Maintenance.mkMachineInfo (Some id) mode None) ∅.

Definition maintained : Maintenance.Master :=
  Maintenance.mkMaster
    {[ machine_1 := machine_in machine_1 Maintenance.UP;
       machine_2 := machine_in machine_2 Maintenance.DRAINING ]}
    [] [].

Definition next_schedule : Maintenance.Schedule :=
  Maintenance.mkSchedule
    [Maintenance.mkWindow [machine_1] (Maintenance.mkUnavailability 100 None)].

(** The update of the schedule with every check passing, and no other
    event of the master between its turns. *)
Definition update_schedule (m : Maintenance.Master)
    (schedule : Maintenance.Schedule) : Outcome * Maintenance.Master :=
  Maintenance.updateMaintenanceSchedule Maintenance.validation_of_modes
    m schedule (fun _ => true) (Ready true) (fun m => m) (fun m => m).

(** A schedule that names [machine_2], which is draining. *)
Definition draining_schedule : Maintenance.Schedule :=
  Maintenance.mkSchedule
    [Maintenance.mkWindow [machine_2] (Maintenance.mkUnavailability 100 None)].

(** The same update while [machine_2] is brought down: the continuation
    of [_startMaintenance] runs after the schedule has been validated
    and handed to the registrar, before the continuation of the
    update. *)
Definition update_schedule_during_start (m : Maintenance.Master)
    (schedule : Maintenance.Schedule) : Outcome * Maintenance.Master :=
  Maintenance.updateMaintenanceSchedule Maintenance.validation_of_modes
    m schedule (fun _ => true) (Ready true) (fun m => m)
    (Maintenance._startMaintenance_down [machine_2]).

End Examples.

(** ** Bringing machines down and up *)

Module Machines.

Import Maintenance.

(** The registry operations of [/machine/down] and [/machine/up]. *)
Inductive RegistryOperation : Type :=
| StartMaintenance (machineIds : list MachineID)
| StopMaintenance (machineIds : list MachineID).

(** What the synchronous part of a handler produces: a response right
    away, or a future that waits on the registrar. *)
Inductive Started : Type :=
| Now (r : Response)
| Awaiting (op : RegistryOperation).

(** How the future that a handler returns ends: with an outcome of the
    handler, or failed or discarded like the future it was chained
    to with [then]. *)
Inductive Ended : Type :=
| Answered (o : Outcome)
| FailedFuture (message : string)
| DiscardedFuture.

(** The master as the two handlers see it: the machines and schedules,
    and the table of registered agents. *)
Record Cluster (Slave : Type) : Type := mkCluster {
  master : Master;
  registered : gmap SlaveID Slave
}.

Arguments mkCluster {Slave}.
Arguments master {Slave}.
Arguments registered {Slave}.

(** [ClusterStatus::DrainingMachine] and [ClusterStatus]. *)
Record DrainingMachine (InverseOfferStatus : Type) : Type :=
  mkDrainingMachine {
    draining_id : MachineID;
    statuses : list InverseOfferStatus
  }.

Arguments mkDrainingMachine {InverseOfferStatus}.
Arguments draining_id {InverseOfferStatus}.
Arguments statuses {InverseOfferStatus}.

Record ClusterStatus (InverseOfferStatus : Type) : Type := mkClusterStatus {
  draining_machines : list (DrainingMachine InverseOfferStatus);
  down_machines : list MachineID
}.

Arguments mkClusterStatus {InverseOfferStatus}.
Arguments draining_machines {InverseOfferStatus}.
Arguments down_machines {InverseOfferStatus}.

(** [master->machines[id].info.clear_unavailability()]. *)
Definition clear_unavailability (id : MachineID) (m : Master) : Master :=
  let machine := machine_at m id in
  let info' :=
    mkMachineInfo (Maintenance.id (info machine)) (mode (info machine)) None in
  set_machines (<[id := mkMachine info' (slaves machine)]> (machines m)) m.

(** [Master::Http::_getMaintenanceSchedule]: the first schedule, with
    the machines the principal may not see left out, and the windows
    that lose all their machines with them. *)
Definition _getMaintenanceSchedule (m : Master) (approved : MachineID -> bool)
    : Schedule :=
  match schedules m with
  | [] => mkSchedule []
  | front :: _ =>
      fold_left
        (fun schedule window =>
           let window_ :=
             fold_left
               (fun ids machine_id =>
                  if negb (approved machine_id) then ids
                  else ids ++ [machine_id])
               (machine_ids window) [] in
           if (0 <? length window_)%nat
           then mkSchedule
                  (windows schedule
                   ++ [mkWindow window_ (window_unavailability window)])
           else schedule)
        (windows front) (mkSchedule [])
  end.

(** The loop of [_stopMaintenance] over [k], from the last machine of a
    window down to the first; [S k] stands for the index [k].  The
    index is within the list all along, since only positions at or
    after it have been deleted. *)
Fixpoint delete_machines (updated : gset MachineID) (k : nat)
    (ids : list MachineID) : list MachineID :=
  match k with
  | O => ids
  | S k =>
      delete_machines updated k
        match ids !! k with
        | Some id => if decide (id ∈ updated) then delete k ids else ids
        | None => ids
        end
  end.

(** The loop over [j], from the last window of a schedule down to the
    first. *)
Fixpoint delete_windows (updated : gset MachineID) (j : nat)
    (ws : list Window) : list Window :=
  match j with
  | O => ws
  | S j =>
      delete_windows updated j
        match ws !! j with
        | Some window =>
            let ids :=
              delete_machines updated (length (machine_ids window))
                              (machine_ids window) in
            if bool_decide (length ids = 0%nat) then delete j ws
            else <[j := mkWindow ids (window_unavailability window)]> ws
        | None => ws
        end
  end.

(** The loop over the schedules, erasing the ones left without a
    window. *)
Fixpoint delete_schedules (updated : gset MachineID)
    (schedules : list Schedule) : list Schedule :=
  match schedules with
  | [] => []
  | schedule :: rest =>
      let ws :=
        delete_windows updated (length (windows schedule))
                       (windows schedule) in
      if bool_decide (length ws = 0%nat) then delete_schedules updated rest
      else mkSchedule ws :: delete_schedules updated rest
  end.

Section Handlers.

Context {Slave InverseOfferStatus : Type}.

(** [maintenance::validation::machines] ([master/maintenance.cpp]),
    how a [MachineID] is printed as JSON, and [Master::removeSlave]
    ([master.cpp]). *)
Variable validation_machines : list MachineID -> option string.
Variable stringify_MachineID : MachineID -> string.
Variable removeSlave : Slave -> string -> Cluster Slave -> Cluster Slave.

(** The loop of [_startMaintenance] that checks every machine; [None]
    when it runs to its end. *)
Fixpoint _startMaintenance_check (ms : gmap MachineID Machine)
    (approved : MachineID -> bool) (machineIds : list MachineID)
    : option Response :=
  match machineIds with
  | [] => None
  | id :: rest =>
      match ms !! id with
      | None =>
          Some (BadRequest
                  ("Machine '" +:+ stringify_MachineID id
                   +:+ "' is not part of a maintenance schedule"))
      | Some machine =>
          if negb (bool_decide (mode (info machine) = DRAINING))
          then Some (BadRequest
                       ("Machine '" +:+ stringify_MachineID id
                        +:+ "' is not in DRAINING mode and cannot be brought down"))
          else if negb (approved id) then Some (Forbidden "")
          else _startMaintenance_check ms approved rest
      end
  end.

(** [Master::Http::_startMaintenance], up to the [registrar->apply]
    call. *)
Definition _startMaintenance (c : Cluster Slave)
    (machineIds : list MachineID) (approved : MachineID -> bool) : Started :=
  match validation_machines machineIds with
  | Some error => Now (BadRequest error)
  | None =>
      match _startMaintenance_check (machines (master c)) approved
                                    machineIds with
      | Some response => Now response
      | None => Awaiting (StartMaintenance machineIds)
      end
  end.

(** One agent of a machine that goes down: it is sent a
    [ShutdownMessage] and removed; [None] when [CHECK_NOTNULL] fails.
    [sent] lists the agents the message went to. *)
Definition shutdown_slave (acc : option (Cluster Slave * list Slave))
    (slaveId : SlaveID) : option (Cluster Slave * list Slave) :=
  match acc with
  | None => None
  | Some (c, sent) =>
      match registered c !! slaveId with
      | None => None
      | Some slave =>
          Some (removeSlave slave "Operator initiated 'Machine DOWN'" c,
                sent ++ [slave])
      end
  end.

(** The agents of one machine, over a copy of its set of agents. *)
Definition shutdown_machine (acc : option (Cluster Slave * list Slave))
    (machineId : MachineID) : option (Cluster Slave * list Slave) :=
  match acc with
  | None => None
  | Some (c, sent) =>
      match machines (master c) !! machineId with
      | None => acc
      | Some machine => fold_left shutdown_slave (elements (slaves machine)) acc
      end
  end.

(** The continuation of [_startMaintenance] on the registrar's answer;
    [None] when a [CHECK] fails. *)
Definition _startMaintenance_then (c : Cluster Slave)
    (machineIds : list MachineID) (result : bool)
    : option (Response * Cluster Slave * list Slave) :=
  if negb result then None
  else
    match fold_left shutdown_machine machineIds (Some (c, [])) with
    | None => None
    | Some (c, sent) =>
        Some (OK "",
              mkCluster (_startMaintenance_down machineIds (master c))
                        (registered c),
              sent)
    end.

(** A whole call of [_startMaintenance], run without any other event
    of the master in between. *)
Definition startMaintenance_call (c : Cluster Slave)
    (machineIds : list MachineID) (approved : MachineID -> bool)
    (registrarResult : RegistrarResult)
    : Ended * Cluster Slave * list Slave :=
  match _startMaintenance c machineIds approved with
  | Now response => (Answered (Replied response), c, [])
  | Awaiting _ =>
      match registrarResult with
      | Failed message => (FailedFuture message, c, [])
      | Discarded => (DiscardedFuture, c, [])
      | Ready result =>
          match _startMaintenance_then c machineIds result with
          | Some (response, c', sent) => (Answered (Replied response), c', sent)
          | None => (Answered Aborted, c, [])
          end
      end
  end.

(** The loop of [_stopMaintenance] that checks every machine. *)
Fixpoint _stopMaintenance_check (ms : gmap MachineID Machine)
    (approved : MachineID -> bool) (machineIds : list MachineID)
    : option Response :=
  match machineIds with
  | [] => None
  | id :: rest =>
      match ms !! id with
      | None =>
          Some (BadRequest
                  ("Machine '" +:+ stringify_MachineID id
                   +:+ "' is not part of a maintenance schedule"))
      | Some machine =>
          if negb (bool_decide (mode (info machine) = DOWN))
          then Some (BadRequest
                       ("Machine '" +:+ stringify_MachineID id
                        +:+ "' is not in DOWN mode and cannot be brought up"))
          else if negb (approved id) then Some (Forbidden "")
          else _stopMaintenance_check ms approved rest
      end
  end.

(** [Master::Http::_stopMaintenance], up to the [registrar->apply]
    call. *)
Definition _stopMaintenance (m : Master) (machineIds : list MachineID)
    (approved : MachineID -> bool) : Started :=
  match validation_machines machineIds with
  | Some error => Now (BadRequest error)
  | None =>
      match _stopMaintenance_check (machines m) approved machineIds with
      | Some response => Now response
      | None => Awaiting (StopMaintenance machineIds)
      end
  end.

(** The first loop of the continuation of [_stopMaintenance]: the
    machines go back to [UP], and [updated] collects them. *)
Definition reactivate (acc : Master * gset MachineID) (id : MachineID)
    : Master * gset MachineID :=
  (clear_unavailability id (set_mode id UP (fst acc)), {[id]} ∪ snd acc).

(** The continuation of [_stopMaintenance] on the registrar's answer;
    [None] when [CHECK(result)] fails. *)
Definition _stopMaintenance_then (m : Master) (machineIds : list MachineID)
    (result : bool) : option (Response * Master) :=
  if negb result then None
  else
    let '(m1, updated) := fold_left reactivate machineIds (m, ∅) in
    Some (OK "",
          mkMaster (machines m1) (delete_schedules updated (schedules m1))
                   (registrar m1)).

(** A whole call of [_stopMaintenance], run without any other event of
    the master in between. *)
Definition stopMaintenance_call (m : Master) (machineIds : list MachineID)
    (approved : MachineID -> bool) (registrarResult : RegistrarResult)
    : Ended * Master :=
  match _stopMaintenance m machineIds approved with
  | Now response => (Answered (Replied response), m)
  | Awaiting _ =>
      match registrarResult with
      | Failed message => (FailedFuture message, m)
      | Discarded => (DiscardedFuture, m)
      | Ready result =>
          match _stopMaintenance_then m machineIds result with
          | Some (response, m') => (Answered (Replied response), m')
          | None => (Answered Aborted, m)
          end
      end
  end.

(** The inverse offer statuses the allocator holds for the agents of
    one machine. *)
Definition unwrap_statuses {FrameworkID : Type} `{Countable FrameworkID}
    (result : gmap SlaveID (gmap FrameworkID InverseOfferStatus))
    (agents : gset SlaveID) : list InverseOfferStatus :=
  fold_left
    (fun acc slave =>
       match result !! slave with
       | Some byFramework => acc ++ map snd (map_to_list byFramework)
       | None => acc
       end)
    (elements agents) [].

(** [Master::Http::_getMaintenanceStatus], once the allocator has
    answered with [result]. *)
Definition _getMaintenanceStatus {FrameworkID : Type} `{Countable FrameworkID}
    (m : Master) (approved : MachineID -> bool)
    (result : gmap SlaveID (gmap FrameworkID InverseOfferStatus))
    : ClusterStatus InverseOfferStatus :=
  fold_left
    (fun status entry =>
       let '(id, machine) := entry in
       if negb (approved id) then status
       else
         match mode (info machine) with
         | DRAINING =>
             mkClusterStatus
               (draining_machines status
                ++ [mkDrainingMachine id
                      (unwrap_statuses result (slaves machine))])
               (down_machines status)
         | DOWN =>
             mkClusterStatus (draining_machines status)
                             (down_machines status ++ [id])
         | UP => status
         end)
    (map_to_list (machines m)) (mkClusterStatus [] []).

(** The decoders of a request body of the two machine endpoints:
    [JSON::parse<JSON::Array>] and
    [protobuf::parse<RepeatedPtrField<MachineID>>]. *)
Context {JSONArray : Type}.
Variable JSON_parse_Array : string -> JSONArray + string.
Variable protobuf_parse_MachineIDs : JSONArray -> list MachineID + string.

(** [Master::Http::machineDown]; [redirected] is what
    [redirect(request)] answers on a master that is not the leader. *)
Definition machineDown (elected : bool) (redirected : Outcome)
    (c : Cluster Slave) (request : Request) (approved : MachineID -> bool)
    (registrarResult : RegistrarResult) : Ended * Cluster Slave * list Slave :=
  if negb elected then (Answered redirected, c, [])
  else if negb (bool_decide (method request = "POST"))
  then (Answered (Replied (MethodNotAllowed ["POST"] (method request))), c, [])
  else
    match JSON_parse_Array (body request) with
    | inr error => (Answered (Replied (BadRequest error)), c, [])
    | inl jsonIds =>
        match protobuf_parse_MachineIDs jsonIds with
        | inr error => (Answered (Replied (BadRequest error)), c, [])
        | inl ids => startMaintenance_call c ids approved registrarResult
        end
    end.

(** [Master::Http::machineUp]. *)
Definition machineUp (elected : bool) (redirected : Outcome) (m : Master)
    (request : Request) (approved : MachineID -> bool)
    (registrarResult : RegistrarResult) : Ended * Master :=
  if negb elected then (Answered redirected, m)
  else if negb (bool_decide (method request = "POST"))
  then (Answered (Replied (MethodNotAllowed ["POST"] (method request))), m)
  else
    match JSON_parse_Array (body request) with
    | inr error => (Answered (Replied (BadRequest error)), m)
    | inl jsonIds =>
        match protobuf_parse_MachineIDs jsonIds with
        | inr error => (Answered (Replied (BadRequest error)), m)
        | inl ids => stopMaintenance_call m ids approved registrarResult
        end
    end.

End Handlers.

End Machines.
(** What the loops of [_stopMaintenance] over the schedules amount to:
    a machine stays when it was not brought up, a window when it keeps
    a machine, a schedule when it keeps a window. *)

Module Pruned.

Import Maintenance.

Definition machines_left (updated : gset MachineID) (ids : list MachineID)
    : list MachineID :=
  filter (fun id => id ∉ updated) ids.

Definition window_left (updated : gset MachineID) (window : Window)
    : option Window :=
  match machines_left updated (machine_ids window) with
  | [] => None
  | ids => Some (mkWindow ids (window_unavailability window))
  end.

Definition schedule_left (updated : gset MachineID) (schedule : Schedule)
    : option Schedule :=
  match omap (window_left updated) (windows schedule) with
  | [] => None
  | ws => Some (mkSchedule ws)
  end.

Definition schedules_left (updated : gset MachineID)
    (schedules : list Schedule) : list Schedule :=
  omap (schedule_left updated) schedules.

End Pruned.
(** ** The handlers of the mutating operations *)

Module Pipeline.

Import Operation.

Section Handlers.

Context {Resource Resources : Type} `{!ResourcesOps Resource Resources}.

Local Abbreviation OfferOperation := (OfferOperation (Resource := Resource)).
Local Abbreviation Slave := (Slave (Resource := Resource)).
Local Abbreviation Effect :=
  (Effect (Resource := Resource) (Resources := Resources)).

Variable Resources_apply : Resources -> OfferOperation -> option Resources.

(** [validateAndUpgradeResources] ([common/resources_utils.cpp]): the
    operation with its resources upgraded in place, or an error. *)
Variable validateAndUpgradeResources : OfferOperation -> OfferOperation + string.

(** The overloads of [validation::operation::validate]
    ([master/validation.cpp]), each on the operation and on what the
    handler passes of the principal and of the agent; and how an agent
    is printed. *)
Variable validate : OfferOperation -> option Principal -> Slave -> option string.
Variable stringify_Slave : Slave -> string.

(** [operation.reserve().resources()] and the like: the field of the
    message, empty when the operation is of another type. *)
Definition reserve_resources (operation : OfferOperation) : list Resource :=
  match operation with RESERVE resources => resources | _ => [] end.

Definition unreserve_resources (operation : OfferOperation) : list Resource :=
  match operation with UNRESERVE resources => resources | _ => [] end.

Definition create_volumes (operation : OfferOperation) : list Resource :=
  match operation with CREATE volumes => volumes | _ => [] end.

Definition destroy_volumes (operation : OfferOperation) : list Resource :=
  match operation with DESTROY volumes => volumes | _ => [] end.

(** [Resources(operation.grow_volume().volume()) +
    Resources(operation.grow_volume().addition())], and
    [operation.shrink_volume().volume()]. *)
Definition grow_volume_resources (operation : OfferOperation) : Resources :=
  match operation with
  | GROW_VOLUME volume addition =>
      Resources_add (Resources_of [volume]) (Resources_of [addition])
  | _ => Resources_add (Resources_of []) (Resources_of [])
  end.

Definition shrink_volume_resources (operation : OfferOperation) : Resources :=
  match operation with
  | SHRINK_VOLUME volume _ => Resources_of [volume]
  | _ => Resources_of []
  end.

(** [Master::Http::_reserve].  [registered] is the table of agents when
    the call arrives, [registered'] the table when the authorizer has
    answered [authorized] and the continuation runs; [applied] is how
    the future of [master->apply] ends. *)
Definition _reserve (registered registered' : gmap SlaveID Slave)
    (slaveId : SlaveID) (resources : list Resource)
    (principal : option Principal) (authorized : bool)
    (applied : option string) : Response * list Effect :=
  match registered !! slaveId with
  | None => (BadRequest "No agent found with specified ID", [])
  | Some slave =>
      match validateAndUpgradeResources (RESERVE resources) with
      | inr error => (BadRequest error, [])
      | inl operation =>
          match validate operation principal slave with
          | Some error =>
              (BadRequest ("Invalid RESERVE operation on agent "
                           +:+ stringify_Slave slave +:+ ": " +:+ error), [])
          | None =>
              if negb authorized then (Forbidden "", [])
              else
                let required :=
                  popReservation (Resources_of (reserve_resources operation))
                in
                _operation Resources_apply registered' slaveId required
                           operation applied
          end
      end
  end.

(** [Master::Http::_unreserve]. *)
Definition _unreserve (registered registered' : gmap SlaveID Slave)
    (slaveId : SlaveID) (resources : list Resource)
    (principal : option Principal) (authorized : bool)
    (applied : option string) : Response * list Effect :=
  match registered !! slaveId with
  | None => (BadRequest "No agent found with specified ID", [])
  | Some slave =>
      match validateAndUpgradeResources (UNRESERVE resources) with
      | inr error => (BadRequest error, [])
      | inl operation =>
          match validate operation principal slave with
          | Some error =>
              (BadRequest ("Invalid UNRESERVE operation: " +:+ error), [])
          | None =>
              if negb authorized then (Forbidden "", [])
              else
                _operation Resources_apply registered' slaveId
                           (Resources_of (unreserve_resources operation))
                           operation applied
          end
      end
  end.

(** [Master::Http::_createVolumes]. *)
Definition _createVolumes (registered registered' : gmap SlaveID Slave)
    (slaveId : SlaveID) (volumes : list Resource)
    (principal : option Principal) (authorized : bool)
    (applied : option string) : Response * list Effect :=
  match registered !! slaveId with
  | None => (BadRequest "No agent found with specified ID", [])
  | Some slave =>
      match validateAndUpgradeResources (CREATE volumes) with
      | inr error => (BadRequest error, [])
      | inl operation =>
          match validate operation principal slave with
          | Some error =>
              (BadRequest ("Invalid CREATE operation on agent "
                           +:+ stringify_Slave slave +:+ ": " +:+ error), [])
          | None =>
              if negb authorized then (Forbidden "", [])
              else
                _operation Resources_apply registered' slaveId
                           (removeDiskInfos (create_volumes operation))
                           operation applied
          end
      end
  end.

(** [Master::Http::_destroyVolumes]. *)
Definition _destroyVolumes (registered registered' : gmap SlaveID Slave)
    (slaveId : SlaveID) (volumes : list Resource)
    (principal : option Principal) (authorized : bool)
    (applied : option string) : Response * list Effect :=
  match registered !! slaveId with
  | None => (BadRequest "No agent found with specified ID", [])
  | Some slave =>
      match validateAndUpgradeResources (DESTROY volumes) with
      | inr error => (BadRequest error, [])
      | inl operation =>
          match validate operation principal slave with
          | Some error =>
              (BadRequest ("Invalid DESTROY operation: " +:+ error), [])
          | None =>
              if negb authorized then (Forbidden "", [])
              else
                _operation Resources_apply registered' slaveId
                           (Resources_of (destroy_volumes operation))
                           operation applied
          end
      end
  end.

(** [Master::Http::growVolume], on the fields of the call, which the
    handler [CHECK]s to be set. *)
Definition growVolume (registered registered' : gmap SlaveID Slave)
    (slaveId : SlaveID) (volume addition : Resource)
    (principal : option Principal) (authorized : bool)
    (applied : option string) : Response * list Effect :=
  if principal_without_value principal
  then (Forbidden principal_message, [])
  else
    match registered !! slaveId with
    | None => (BadRequest "No agent found with specified ID", [])
    | Some slave =>
        match validateAndUpgradeResources (GROW_VOLUME volume addition) with
        | inr error => (BadRequest error, [])
        | inl operation =>
            match validate operation principal slave with
            | Some error =>
                (BadRequest ("Invalid GROW_VOLUME operation on agent "
                             +:+ stringify_Slave slave +:+ ": " +:+ error),
                 [])
            | None =>
                if negb authorized then (Forbidden "", [])
                else
                  _operation Resources_apply registered' slaveId
                             (grow_volume_resources operation)
                             operation applied
            end
        end
    end.

(** [Master::Http::shrinkVolume], on the fields of the call, which the
    handler [CHECK]s to be set. *)
Definition shrinkVolume (registered registered' : gmap SlaveID Slave)
    (slaveId : SlaveID) (volume : Resource) (subtract : Z)
    (principal : option Principal) (authorized : bool)
    (applied : option string) : Response * list Effect :=
  if principal_without_value principal
  then (Forbidden principal_message, [])
  else
    match registered !! slaveId with
    | None => (BadRequest "No agent found with specified ID", [])
    | Some slave =>
        match validateAndUpgradeResources (SHRINK_VOLUME volume subtract) with
        | inr error => (BadRequest error, [])
        | inl operation =>
            match validate operation principal slave with
            | Some error =>
                (BadRequest ("Invalid SHRINK_VOLUME operation on agent "
                             +:+ stringify_Slave slave +:+ ": " +:+ error),
                 [])
            | None =>
                if negb authorized then (Forbidden "", [])
                else
                  _operation Resources_apply registered' slaveId
                             (shrink_volume_resources operation)
                             operation applied
            end
        end
    end.

(** What rescinding one offer asks of the allocator and of the
    master. *)
Definition rescinded (offer : Offer) : list Effect :=
  [recoverResources (framework_id offer) (slave_id offer)
     (Resources_of (resources offer)) Filters_default;
   removeOffer offer true].

End Handlers.

End Pipeline.
(** ** Tearing a framework down *)

Module Teardown.

Definition FrameworkID := string.

(** [authorization::Request], as [_teardown] fills it: the action is
    [TEARDOWN_FRAMEWORK]; the subject is there when [createSubject]
    gives one; the object holds the [FrameworkInfo] and, as its value,
    the principal of the framework, when the framework has one. *)
Record AuthorizationRequest (Subject : Type) : Type := mkAuthorizationRequest {
  subject : option Subject;
  object : option (Scheduler.FrameworkInfo * string)
}.

Arguments mkAuthorizationRequest {Subject}.
Arguments subject {Subject}.
Arguments object {Subject}.

Section Handler.

Context {Master Framework Subject : Type}.

(** [Master::getFramework] and [Master::removeFramework] ([master.cpp]),
    [framework->info], and [authorization::createSubject]. *)
Variable getFramework : Master -> FrameworkID -> option Framework.
Variable removeFramework : Framework -> Master -> Master.
Variable info : Framework -> Scheduler.FrameworkInfo.
Variable createSubject : option Principal -> option Subject.

(** [Master::Http::__teardown]. *)
Definition __teardown (m : Master) (id : FrameworkID) : Response * Master :=
  match getFramework m id with
  | None => (BadRequest ("No framework found with ID " +:+ id), m)
  | Some framework => (OK "", removeFramework framework m)
  end.

(** [Master::Http::_teardown].  [authorizer] is how the authorizer of
    the master, if it has one, answers a request, and [between] what
    the other events of the master do to its state until the
    continuation runs on that answer. *)
Definition _teardown (m : Master)
    (authorizer : option (AuthorizationRequest Subject -> bool))
    (id : FrameworkID) (principal : option Principal)
    (between : Master -> Master) : Response * Master :=
  match getFramework m id with
  | None => (BadRequest "No framework found with specified ID", m)
  | Some framework =>
      match authorizer with
      | None => __teardown m id
      | Some authorized =>
          let teardown :=
            mkAuthorizationRequest
              (createSubject principal)
              match Scheduler.principal (info framework) with
              | Some name => Some (info framework, name)
              | None => None
              end in
          if negb (authorized teardown) then (Forbidden "", between m)
          else __teardown (between m) id
      end
  end.

End Handler.

End Teardown.

(** ** The flags of the master *)

Module Flags.

(** A flag, as [__flags] reads it: its effective name and, if it has
    one, its value as a string. *)
Record Flag : Type := mkFlag {
  effective_name : string;
  stringify : option string
}.

Inductive FlagsError : Type := UNAUTHORIZED.

(** [Master::Http::__flags]: the object under the key [flags], over the
    flags in the order [foreachvalue] visits them. *)
Definition __flags (flags : list Flag) : gmap string string :=
  fold_left
    (fun values flag =>
       match stringify flag with
       | Some value => <[effective_name flag := value]> values
       | None => values
       end)
    flags ∅.

(** [Master::Http::_flags]; [authorizer] is the answer of the
    authorizer of the master, if it has one, to the request to view
    the flags. *)
Definition _flags (authorizer : option bool) (flags : list Flag)
    : gmap string string + FlagsError :=
  match authorizer with
  | None => inl (__flags flags)
  | Some authorized =>
      if authorized then inl (__flags flags) else inr UNAUTHORIZED
  end.

Section Handler.

(** How [OK] renders the object, with the [jsonp] parameter of the
    query, and how the operator API serializes it. *)
Variable render : gmap string string -> option string -> string.
Variable serialize : ContentType -> gmap string string -> string.

(** [Master::Http::flags]. *)
Definition flags (request : Request) (principal : option Principal)
    (authorizer : option bool) (master_flags : list Flag) : Response :=
  if principal_without_value principal then Forbidden principal_message
  else if negb (bool_decide (method request = "GET")) &&
          (if authorizer is Some _ then true else false)
  then MethodNotAllowed ["GET"] (method request)
  else
    let jsonp := snd <$> list_find (fun p => fst p = "jsonp")
                                   (url_query (url request)) in
    match _flags authorizer master_flags with
    | inr UNAUTHORIZED => Forbidden ""
    | inl object => OK (render object (snd <$> jsonp))
    end.

(** [Master::Http::getFlags]. *)
Definition getFlags (contentType : ContentType) (authorizer : option bool)
    (master_flags : list Flag) : Response :=
  match _flags authorizer master_flags with
  | inr UNAUTHORIZED => Forbidden ""
  | inl object => OK (serialize contentType object)
  end.

End Handler.

End Flags.
(** ** Reading the frameworks, the executors and the tasks *)

Module Readers.

Definition FrameworkID := string.

(** [struct Framework], as the read handlers look at it.  The maps
    and sets are lists in the order the [foreach] over them visits
    their entries; [tasks] holds pointers, [None] being a null one. *)
Record Framework (FrameworkInfo ExecutorInfo TaskInfo Task : Type) : Type :=
  mkFramework {
    id : FrameworkID;
    info : FrameworkInfo;
    executors : list (SlaveID * list ExecutorInfo);
    pendingTasks : list TaskInfo;
    tasks : list (option Task);
    unreachableTasks : list Task;
    completedTasks : list Task
  }.

Arguments mkFramework {FrameworkInfo ExecutorInfo TaskInfo Task}.
Arguments id {FrameworkInfo ExecutorInfo TaskInfo Task}.
Arguments info {FrameworkInfo ExecutorInfo TaskInfo Task}.
Arguments executors {FrameworkInfo ExecutorInfo TaskInfo Task}.
Arguments pendingTasks {FrameworkInfo ExecutorInfo TaskInfo Task}.
Arguments tasks {FrameworkInfo ExecutorInfo TaskInfo Task}.
Arguments unreachableTasks {FrameworkInfo ExecutorInfo TaskInfo Task}.
Arguments completedTasks {FrameworkInfo ExecutorInfo TaskInfo Task}.

(** [master->frameworks]: the registered and the completed ones. *)
Record Frameworks (Framework : Type) : Type := mkFrameworks {
  registered : list Framework;
  completed : list Framework
}.

Arguments mkFrameworks {Framework}.
Arguments registered {Framework}.
Arguments completed {Framework}.

(** [Response::GetExecutors::Executor]. *)
Record Executor (ExecutorInfo : Type) : Type := mkExecutor {
  executor_info : ExecutorInfo;
  slave_id : SlaveID
}.

Arguments mkExecutor {ExecutorInfo}.
Arguments executor_info {ExecutorInfo}.
Arguments slave_id {ExecutorInfo}.

(** [Response::GetTasks]. *)
Record GetTasks (Task : Type) : Type := mkGetTasks {
  get_pending_tasks : list Task;
  get_tasks : list Task;
  get_unreachable_tasks : list Task;
  get_completed_tasks : list Task
}.

Arguments mkGetTasks {Task}.
Arguments get_pending_tasks {Task}.
Arguments get_tasks {Task}.
Arguments get_unreachable_tasks {Task}.
Arguments get_completed_tasks {Task}.

(** [TaskState], as far as [_getTasks] names it. *)
Inductive TaskState : Type := TASK_STAGING.

Section Handlers.

Context {FrameworkInfo ExecutorInfo TaskInfo Task : Type}.

Local Abbreviation Framework :=
  (Framework FrameworkInfo ExecutorInfo TaskInfo Task).

(** The approvers: [approved<VIEW_FRAMEWORK>], [approved<VIEW_EXECUTOR>]
    and [approved<VIEW_TASK>], the last on a [TaskInfo] and on a
    [Task]; and [protobuf::createTask]. *)
Variable approved_framework : FrameworkInfo -> bool.
Variable approved_executor : ExecutorInfo -> FrameworkInfo -> bool.
Variable approved_task_info : TaskInfo -> FrameworkInfo -> bool.
Variable approved_task : Task -> FrameworkInfo -> bool.
Variable createTask : TaskInfo -> TaskState -> FrameworkID -> Task.

(** The list both [_getExecutors] and [_getTasks] start with: the
    registered frameworks the principal may view, then the completed
    ones. *)
Definition approved_frameworks (frameworks : Frameworks Framework)
    : list Framework :=
  let visible :=
    fold_left
      (fun frameworks framework =>
         if negb (approved_framework (info framework)) then frameworks
         else frameworks ++ [framework])
      (registered frameworks) [] in
  fold_left
    (fun frameworks framework =>
       if negb (approved_framework (info framework)) then frameworks
       else frameworks ++ [framework])
    (completed frameworks) visible.

(** [Master::Http::_getExecutors]. *)
Definition _getExecutors (frameworks : Frameworks Framework)
    : list (Executor ExecutorInfo) :=
  fold_left
    (fun getExecutors framework =>
       fold_left
         (fun getExecutors entry =>
            let '(slaveId, executorsMap) := entry in
            fold_left
              (fun getExecutors executorInfo =>
                 if negb (approved_executor executorInfo (info framework))
                 then getExecutors
                 else getExecutors ++ [mkExecutor executorInfo slaveId])
              executorsMap getExecutors)
         (executors framework) getExecutors)
    (approved_frameworks frameworks) [].

(** The four loops of [_getTasks] over one framework; [None] when
    [CHECK_NOTNULL] fails. *)
Definition framework_tasks (getTasks : option (GetTasks Task))
    (framework : Framework) : option (GetTasks Task) :=
  match getTasks with
  | None => None
  | Some getTasks =>
      let pending :=
        fold_left
          (fun pending taskInfo =>
             if negb (approved_task_info taskInfo (info framework))
             then pending
             else pending
                  ++ [createTask taskInfo TASK_STAGING (id framework)])
          (pendingTasks framework) (get_pending_tasks getTasks) in
      let active :=
        fold_left
          (fun active task =>
             match active, task with
             | None, _ => None
             | Some _, None => None
             | Some active, Some task =>
                 if negb (approved_task task (info framework))
                 then Some active
                 else Some (active ++ [task])
             end)
          (tasks framework) (Some (get_tasks getTasks)) in
      let unreachable :=
        fold_left
          (fun unreachable task =>
             if negb (approved_task task (info framework)) then unreachable
             else unreachable ++ [task])
          (unreachableTasks framework) (get_unreachable_tasks getTasks) in
      let completed :=
        fold_left
          (fun completed task =>
             if negb (approved_task task (info framework)) then completed
             else completed ++ [task])
          (completedTasks framework) (get_completed_tasks getTasks) in
      match active with
      | None => None
      | Some active => Some (mkGetTasks pending active unreachable completed)
      end
  end.

(** [Master::Http::_getTasks]. *)
Definition _getTasks (frameworks : Frameworks Framework)
    : option (GetTasks Task) :=
  fold_left framework_tasks (approved_frameworks frameworks)
            (Some (mkGetTasks [] [] [] [])).

End Handlers.

End Readers.
(** What the loops of the read handlers amount to: the frameworks,
    the executors and the tasks a principal may view. *)

Module Viewable.

Import Readers.

Section Viewable.

Context {FrameworkInfo ExecutorInfo TaskInfo Task : Type}.

Variable approved_framework : FrameworkInfo -> bool.
Variable approved_executor : ExecutorInfo -> FrameworkInfo -> bool.
Variable approved_task_info : TaskInfo -> FrameworkInfo -> bool.
Variable approved_task : Task -> FrameworkInfo -> bool.
Variable createTask : TaskInfo -> TaskState -> FrameworkID -> Task.

Local Abbreviation Framework :=
  (Readers.Framework FrameworkInfo ExecutorInfo TaskInfo Task).

Implicit Types framework : Framework.
Implicit Types frameworks : Frameworks Framework.

(** The frameworks a principal may view, registered ones first. *)
Definition viewable frameworks : list Framework :=
  List.filter (fun framework => approved_framework (info framework))
              (registered frameworks ++ completed frameworks).

(** The executors of one framework a principal may view, each with
    the agent it runs on. *)
Definition viewable_executors framework : list (Executor ExecutorInfo) :=
  flat_map
    (fun entry =>
       map (fun executorInfo => mkExecutor executorInfo entry.1)
           (List.filter
              (fun executorInfo =>
                 approved_executor executorInfo (info framework))
              entry.2))
    (executors framework).

(** What one framework a principal may view adds to each list of
    [GetTasks]. *)
Definition viewable_pending framework : list Task :=
  map (fun taskInfo => createTask taskInfo TASK_STAGING (id framework))
      (List.filter
         (fun taskInfo => approved_task_info taskInfo (info framework))
         (pendingTasks framework)).

Definition viewable_of framework (tasks : list Task) : list Task :=
  List.filter (fun task => approved_task task (info framework)) tasks.

Definition not_null (task : option Task) : bool :=
  match task with Some _ => true | None => false end.

End Viewable.

End Viewable.
(** ** Further worked instances *)

Module Instances.

Import Examples.

(** Agents named by their id; [machine_1] is [DRAINING] with one agent
    on it, [machine_2] is [UP], and the stored schedule has a window
    for each of them. *)
Definition window_1 : Maintenance.Window :=
  Maintenance.mkWindow [machine_1] (Maintenance.mkUnavailability 100 None).

Definition window_2 : Maintenance.Window :=
  Maintenance.mkWindow [machine_2] (Maintenance.mkUnavailability 200 None).

Definition draining : Maintenance.Master :=
  Maintenance.mkMaster
    {[ machine_1 :=
         Maintenance.mkMachine
           (Maintenance.mkMachineInfo (Some machine_1) Maintenance.DRAINING
              (Some (Maintenance.mkUnavailability 100 None)))
           {[ "agent-1" ]};
       machine_2 := machine_in machine_2 Maintenance.UP ]}
    [Maintenance.mkSchedule [window_1; window_2]] [].

Definition cluster : Machines.Cluster SlaveID :=
  Machines.mkCluster draining {[ "agent-1" := "agent-1" ]}.

(** A stand-in for [Master::removeSlave]: the agent leaves the table of
    registered agents. *)
Definition remove_slave (slave : SlaveID) (message : string)
    (c : Machines.Cluster SlaveID) : Machines.Cluster SlaveID :=
  Machines.mkCluster (Machines.master c) (delete slave (Machines.registered c)).

(** A list of machines has to name a machine. *)
Definition some_machine (ids : list Maintenance.MachineID) : option string :=
  if ids is [] then Some "List of machines is empty" else None.

(** The body of a request to a machine endpoint, reduced to the host
    name of the one machine it lists. *)
Definition parse_machines (body : string)
    : list Maintenance.MachineID + string :=
  if decide (body = "host-1") then inl [machine_1]
  else if decide (body = "host-2") then inl [machine_2]
  else inr "Unknown machine".

Definition machine_request (method body : string) : Request :=
  mkRequest method (mkURL None "/machine" [] None) ∅ BODY false body.

(** [/machine/down] and [/machine/up] on the leading master, for a
    principal approved for every machine and a registrar that applies
    the operation. *)
Definition machine_down (c : Machines.Cluster SlaveID) (body : string)
    : Machines.Ended * Machines.Cluster SlaveID * list SlaveID :=
  Machines.machineDown some_machine Maintenance.hostname remove_slave
    (fun body : string => inl body) parse_machines
    true Aborted c (machine_request "POST" body) (fun _ => true) (Ready true).

Definition machine_up (m : Maintenance.Master) (body : string)
    : Machines.Ended * Maintenance.Master :=
  Machines.machineUp some_machine Maintenance.hostname
    (fun body : string => inl body) parse_machines
    true Aborted m (machine_request "POST" body) (fun _ => true) (Ready true).

(** TEARDOWN carrying the stream id the framework subscribed with. *)
Definition teardown_stream_1 : Request :=
  scheduler_post [("Content-Type", APPLICATION_PROTOBUF);
                  ("Mesos-Stream-Id", "stream-1")]
                 "TEARDOWN".

(** The frameworks of a master by id, one of them registered by the
    principal [ops]; an authorizer that lets a principal tear down the
    frameworks registered under its own name. *)
Definition registered_frameworks
    : gmap Teardown.FrameworkID Scheduler.FrameworkInfo :=
  {[ "framework-1" := Scheduler.mkFrameworkInfo "framework-1" (Some "ops") ]}.

Definition own_frameworks (request : Teardown.AuthorizationRequest Principal)
    : bool :=
  match Teardown.subject request, Teardown.object request with
  | Some subject, Some (_, name) => bool_decide (value subject = Some name)
  | _, _ => false
  end.

Definition ops : Principal := mkPrincipal (Some "ops") [].

(** [_teardown] of [framework-1] on such a master; a framework is
    removed under its id. *)
Definition teardown (principal : option Principal)
    : Response * gmap Teardown.FrameworkID Scheduler.FrameworkInfo :=
  Teardown._teardown
    (fun m id => m !! id)
    (fun framework m => delete (Scheduler.id framework) m)
    (fun framework => framework) (fun principal => principal)
    registered_frameworks (Some own_frameworks) "framework-1" principal
    (fun m => m).

End Instances.

(** * Properties *)

(** ** MARK_AGENT_GONE *)

Section MarkGoneFacts.

Import MarkGone.

Context {Slave : Type}.
Variable markGone : Slave -> TimeInfo -> Master Slave -> Master Slave.

Implicit Types (m : Master Slave) (slaveId : SlaveID) (goneTime : TimeInfo).

Lemma _markAgentGone_unguarded m slaveId goneTime :
  unguarded m slaveId -> known m slaveId ->
  _markAgentGone m slaveId goneTime =
    (Awaiting (MarkSlaveGone slaveId goneTime),
     insert_markingGone slaveId (MarkSlaveGone slaveId goneTime) m).
Proof.
  intros (Hg & Hmg & Hr & Hmu) Hk. unfold _markAgentGone.
  repeat (case_decide; try tauto); try reflexivity.
  destruct Hk as [?|[?|?]]; tauto.
Qed.

Lemma _markAgentGone_awaiting m slaveId goneTime op m' :
  _markAgentGone m slaveId goneTime = (Awaiting op, m') ->
  unguarded m slaveId ∧ known m slaveId.
Proof.
  unfold _markAgentGone, unguarded, known.
  repeat (case_decide; try discriminate); simpl; try discriminate; tauto.
Qed.

Lemma _markAgentGone_now m slaveId goneTime r m' :
  _markAgentGone m slaveId goneTime = (Now r, m') -> m' = m.
Proof.
  unfold _markAgentGone.
  repeat case_decide; simpl; intros E; try discriminate;
    injection E as _ <-; reflexivity.
Qed.

Lemma _markAgentGone_marking m slaveId goneTime :
  slaveId ∉ gone m -> slaveId ∈ markingGone m ->
  _markAgentGone m slaveId goneTime =
    (Now (ServiceUnavailable
            ("Agent '" +:+ slaveId
             +:+ "' is already being transitioned to gone")), m).
Proof.
  intros Hg Hmg. unfold _markAgentGone.
  repeat (case_decide; try tauto); reflexivity.
Qed.

(** C2. An authorized MARK_AGENT_GONE call checks its preconditions in
    this order, each with its own response and none touching the
    master: already gone, 200 OK; being marked gone, 503; being
    removed, 503; being marked unreachable, 503; in none of the
    registered, recovered and unreachable tables, 404.  Only a call
    that passes all of them inserts the agent into [markingGone] and
    submits the transition to the registrar. *)
Theorem markAgentGone_preconditions_in_order m slaveId goneTime :
  let call := markAgentGone true m slaveId goneTime in
  (slaveId ∈ gone m -> call = (Now (OK ""), m)) ∧
  (slaveId ∉ gone m -> slaveId ∈ markingGone m ->
   call = (Now (ServiceUnavailable
                  ("Agent '" +:+ slaveId
                   +:+ "' is already being transitioned to gone")), m)) ∧
  (slaveId ∉ gone m -> slaveId ∉ markingGone m -> slaveId ∈ removing m ->
   call = (Now (ServiceUnavailable
                  ("Agent '" +:+ slaveId
                   +:+ "' is being transitioned to removed")), m)) ∧
  (slaveId ∉ gone m -> slaveId ∉ markingGone m -> slaveId ∉ removing m ->
   slaveId ∈ markingUnreachable m ->
   call = (Now (ServiceUnavailable
                  ("Agent '" +:+ slaveId
                   +:+ "' is being transitioned to unreachable")), m)) ∧
  (unguarded m slaveId -> ¬ known m slaveId ->
   call = (Now (NotFound ("Agent '" +:+ slaveId +:+ "' not found")), m)) ∧
  (unguarded m slaveId -> known m slaveId ->
   call = (Awaiting (MarkSlaveGone slaveId goneTime),
           mkMaster (registered m) (recovered m) (unreachable m) (gone m)
                    ({[slaveId]} ∪ markingGone m) (removing m)
                    (markingUnreachable m)
                    (registrar m ++ [MarkSlaveGone slaveId goneTime]))) ∧
  (snd call ≠ m -> unguarded m slaveId ∧ known m slaveId).
Proof.
  cbn zeta. unfold markAgentGone. cbn [negb].
  repeat apply conj.
  - intros Hg. unfold _markAgentGone. case_decide; [reflexivity | tauto].
  - apply _markAgentGone_marking.
  - intros Hg Hmg Hr. unfold _markAgentGone.
    repeat (case_decide; try tauto); reflexivity.
  - intros Hg Hmg Hr Hmu. unfold _markAgentGone.
    repeat (case_decide; try tauto); reflexivity.
  - intros (Hg & Hmg & Hr & Hmu) Hk. unfold known in Hk.
    unfold _markAgentGone.
    repeat (case_decide; try tauto); reflexivity.
  - intros Hu Hk. rewrite (_markAgentGone_unguarded _ _ _ Hu Hk). reflexivity.
  - intros Hne.
    destruct (_markAgentGone m slaveId goneTime) as [[r|op] m'] eqn:E.
    + apply _markAgentGone_now in E. simpl in Hne. congruence.
    + apply _markAgentGone_awaiting in E. exact E.
Qed.

Lemma markAgentGone_call_marking m slaveId goneTime registrarResult :
  slaveId ∉ gone m -> slaveId ∈ markingGone m ->
  markAgentGone_call markGone true m slaveId goneTime registrarResult =
    (Replied (ServiceUnavailable
                ("Agent '" +:+ slaveId
                 +:+ "' is already being transitioned to gone")), m).
Proof.
  intros Hg Hmg. unfold markAgentGone_call, markAgentGone. cbn [negb].
  rewrite (_markAgentGone_marking _ _ _ Hg Hmg). reflexivity.
Qed.

Lemma markAgentGone_again_marking calls m slaveId :
  slaveId ∉ gone m -> slaveId ∈ markingGone m ->
  Forall (fun o => o = Replied (ServiceUnavailable
                                  ("Agent '" +:+ slaveId
                                   +:+ "' is already being transitioned to gone")))
         (markAgentGone_again markGone calls m slaveId).
Proof.
  intros Hg Hmg. induction calls as [|[goneTime registrarResult] calls IH].
  - constructor.
  - cbn [markAgentGone_again].
    rewrite (markAgentGone_call_marking _ _ _ _ Hg Hmg).
    constructor; [reflexivity | exact IH].
Qed.

(** C9. MARK_AGENT_GONE for an agent that is recovered or unreachable
    but not registered, and that no guard stops, answers 200 OK once
    the registrar's future is ready; the master is left exactly as the
    guard left it: [markGone] has not run and the agent is still in
    [markingGone] (and not in [gone]).  Every later MARK_AGENT_GONE
    for that agent, with nothing else changing these tables in
    between, is answered 503 ServiceUnavailable. *)
Theorem markAgentGone_unregistered_stays_marking
    m slaveId goneTime applied :
  registered m !! slaveId = None ->
  (slaveId ∈ recovered m) ∨ (slaveId ∈ unreachable m) ->
  unguarded m slaveId ->
  let first :=
    markAgentGone_call markGone true m slaveId goneTime (Ready applied) in
  fst first = Replied (OK "") ∧
  snd first =
    insert_markingGone slaveId (MarkSlaveGone slaveId goneTime) m ∧
  (slaveId ∈ markingGone (snd first)) ∧
  (slaveId ∉ gone (snd first)) ∧
  ∀ calls,
    Forall (fun o => o = Replied (ServiceUnavailable
                                    ("Agent '" +:+ slaveId
                                     +:+ "' is already being transitioned to gone")))
           (markAgentGone_again markGone calls (snd first) slaveId).
Proof.
  intros Hreg Hk Hu. cbn zeta.
  assert (E : markAgentGone_call markGone true m slaveId goneTime
                (Ready applied) =
              (Replied (OK ""),
               insert_markingGone slaveId (MarkSlaveGone slaveId goneTime) m)).
  { unfold markAgentGone_call, markAgentGone. cbn [negb].
    rewrite (_markAgentGone_unguarded m slaveId goneTime Hu
               (or_intror Hk)).
    cbn. rewrite Hreg. reflexivity. }
  rewrite E. cbn [fst snd].
  assert (Hin : slaveId ∈ markingGone
                  (insert_markingGone slaveId
                     (MarkSlaveGone slaveId goneTime) m))
    by (cbn; apply elem_of_union_l, elem_of_singleton; reflexivity).
  assert (Hout : slaveId ∉ gone
                   (insert_markingGone slaveId
                      (MarkSlaveGone slaveId goneTime) m))
    by (cbn; apply Hu).
  repeat apply conj; try done.
  intros calls. by apply markAgentGone_again_marking.
Qed.

End MarkGoneFacts.

(** ** The mutating-operation pipeline *)

Section OperationFacts.

Import Operation.

Context {Resource Resources : Type} `{!ResourcesOps Resource Resources}.
Variable Resources_apply :
  Resources -> OfferOperation (Resource := Resource) -> option Resources.

(** The loop of [_operation] follows the rescinding rule, from any
    values of its variables. *)
Lemma rescind_loop_follows_spec operation offers s :
  rescinds_spec Resources_apply operation offers s
    (rescind_loop Resources_apply operation offers
       (required s) (totalRecovered s) (effects s)).
Proof.
  revert s. induction offers as [|offer rest IH]; intros [req tot eff].
  - cbn. constructor.
  - cbn [rescind_loop required totalRecovered effects].
    destruct (Resources_eqb req
                (Resources_sub req
                   (unallocate (Resources_of (resources offer)))))
      eqn:Hskip.
    + apply rescinds_skip; [exact Hskip|]. apply (IH (mkRescinding _ _ _)).
    + destruct (Resources_apply
                  (Resources_add tot
                     (unallocate (Resources_of (resources offer))))
                  operation) as [updated|] eqn:Happly.
      * apply (rescinds_stop Resources_apply operation offer rest
                 (mkRescinding req tot eff)); [exact Hskip|].
        cbn. rewrite Happly. eauto.
      * apply (rescinds_next Resources_apply operation offer rest
                 (mkRescinding req tot eff)); [exact Hskip|exact Happly|].
        apply (IH (rescind_spec offer (mkRescinding req tot eff))).
Qed.

(** The rescinding rule leaves no choice: the offers, the operation
    and the initial variables determine the final ones. *)
Lemma rescinds_spec_deterministic operation offers s s1 s2 :
  rescinds_spec Resources_apply operation offers s s1 ->
  rescinds_spec Resources_apply operation offers s s2 ->
  s1 = s2.
Proof.
  intros H1. revert s2.
  induction H1 as [s|offer rest s s1 Hskip _ IH|offer rest s Hskip Hstop
                  |offer rest s s1 Hskip Hnext _ IH];
    intros s2 H2; inversion H2; subst; try congruence.
  - by apply IH.
  - destruct Hstop as [updated Hstop]. congruence.
  - match goal with H : is_Some _ |- _ => destruct H as [updated H] end.
    congruence.
  - by apply IH.
Qed.

Lemma _operation_follows_spec registered slaveId slave required0 operation
    applied :
  registered !! slaveId = Some slave ->
  ∃ final,
    rescinds_spec Resources_apply operation (offers slave)
      (mkRescinding required0 Resources_empty []) final ∧
    _operation Resources_apply registered slaveId required0 operation applied =
      (match applied with
       | None => Accepted
       | Some failure => Conflict failure
       end,
       effects final ++ [apply slave operation]).
Proof.
  intros Hslave. unfold _operation. rewrite Hslave.
  eexists. split; [|reflexivity].
  apply (rescind_loop_follows_spec operation (offers slave)
           (mkRescinding required0 Resources_empty [])).
Qed.

(** C1. For each of RESERVE, UNRESERVE, CREATE, DESTROY, GROW_VOLUME
    and SHRINK_VOLUME on a registered agent, once validated and
    authorized, the handler visits the agent's outstanding offers by
    the rescinding rule: an offer is skipped exactly when subtracting
    its unallocated resources leaves [required] unchanged; otherwise
    its resources are recovered to the allocator with the default
    (5 second) filter, the offer is removed with a rescind, its
    resources are added to [totalRecovered] and subtracted from
    [required], and the visit stops as soon as
    [totalRecovered.apply(operation)] succeeds.  The rule settles the
    outcome, and it is the handler's; then the operation is applied to
    the agent.  For RESERVE the initial [required] is the requested
    resources with one reservation popped. *)
Theorem operation_rescinds_offers registered slaveId slave operation applied :
  registered !! slaveId = Some slave ->
  ∃ required0 final,
    rescinds_spec Resources_apply operation (offers slave)
      (mkRescinding required0 Resources_empty []) final ∧
    (∀ final',
       rescinds_spec Resources_apply operation (offers slave)
         (mkRescinding required0 Resources_empty []) final' ->
       final' = final) ∧
    authorized_then Resources_apply registered slaveId operation true applied =
      (match applied with
       | None => Accepted
       | Some failure => Conflict failure
       end,
       effects final ++ [apply slave operation]) ∧
    (∀ resources, operation = RESERVE resources ->
       required0 = popReservation (Resources_of resources)) ∧
    refuse_seconds Filters_default = 5.
Proof.
  intros Hslave. unfold authorized_then. cbn [negb].
  destruct operation as [rs|rs|vs|vs|v a|v sub].
  all: match goal with
       | |- context [_operation _ _ _ ?req ?op _] =>
           destruct (_operation_follows_spec registered slaveId slave req op
                       applied Hslave) as (final & Hspec & Hop);
           exists req, final
       end.
  all: repeat apply conj; try assumption; try reflexivity.
  all: try (intros final' Hspec';
            exact (rescinds_spec_deterministic _ _ _ _ _ Hspec' Hspec)).
  all: intros resources Hop'; try discriminate.
  injection Hop' as ->. reflexivity.
Qed.

End OperationFacts.

(** ** The maintenance schedule *)

Section MaintenanceFacts.

Import Maintenance.

Implicit Types (m : Master) (id : MachineID) (md : gmap MachineID Mode).

Lemma mode_machine_at m id :
  mode (info (machine_at m id)) = default UP (modes m !! id).
Proof.
  unfold machine_at, modes. rewrite lookup_fmap.
  destruct (machines m !! id); reflexivity.
Qed.

Lemma modes_updateUnavailability id u m :
  modes (updateUnavailability id u m)
  = <[id := mode (info (machine_at m id))]> (modes m).
Proof. unfold modes, updateUnavailability. cbn. by rewrite fmap_insert. Qed.

Lemma modes_set_mode id mode' m :
  modes (set_mode id mode' m) = <[id := mode']> (modes m).
Proof. unfold modes, set_mode. cbn. by rewrite fmap_insert. Qed.

Lemma modes_set_info id info' m :
  modes (set_info id info' m) = <[id := mode info']> (modes m).
Proof. unfold modes, set_info. cbn. by rewrite fmap_insert. Qed.

Lemma modes_update_existing un m id :
  modes (update_existing un m id) = restore un (modes m) id.
Proof.
  unfold update_existing, restore. destruct (un !! id) as [u|].
  - case_decide as Hup; [reflexivity|].
    rewrite modes_updateUnavailability. apply insert_id.
    rewrite mode_machine_at in Hup |- *.
    destruct (modes m !! id); [reflexivity | contradiction].
  - rewrite modes_updateUnavailability, mode_machine_at, modes_set_mode.
    rewrite lookup_insert_eq. cbn [default]. apply insert_insert_eq.
Qed.

Lemma modes_first_loop un l m :
  modes (fold_left (update_existing un) l m)
  = fold_left (restore un) l (modes m).
Proof.
  revert m. induction l as [|id l IH]; intros m; [reflexivity|].
  cbn. rewrite IH, modes_update_existing. reflexivity.
Qed.

Lemma lookup_restore_loop un l md id :
  fold_left (restore un) l md !! id
  = if decide (id ∈ l ∧ un !! id = None) then Some UP else md !! id.
Proof.
  revert md. induction l as [|x l IH]; intros md; cbn.
  - case_decide as H; [|reflexivity]. destruct H as [H _].
    by apply not_elem_of_nil in H.
  - rewrite IH.
    assert (Hstep : restore un md x !! id
                    = if decide (x = id ∧ un !! id = None) then Some UP
                      else md !! id).
    { unfold restore. destruct (decide (x = id)) as [->|Hne].
      - destruct (un !! id) eqn:Hun.
        + rewrite decide_False by (intros [_ ?]; discriminate). reflexivity.
        + rewrite decide_True by done. apply lookup_insert_eq.
      - rewrite decide_False by (intros [? _]; done).
        destruct (un !! x); [reflexivity|]. by rewrite lookup_insert_ne. }
    rewrite Hstep.
    destruct (decide (id ∈ l ∧ un !! id = None)) as [[Hin Hn]|Hno].
    + rewrite decide_True; [reflexivity|].
      split; [|done]. apply elem_of_cons. by right.
    + destruct (decide (x = id ∧ un !! id = None)) as [[-> Hn]|Hno'].
      * rewrite decide_True; [reflexivity|].
        split; [|done]. apply elem_of_cons. by left.
      * rewrite decide_False; [reflexivity|].
        intros [Hin Hn]. apply elem_of_cons in Hin as [->|Hin];
          [apply Hno'|apply Hno]; done.
Qed.

Lemma modes_save_new window m id :
  modes (save_new window m id) = drain (modes m) id.
Proof.
  unfold save_new, drain.
  assert (Hsome : is_Some (machines m !! id) ↔ is_Some (modes m !! id)).
  { unfold modes. rewrite lookup_fmap. by rewrite fmap_is_Some. }
  pose proof (mode_machine_at m id) as Hmode.
  destruct (modes m !! id) as [[]|] eqn:Hmd; cbn in Hmode.
  - rewrite bool_decide_eq_true_2 by (apply Hsome; eauto).
    rewrite (bool_decide_eq_true_2 _ Hmode). cbn [andb negb].
    rewrite modes_updateUnavailability, mode_machine_at, modes_set_info.
    rewrite lookup_insert_eq. cbn [default mode]. apply insert_insert_eq.
  - rewrite bool_decide_eq_true_2 by (apply Hsome; eauto).
    rewrite bool_decide_eq_false_2 by (rewrite Hmode; discriminate).
    reflexivity.
  - rewrite bool_decide_eq_true_2 by (apply Hsome; eauto).
    rewrite bool_decide_eq_false_2 by (rewrite Hmode; discriminate).
    reflexivity.
  - rewrite bool_decide_eq_false_2
      by (intros H; apply Hsome in H; destruct H; discriminate).
    cbn [andb negb].
    rewrite modes_updateUnavailability, mode_machine_at, modes_set_info.
    rewrite lookup_insert_eq. cbn [default mode]. apply insert_insert_eq.
Qed.

Lemma modes_second_loop ws m :
  modes (fold_left (fun m window =>
                      fold_left (save_new window) (machine_ids window) m)
                   ws m)
  = fold_left drain (concat (map machine_ids ws)) (modes m).
Proof.
  revert m. induction ws as [|w ws IH]; intros m; [reflexivity|].
  cbn. rewrite IH, fold_left_app. f_equal.
  generalize (machine_ids w) as ids. clear. intros ids. revert m.
  induction ids as [|id ids IH]; intros m; [reflexivity|].
  cbn. rewrite IH, modes_save_new. reflexivity.
Qed.

Lemma lookup_drain_loop l md id :
  fold_left drain l md !! id
  = if decide (id ∈ l)
    then Some (match md !! id with
               | Some UP | None => DRAINING
               | Some mode => mode
               end)
    else md !! id.
Proof.
  revert md. induction l as [|x l IH]; intros md; cbn.
  - case_decide as H; [by apply not_elem_of_nil in H | reflexivity].
  - rewrite IH. destruct (decide (x = id)) as [->|Hne].
    + rewrite (decide_True (P := id ∈ id :: l))
        by (apply elem_of_cons; by left).
      unfold drain.
      destruct (md !! id) as [[]|] eqn:Hmd;
        rewrite ?lookup_insert_eq, ?Hmd; case_decide; reflexivity.
    + assert (Hdrain : drain md x !! id = md !! id).
      { unfold drain. destruct (md !! x) as [[]|];
          rewrite ?lookup_insert_ne by done; reflexivity. }
      rewrite Hdrain.
      destruct (decide (id ∈ l)) as [Hin|Hout].
      * rewrite decide_True by (apply elem_of_cons; by right). reflexivity.
      * rewrite decide_False; [reflexivity|].
        intros Hin. apply elem_of_cons in Hin as [->|Hin]; done.
Qed.

Lemma collect_unavailabilities_named_from ws
    (acc : gmap MachineID Unavailability) id :
  is_Some (fold_left
             (fun acc window =>
                fold_left
                  (fun acc id => <[id := window_unavailability window]> acc)
                  (machine_ids window) acc)
             ws acc !! id)
  ↔ id ∈ concat (map machine_ids ws) ∨ is_Some (acc !! id).
Proof.
  revert acc. induction ws as [|w ws IH]; intros acc; cbn.
  - rewrite elem_of_nil. tauto.
  - rewrite IH, elem_of_app.
    assert (Hinner : ∀ ids (acc : gmap MachineID Unavailability),
              is_Some (fold_left
                         (fun acc id => <[id := window_unavailability w]> acc)
                         ids acc !! id)
              ↔ id ∈ ids ∨ is_Some (acc !! id)).
    { clear. induction ids as [|x ids IH]; intros acc; cbn.
      - rewrite elem_of_nil. tauto.
      - rewrite IH, elem_of_cons.
        destruct (decide (x = id)) as [->|Hne].
        + rewrite lookup_insert_eq.
          split; intros _; [left; by left | right; eauto].
        + rewrite lookup_insert_ne by done.
          split; [intros [?|?]; [left; by right | by right]|].
          intros [[->|?]|?]; [done | by left | by right]. }
    rewrite Hinner. tauto.
Qed.

Lemma collect_unavailabilities_named schedule id :
  is_Some (collect_unavailabilities schedule !! id) ↔ id ∈ named schedule.
Proof.
  unfold collect_unavailabilities, named.
  rewrite collect_unavailabilities_named_from, lookup_empty.
  split; [intros [H|H]; [exact H | by destruct H] | tauto].
Qed.

(** The mode of a machine after [___updateMaintenanceSchedule]. *)
Lemma ___updateMaintenanceSchedule_mode m schedule response m' id :
  ___updateMaintenanceSchedule m schedule true = Some (response, m') ->
  response = OK "" ∧
  modes m' !! id =
    if decide (id ∈ named schedule)
    then Some (match modes m !! id with
               | Some DOWN => DOWN
               | _ => DRAINING
               end)
    else match modes m !! id with
         | Some _ => Some UP
         | None => None
         end.
Proof.
  unfold ___updateMaintenanceSchedule. cbn [negb]. intros E.
  injection E as <- <-. split; [reflexivity|].
  change (modes (mkMaster ?ms _ _)) with ((fun machine => mode (info machine)) <$> ms).
  match goal with
  | |- context [machines ?m2] =>
      change ((fun machine => mode (info machine)) <$> machines m2)
        with (modes m2)
  end.
  rewrite modes_second_loop, lookup_drain_loop, modes_first_loop,
    lookup_restore_loop.
  fold (named schedule).
  assert (Hkeys : id ∈ map fst (map_to_list (machines m))
                  ↔ is_Some (modes m !! id)).
  { unfold modes. rewrite lookup_fmap, fmap_is_Some.
    rewrite list_elem_of_In, in_map_iff. split.
    - intros ([k v] & <- & Hin).
      apply list_elem_of_In, elem_of_map_to_list in Hin. eauto.
    - intros [v Hv]. exists (id, v). split; [reflexivity|].
      by apply list_elem_of_In, elem_of_map_to_list. }
  pose proof (collect_unavailabilities_named schedule id) as Hnamed.
  destruct (decide (id ∈ named schedule)) as [Hin|Hout].
  - apply Hnamed in Hin. destruct Hin as [u Hu].
    rewrite decide_False by (intros [_ ?]; congruence).
    destruct (modes m !! id) as [[]|]; reflexivity.
  - assert (Hnone : collect_unavailabilities schedule !! id = None).
    { destruct (collect_unavailabilities schedule !! id) eqn:E; [|done].
      exfalso. apply Hout, Hnamed. eauto. }
    destruct (modes m !! id) as [md|] eqn:Hmd.
    + rewrite decide_True; [reflexivity|].
      split; [|exact Hnone]. apply Hkeys. eauto.
    + rewrite decide_False; [reflexivity|].
      intros [Hin _]. apply Hkeys in Hin.
      destruct Hin; discriminate.
Qed.

Lemma modes_lookup_Some m id mode' :
  modes m !! id = Some mode' ↔
  ∃ machine, machines m !! id = Some machine ∧ mode (info machine) = mode'.
Proof.
  unfold modes. rewrite lookup_fmap, fmap_Some. split.
  - intros (machine & H1 & H2). eauto.
  - intros (machine & H1 & H2). eauto.
Qed.

Section Turns.

Variable validation_schedule :
  Schedule -> gmap MachineID Machine -> option string.

(** C3, amended. An UPDATE_MAINTENANCE_SCHEDULE request takes three
    turns of the master, and other events may change the machines in
    between.  When it is accepted (200 OK), the validation had passed
    on the machines of the first turn, every machine of the schedule
    was approved and the registrar had applied the operation; and with
    [m2] the master as the continuation found it, afterwards a machine
    the schedule names is [DRAINING], or still [DOWN] if it was [DOWN]
    in [m2], and a machine the schedule omits is [UP] if [m2] knew it
    and unknown otherwise.  So when no machine the schedule names is
    [DOWN] in [m2], every machine [m2] knew is [UP] or [DRAINING]
    afterwards, [DRAINING] if named and [UP] if omitted, and every
    named machine is known and [DRAINING].  A schedule the validation
    rejects is answered BadRequest with the master as it was; one with
    a machine that is not approved is answered Forbidden, with the
    master as the other events left it. *)
Theorem updateMaintenanceSchedule_modes m schedule approved registrarResult
    between1 between2 :
  let result :=
    updateMaintenanceSchedule validation_schedule m schedule approved
                              registrarResult between1 between2 in
  (∀ response m',
     result = (Replied response, m') -> status response = 200 ->
     ∃ submitted,
       validation_schedule schedule (machines m) = None ∧
       __updateMaintenanceSchedule (between1 m) schedule approved
       = inr submitted ∧
       (∀ id, id ∈ named schedule -> approved id = true) ∧
       registrarResult = Ready true ∧
       let m2 := between2 submitted in
       (∀ id,
          modes m' !! id =
            if decide (id ∈ named schedule)
            then Some (match modes m2 !! id with
                       | Some DOWN => DOWN
                       | _ => DRAINING
                       end)
            else match modes m2 !! id with
                 | Some _ => Some UP
                 | None => None
                 end) ∧
       ((∀ id, id ∈ named schedule -> modes m2 !! id ≠ Some DOWN) ->
        (∀ id machine,
           machines m2 !! id = Some machine ->
           ∃ machine',
             machines m' !! id = Some machine' ∧
             (mode (info machine') = UP ∨ mode (info machine') = DRAINING) ∧
             (id ∈ named schedule -> mode (info machine') = DRAINING) ∧
             (id ∉ named schedule -> mode (info machine') = UP)) ∧
        (∀ id,
           id ∈ named schedule ->
           ∃ machine',
             machines m' !! id = Some machine' ∧
             mode (info machine') = DRAINING))) ∧
  (∀ error,
     validation_schedule schedule (machines m) = Some error ->
     result = (Replied (BadRequest error), m)) ∧
  (validation_schedule schedule (machines m) = None ->
   (∃ id, id ∈ named schedule ∧ approved id = false) ->
   result = (Replied (Forbidden ""), between1 m)).
Proof.
  cbn zeta. unfold updateMaintenanceSchedule, _updateMaintenanceSchedule.
  repeat apply conj.
  - intros response m' Hresult Hstatus.
    destruct (validation_schedule schedule (machines m))
      as [error|] eqn:Hvalid.
    { injection Hresult as <- <-. discriminate. }
    destruct (__updateMaintenanceSchedule (between1 m) schedule approved)
      as [forbidden|submitted] eqn:Hsubmitted.
    { unfold __updateMaintenanceSchedule in Hsubmitted.
      destruct (forallb approved (named schedule)); [discriminate|].
      injection Hsubmitted as <-. injection Hresult as <- <-. discriminate. }
    destruct registrarResult as [[]| |]; try discriminate.
    destruct (___updateMaintenanceSchedule _ schedule true)
      as [[response' m'']|] eqn:Hupdate; [|discriminate].
    injection Hresult as <- <-.
    exists submitted. repeat apply conj; try reflexivity.
    + intros id Hin. unfold __updateMaintenanceSchedule in Hsubmitted.
      destruct (forallb approved (named schedule)) eqn:Hall; [|discriminate].
      rewrite forallb_forall in Hall. by apply Hall, list_elem_of_In.
    + intros id.
      apply (___updateMaintenanceSchedule_mode _ _ _ _ id) in Hupdate.
      exact (proj2 Hupdate).
    + intros Hnodown. split.
      * intros id machine Hm.
        pose proof (___updateMaintenanceSchedule_mode _ _ _ _ id Hupdate)
          as [_ Hmode].
        assert (Hmd : modes (between2 submitted) !! id
                      = Some (mode (info machine)))
          by (apply modes_lookup_Some; eauto).
        specialize (Hnodown id). rewrite Hmd in Hmode, Hnodown.
        destruct (decide (id ∈ named schedule)) as [Hin|Hout].
        -- apply modes_lookup_Some in Hmode as (machine' & Hm' & Hmode').
           exists machine'. split; [exact Hm'|].
           destruct (mode (info machine)); try (by destruct (Hnodown Hin));
             rewrite Hmode'; repeat split; auto; intros; contradiction.
        -- apply modes_lookup_Some in Hmode as (machine' & Hm' & Hmode').
           exists machine'. split; [exact Hm'|].
           rewrite Hmode'. repeat split; auto; intros; contradiction.
      * intros id Hin.
        pose proof (___updateMaintenanceSchedule_mode _ _ _ _ id Hupdate)
          as [_ Hmode].
        specialize (Hnodown id Hin).
        rewrite decide_True in Hmode by exact Hin.
        apply modes_lookup_Some in Hmode as (machine' & Hm' & Hmode').
        exists machine'. split; [exact Hm'|]. rewrite Hmode'.
        destruct (modes (between2 submitted) !! id) as [[]|];
          try reflexivity. by destruct Hnodown.
  - intros error ->. reflexivity.
  - intros -> (id & Hin & Hdenied). unfold __updateMaintenanceSchedule.
    assert (Hall : forallb approved (named schedule) = false).
    { destruct (forallb approved (named schedule)) eqn:Hall; [|reflexivity].
      rewrite forallb_forall in Hall.
      rewrite (Hall id) in Hdenied by (by apply list_elem_of_In).
      discriminate. }
    by rewrite Hall.
Qed.

End Turns.

End MaintenanceFacts.

(** C3, as stated, fails: a schedule that names the draining
    [machine_2] passes the validation and is handed to the registrar;
    [machine_2] is brought down before the registrar has answered;
    the update is then accepted, and leaves [machine_2] [DOWN]. *)
Lemma updateMaintenanceSchedule_accepted_with_machine_down :
  let result := Examples.update_schedule_during_start Examples.maintained
                  Examples.draining_schedule in
  Maintenance.modes Examples.maintained !! Examples.machine_2
  = Some Maintenance.DRAINING ∧
  Examples.machine_2 ∈ Maintenance.named Examples.draining_schedule ∧
  Maintenance.validation_of_modes Examples.draining_schedule
    (Maintenance.machines Examples.maintained) = None ∧
  fst result = Replied (OK "") ∧
  status (OK "") = 200 ∧
  Maintenance.modes (snd result) !! Examples.machine_2
  = Some Maintenance.DOWN ∧
  Maintenance.modes (snd result) !! Examples.machine_2
  ≠ Some Maintenance.UP ∧
  Maintenance.modes (snd result) !! Examples.machine_2
  ≠ Some Maintenance.DRAINING.
Proof.
  cbn zeta. repeat apply conj;
    try (vm_compute; reflexivity); try (vm_compute; discriminate).
  apply list_elem_of_In. left. reflexivity.
Qed.

(** ** The operator API *)

Section ApiFacts.

Import Api.

Context {Call : Type}.
Variable accepts : string -> string -> bool.
Variable call_type : Call -> CallType.
Variable stringify_CallType : CallType -> string.
Variable deserialize : ContentType -> string -> Call + string.
Variable validate : Call -> option string.
Variable first_record : string -> Result string.
Variable handle : Call -> option Principal -> ContentType -> Response.

Local Abbreviation _api := (_api call_type stringify_CallType handle).
Local Abbreviation api :=
  (api accepts call_type stringify_CallType deserialize validate first_record
       handle).

(** A SUBSCRIBE call passes both media type checks of [_api]. *)
Lemma _api_subscribe call mediaTypes principal :
  call_type call = SUBSCRIBE ->
  _api call mediaTypes principal
  = match subscribe call mediaTypes with
    | Some (response, _) => Replied response
    | None => Aborted
    end.
Proof.
  intros Hsub. unfold Api._api. rewrite Hsub.
  rewrite bool_decide_eq_true_2 by reflexivity.
  rewrite !andb_false_r. reflexivity.
Qed.

(** C5, amended. In [_api], a call that is not SUBSCRIBE is answered
    415 UnsupportedMediaType when the negotiated Content-Type is the
    streaming media, and 406 NotAcceptable when the negotiated Accept
    is the streaming media and the Content-Type is not; a SUBSCRIBE
    call meets neither rejection and goes to [subscribe]. *)
Theorem _api_streaming_only_for_subscribe call mediaTypes principal :
  (streamingMediaType (content mediaTypes) = true ->
   call_type call ≠ SUBSCRIBE ->
   ∃ body, _api call mediaTypes principal
           = Replied (UnsupportedMediaType body)) ∧
  (streamingMediaType (content mediaTypes) = false ->
   streamingMediaType (accept mediaTypes) = true ->
   call_type call ≠ SUBSCRIBE ->
   ∃ body, _api call mediaTypes principal = Replied (NotAcceptable body)) ∧
  (call_type call = SUBSCRIBE ->
   _api call mediaTypes principal
   = match subscribe call mediaTypes with
     | Some (response, _) => Replied response
     | None => Aborted
     end).
Proof.
  unfold Api._api. repeat apply conj.
  - intros -> Hne. rewrite (bool_decide_eq_false_2 _ Hne). cbn. eauto.
  - intros -> -> Hne. rewrite (bool_decide_eq_false_2 _ Hne). cbn. eauto.
  - apply _api_subscribe.
Qed.

(** What [api] answers once its gates are passed and the media types
    cannot be settled. *)
Lemma api_negotiate_fails master redirected request principal response :
  principal_without_value principal = false ->
  elected master = true -> recovered master = Some true ->
  method request = "POST" ->
  negotiate accepts request = inl response ->
  api master redirected request principal = Replied response.
Proof.
  intros Hp He Hr Hm Hn. unfold Api.api.
  rewrite Hp, He, Hr. cbn [negb].
  rewrite (bool_decide_eq_true_2 _ Hm). cbn [negb]. rewrite Hn. reflexivity.
Qed.

Lemma negotiate_content_streaming request :
  headers request !! "Content-Type" = Some APPLICATION_RECORDIO ->
  negotiate_content request
  = match headers request !! MESSAGE_CONTENT_TYPE with
    | None =>
        inl (BadRequest
               ("Expecting '" +:+ MESSAGE_CONTENT_TYPE +:+ "' to be"
                +:+ " set for streaming requests"))
    | Some v =>
        if decide (v = APPLICATION_JSON) then inr (RECORDIO, Some JSON)
        else if decide (v = APPLICATION_PROTOBUF)
        then inr (RECORDIO, Some PROTOBUF)
        else
          inl (UnsupportedMediaType
                 ("Expecting '" +:+ MESSAGE_CONTENT_TYPE +:+ "' of "
                  +:+ APPLICATION_JSON +:+ " or " +:+ APPLICATION_PROTOBUF))
    end.
Proof. intros Hct. unfold negotiate_content. rewrite Hct. reflexivity. Qed.

(** C7. On [/api/v1], for a request that has reached content
    negotiation (principal with a value, leading and recovered master,
    POST): with the streaming Content-Type, a missing
    Message-Content-Type is answered 400 BadRequest, one that is
    neither JSON nor protobuf 415 UnsupportedMediaType, and one that is
    JSON or protobuf is taken as the encoding of the records; with a
    JSON or protobuf Content-Type, a Message-Content-Type header is
    answered 415 UnsupportedMediaType. *)
Theorem api_message_content_type master redirected request principal :
  principal_without_value principal = false ->
  elected master = true -> recovered master = Some true ->
  method request = "POST" ->
  let answer := api master redirected request principal in
  (headers request !! "Content-Type" = Some APPLICATION_RECORDIO ->
   (headers request !! MESSAGE_CONTENT_TYPE = None ->
    ∃ body, answer = Replied (BadRequest body)) ∧
   (∀ named,
      headers request !! MESSAGE_CONTENT_TYPE = Some named ->
      named ≠ APPLICATION_JSON -> named ≠ APPLICATION_PROTOBUF ->
      ∃ body, answer = Replied (UnsupportedMediaType body)) ∧
   (headers request !! MESSAGE_CONTENT_TYPE = Some APPLICATION_JSON ->
    negotiate_content request = inr (RECORDIO, Some JSON)) ∧
   (headers request !! MESSAGE_CONTENT_TYPE = Some APPLICATION_PROTOBUF ->
    negotiate_content request = inr (RECORDIO, Some PROTOBUF))) ∧
  (headers request !! "Content-Type" = Some APPLICATION_JSON ∨
   headers request !! "Content-Type" = Some APPLICATION_PROTOBUF ->
   is_Some (headers request !! MESSAGE_CONTENT_TYPE) ->
   ∃ body, answer = Replied (UnsupportedMediaType body)).
Proof.
  intros Hp He Hr Hm. cbn zeta.
  pose proof (api_negotiate_fails master redirected request principal)
    as Hfail.
  split.
  - intros Hct. apply negotiate_content_streaming in Hct.
    repeat apply conj.
    + intros Hmct. eexists. apply Hfail; try assumption.
      unfold negotiate. rewrite Hct, Hmct. reflexivity.
    + intros named Hmct Hj Hpb. eexists. apply Hfail; try assumption.
      unfold negotiate. rewrite Hct, Hmct.
      rewrite !decide_False by assumption. reflexivity.
    + intros Hmct. rewrite Hct, Hmct. reflexivity.
    + intros Hmct. rewrite Hct, Hmct. reflexivity.
  - intros Hct [named Hmct]. eexists. apply Hfail; try assumption.
    unfold negotiate, negotiate_content.
    destruct Hct as [Hct|Hct]; rewrite Hct, Hmct; reflexivity.
Qed.

(** C10. On [/api/v1], when the Accept header settles on the streaming
    media and there is no Message-Accept header, the accept part of
    the negotiation does not reject the request: the message accept
    type is JSON.  With the content part settled too, the media types
    of the request carry it; and a SUBSCRIBE call received that way on
    a leading, recovered master is answered 200 OK with a stream whose
    records are JSON. *)
Theorem api_message_accept_defaults_to_json request :
  acceptsMediaType accepts request "Accept" APPLICATION_JSON = false ->
  acceptsMediaType accepts request "Accept" APPLICATION_PROTOBUF = false ->
  acceptsMediaType accepts request "Accept" APPLICATION_RECORDIO = true ->
  headers request !! MESSAGE_ACCEPT = None ->
  acceptsMediaType accepts request MESSAGE_ACCEPT APPLICATION_JSON = true ∧
  negotiate_accept accepts request = inr (RECORDIO, Some JSON) ∧
  (∀ contentType messageContentType,
     negotiate_content request = inr (contentType, messageContentType) ->
     let mediaTypes :=
       mkRequestMediaTypes contentType RECORDIO messageContentType
                           (Some JSON) in
     negotiate accepts request = inr mediaTypes ∧
     ∀ master redirected principal call,
       principal_without_value principal = false ->
       elected master = true -> recovered master = Some true ->
       method request = "POST" ->
       type request = PIPE -> has_reader request = true ->
       receive deserialize validate first_record request mediaTypes
       = inr call ->
       call_type call = SUBSCRIBE ->
       subscribe call mediaTypes
       = Some (OKPipe [("Content-Type", APPLICATION_JSON)],
               mkHttpConnection JSON) ∧
       api master redirected request principal
       = Replied (OKPipe [("Content-Type", APPLICATION_JSON)])).
Proof.
  intros Hj Hp Hr Hma.
  assert (Hdefault : acceptsMediaType accepts request MESSAGE_ACCEPT
                       APPLICATION_JSON = true)
    by (unfold acceptsMediaType; rewrite Hma; reflexivity).
  assert (Haccept : negotiate_accept accepts request
                    = inr (RECORDIO, Some JSON)).
  { unfold negotiate_accept. rewrite Hj, Hp, Hr. cbn.
    rewrite Hdefault. reflexivity. }
  repeat apply conj; try assumption.
  intros contentType messageContentType Hcontent. cbn zeta.
  assert (Hnegotiate :
    negotiate accepts request
    = inr (mkRequestMediaTypes contentType RECORDIO messageContentType
             (Some JSON)))
    by (unfold negotiate; rewrite Hcontent, Haccept; reflexivity).
  split; [exact Hnegotiate|].
  intros master redirected principal call Hpr He Hrec Hm Hpipe Hreader
    Hreceive Hsub.
  split; [reflexivity|].
  unfold Api.api. rewrite Hpr, He, Hrec. cbn [negb].
  rewrite (bool_decide_eq_true_2 _ Hm). cbn [negb].
  rewrite Hnegotiate, (bool_decide_eq_true_2 _ Hpipe), Hreader. cbn [negb orb].
  rewrite Hreceive, (_api_subscribe _ _ _ Hsub). reflexivity.
Qed.

End ApiFacts.

(** C5, as stated, fails: GET_HEALTH sent as a record stream and asking
    for a record stream has the streaming media as both negotiated
    types, and is answered 415, not 406. *)
Lemma api_streaming_accept_answered_415 :
  let mediaTypes :=
    Api.mkRequestMediaTypes RECORDIO RECORDIO (Some JSON) (Some JSON) in
  let response :=
    UnsupportedMediaType
      "Streaming 'Content-Type' application/recordio is not supported for GET_HEALTH call" in
  Api.negotiate accepts_exactly Examples.streaming_get_health
  = inr mediaTypes ∧
  streamingMediaType (Api.accept mediaTypes) = true ∧
  Api.GET_HEALTH ≠ Api.SUBSCRIBE ∧
  Examples.run_api Examples.leading Aborted Examples.streaming_get_health None
  = Replied response ∧
  status response = 415 ∧
  status response ≠ 406.
Proof. repeat apply conj; try discriminate; vm_compute; reflexivity. Qed.

(** ** The scheduler API *)

Section SchedulerFacts.

Import Scheduler.

Context {JSONValue : Type}.
Variable accepts : string -> string -> bool.
Variable ParseFromString : string -> option Call.
Variable JSON_parse : string -> JSONValue + string.
Variable protobuf_parse : JSONValue -> Call + string.
Variable reconcileOperations : Framework -> Call -> ContentType -> Response.

Local Abbreviation decode := (decode ParseFromString JSON_parse protobuf_parse).
Local Abbreviation scheduler :=
  (scheduler accepts ParseFromString JSON_parse protobuf_parse
             reconcileOperations).

(** A call of a subscribed, HTTP-connected framework is served only
    with the registered stream id. *)
Lemma serve_stream_id frameworks request principal call acceptType
    framework registered :
  frameworks !! call_framework_id call = Some framework ->
  connected framework = true ->
  http framework = Some registered ->
  headers request !! "Mesos-Stream-Id" ≠ Some registered ->
  ∃ body,
    serve reconcileOperations frameworks request principal call acceptType
    = Replied (BadRequest body).
Proof.
  intros Hf Hc Hh Hheader. unfold serve. rewrite Hf, Hc, Hh. cbn [negb].
  destruct (match principal with
            | Some p => principal_differs p (info_principal framework)
            | None => false
            end); [eauto|].
  destruct (headers request !! "Mesos-Stream-Id") as [given|]; [|eauto].
  rewrite bool_decide_eq_false_2 by congruence. cbn [negb]. eauto.
Qed.

(** C4, amended. On the scheduler endpoint, take a request that
    reaches the handler's stream id checks: the principal has a value,
    the master leads and has recovered, the method is POST, the body
    decodes to a valid call and, for SUBSCRIBE and
    RECONCILE_OPERATIONS, the Accept header allows JSON or protobuf.
    If the call is SUBSCRIBE and the request carries a Mesos-Stream-Id
    header, the answer is 400 BadRequest.  If the call is not
    SUBSCRIBE and comes from a subscribed, HTTP-connected framework,
    the answer is 400 BadRequest unless the request carries a
    Mesos-Stream-Id header equal to the framework's registered stream
    id. *)
Theorem scheduler_stream_id master frameworks redirected streamId request
    principal contentType call :
  principal_without_value principal = false ->
  elected master = true -> recovered master = Some true ->
  method request = "POST" ->
  headers request !! "Content-Type" = Some contentType ->
  decode contentType (body request) = inr call ->
  validate call principal = None ->
  (call_type call = SUBSCRIBE ∨ call_type call = RECONCILE_OPERATIONS ->
   acceptable accepts request) ->
  let answer :=
    scheduler master frameworks redirected streamId request principal in
  (call_type call = SUBSCRIBE ->
   is_Some (headers request !! "Mesos-Stream-Id") ->
   answer = Replied (BadRequest
     "Subscribe calls should not include the 'Mesos-Stream-Id' header")) ∧
  (call_type call ≠ SUBSCRIBE ->
   ∀ framework registered,
     frameworks !! call_framework_id call = Some framework ->
     connected framework = true ->
     http framework = Some registered ->
     headers request !! "Mesos-Stream-Id" ≠ Some registered ->
     ∃ body, answer = Replied (BadRequest body)).
Proof.
  intros Hp He Hr Hm Hct Hdecode Hvalid Haccept. cbn zeta.
  unfold Scheduler.scheduler.
  rewrite Hp, He, Hr. cbn [negb].
  rewrite (bool_decide_eq_true_2 _ Hm). cbn [negb].
  rewrite Hct, Hdecode, Hvalid.
  split.
  - intros Hsub Hheader.
    rewrite !(bool_decide_eq_true_2 _ Hsub). cbn [orb].
    destruct (Haccept (or_introl Hsub)) as [Ha|Ha]; rewrite Ha.
    + rewrite (bool_decide_eq_true_2 _ Hheader). reflexivity.
    + destruct (acceptsMediaType accepts request "Accept" APPLICATION_JSON);
        rewrite (bool_decide_eq_true_2 _ Hheader); reflexivity.
  - intros Hsub framework registered Hf Hc Hh Hheader.
    rewrite !(bool_decide_eq_false_2 _ Hsub). cbn [orb].
    pose proof (fun acceptType =>
                  serve_stream_id frameworks request principal call acceptType
                    framework registered Hf Hc Hh Hheader) as Hserve.
    destruct (bool_decide (call_type call = RECONCILE_OPERATIONS)) eqn:Hrec.
    + apply bool_decide_eq_true_1 in Hrec.
      destruct (Haccept (or_intror Hrec)) as [Ha|Ha]; rewrite Ha.
      * apply Hserve.
      * destruct (acceptsMediaType accepts request "Accept" APPLICATION_JSON);
          apply Hserve.
    + apply Hserve.
Qed.

End SchedulerFacts.

(** C4, as stated, fails: a SUBSCRIBE request that carries a
    Mesos-Stream-Id header and accepts only text/plain is answered
    406 NotAcceptable, not 400. *)
Lemma scheduler_subscribe_answered_406 :
  let request := Examples.subscribe_text_plain in
  let response :=
    NotAcceptable
      "Expecting 'Accept' to allow 'application/x-protobuf' or 'application/json'" in
  Examples.parse_call (body request)
  = Some (Examples.scheduler_call Scheduler.SUBSCRIBE) ∧
  headers request !! "Mesos-Stream-Id" = Some "stream-1" ∧
  Examples.run_scheduler request = Replied response ∧
  status response = 406 ∧
  status response ≠ 400.
Proof. repeat apply conj; try discriminate; vm_compute; reflexivity. Qed.

(** ** Redirecting to the leader *)

Section RedirectFacts.

Import Redirect.

Variable getHostname : Z -> string + string.
Variable stringify_URL : URL -> string.
Variable stringify_port : Z -> string.

Local Abbreviation redirect :=
  (redirect getHostname stringify_URL stringify_port).

(** [startsWith s prefix] holds exactly when [s] is [prefix] followed
    by some suffix. *)
Lemma startsWith_suffix s prefix :
  startsWith s prefix = true ↔ ∃ suffix, s = prefix +:+ suffix.
Proof.
  unfold startsWith. rewrite prefix_correct. revert s.
  induction prefix as [|a prefix IH]; intros s.
  - split; [intros _; by exists s | intros _; by destruct s].
  - destruct s as [|b s]; cbn.
    + split; [discriminate | intros [suffix H]; discriminate].
    + split.
      * intros H. injection H as -> H. apply IH in H as [suffix ->].
        by exists suffix.
      * intros [suffix H]. injection H as -> H. f_equal.
        apply IH. by exists suffix.
Qed.

Lemma append_assoc (a b c : string) : (a +:+ b) +:+ c = a +:+ b +:+ c.
Proof.
  induction a as [|x a IH]; [reflexivity|].
  change (String x ((a +:+ b) +:+ c) = String x (a +:+ b +:+ c)).
  by rewrite IH.
Qed.

Lemma masterRedirectPath_slash self_id suffix :
  (("/" +:+ self_id +:+ "/redirect") +:+ "/") +:+ suffix
  = "/" +:+ self_id +:+ "/redirect/" +:+ suffix.
Proof. rewrite !append_assoc. reflexivity. Qed.

(** C8, amended. [redirect], on a master that is not the leader,
    answers 503 ServiceUnavailable if no leader is known and 500
    InternalServerError if the leader's host name cannot be determined.
    Otherwise: a path equal to [/redirect] or [/<id>/redirect] gets a
    307 TemporaryRedirect to the bare [//host:port]; any other path that
    is [/redirect/] or [/<id>/redirect/] followed by a suffix gets
    404 NotFound; and any remaining request (its URL not absolute, as
    the handler asserts) gets a 307 TemporaryRedirect to [//host:port]
    followed by the request URL. *)
Theorem redirect_answers leader self_id request :
  let answer := redirect leader self_id request in
  let path := url_path (url request) in
  (leader = None -> answer = Replied (ServiceUnavailable "No leader elected")) ∧
  (∀ info error,
     leader = Some info -> resolve getHostname info = inr error ->
     answer = Replied (InternalServerError error)) ∧
  (∀ info host,
     leader = Some info -> resolve getHostname info = inl host ->
     let basePath := "//" +:+ host +:+ ":" +:+ stringify_port (port info) in
     (path = "/redirect" ∨ path = "/" +:+ self_id +:+ "/redirect" ->
      answer = Replied (TemporaryRedirect basePath)) ∧
     (path ≠ "/redirect" -> path ≠ "/" +:+ self_id +:+ "/redirect" ->
      ((∃ suffix, path = "/redirect/" +:+ suffix) ∨
       (∃ suffix, path = "/" +:+ self_id +:+ "/redirect/" +:+ suffix) ->
       answer = Replied (NotFound "")) ∧
      (¬ (∃ suffix, path = "/redirect/" +:+ suffix) ->
       ¬ (∃ suffix, path = "/" +:+ self_id +:+ "/redirect/" +:+ suffix) ->
       isAbsolute (url request) = false ->
       answer = Replied (TemporaryRedirect
                           (basePath +:+ stringify_URL (url request)))))).
Proof.
  cbn zeta. unfold Redirect.redirect. repeat apply conj.
  - intros ->. reflexivity.
  - intros info error -> Herror. rewrite Herror. reflexivity.
  - intros info host -> Hhost. rewrite Hhost. split.
    + intros [Hpath|Hpath].
      * rewrite (bool_decide_eq_true_2 _ Hpath). reflexivity.
      * rewrite (bool_decide_eq_true_2 (_ = _ +:+ _) Hpath).
        rewrite orb_true_r. reflexivity.
    + intros Hne1 Hne2.
      rewrite (bool_decide_eq_false_2 _ Hne1).
      rewrite (bool_decide_eq_false_2 _ Hne2). cbn [orb].
      split.
      * intros Hprefix.
        assert (H : startsWith (url_path (url request)) ("/redirect" +:+ "/")
                    || startsWith (url_path (url request))
                         (("/" +:+ self_id +:+ "/redirect") +:+ "/") = true).
        { apply orb_true_iff. destruct Hprefix as [Hs|Hs]; [left|right];
            apply startsWith_suffix.
          - exact Hs.
          - destruct Hs as [suffix Hs]. exists suffix.
            rewrite Hs. symmetry. apply masterRedirectPath_slash. }
        rewrite H. reflexivity.
      * intros Hno1 Hno2 Habs.
        assert (H : startsWith (url_path (url request)) ("/redirect" +:+ "/")
                    || startsWith (url_path (url request))
                         (("/" +:+ self_id +:+ "/redirect") +:+ "/") = false).
        { apply orb_false_iff. split; apply not_true_is_false; intros Hs;
            apply startsWith_suffix in Hs.
          - by apply Hno1.
          - apply Hno2. destruct Hs as [suffix Hs]. exists suffix.
            rewrite Hs. apply masterRedirectPath_slash. }
        rewrite H, Habs. reflexivity.
Qed.

End RedirectFacts.

(** C8, as stated, fails twice on a master whose id is [master]: with
    a leader that advertises no host name and whose address does not
    resolve, the answer is 500 InternalServerError although a leader
    is known; and the path [/redirectfoo], which extends [/redirect]
    with a suffix, is redirected with its URL appended instead of being
    answered 404 NotFound. *)
Lemma redirect_answers_500_and_keeps_redirectfoo :
  let failed := InternalServerError "Failed to resolve the address" in
  let redirected := TemporaryRedirect "//leader-host:5050/redirectfoo" in
  Examples.run_redirect (Some Examples.unnamed_leader) "/api/v1"
  = Replied failed ∧
  status failed = 500 ∧
  status failed ≠ 307 ∧
  "/redirectfoo" = "/redirect" +:+ "foo" ∧
  Examples.run_redirect (Some Examples.named_leader) "/redirectfoo"
  = Replied redirected ∧
  status redirected = 307 ∧
  status redirected ≠ 404.
Proof. repeat apply conj; try discriminate; vm_compute; reflexivity. Qed.

(** ** The URI value *)

Section UriFacts.

Import Uri.

(** What [unpack] writes back is the text uriparser covered, as long
    as the port text is canonical and the path is not a bare slash. *)
Lemma unpack_stringify uri result :
  unpack uri = inl result ->
  port_canonical uri -> path_not_bare_slash uri ->
  stringify result = text uri.
Proof.
  unfold unpack, port_canonical, path_not_bare_slash, stringify, text.
  destruct uri as [scheme user host ip6 future port path absolute query
                     fragment]; cbn [Uri.scheme userInfo hostText hostData_ip6
                     hostData_ipFuture portText pathHead absolutePath Uri.query
                     Uri.fragment].
  destruct scheme as [scheme|]; [|discriminate].
  intros Hunpack Hport Hpath.
  assert (Hnumber :
    ∃ number : option Z,
      (if bool_decide (default "" port ≠ "")
       then match numify (default "" port) with
            | inr error => inr ("Failed to parse port: " +:+ error)
            | inl number => inl (Some number)
            end
       else inl None) = (inl number : option Z + string) ∧
      match number with
      | Some number => ":" +:+ stringify_port number
      | None => ""
      end = match port with
            | Some port => ":" +:+ port
            | None => ""
            end).
  { destruct port as [port|]; cbv beta iota in Hport.
    - change (default "" (Some port)) with port.
      destruct (numify port) as [number|error] eqn:Hnumify; [|contradiction].
      assert (Hne : port ≠ "").
      { intros ->. vm_compute in Hnumify. discriminate. }
      rewrite (bool_decide_eq_true_2 _ Hne).
      exists (Some number). by rewrite Hport.
    - exists None. split; reflexivity. }
  destruct Hnumber as (number & Hnumber & Htext).
  rewrite Hnumber in Hunpack. injection Hunpack as <-.
  cbn [uri_scheme uri_user uri_host uri_port uri_path uri_query uri_fragment].
  rewrite (append_assoc scheme ":"). do 2 f_equal.
  assert (Hsome : ∀ h : option string,
            bool_decide (is_Some h) = if h is Some _ then true else false).
  { intros [h|]; [apply bool_decide_eq_true_2; eauto|].
    apply bool_decide_eq_false_2. intros [? ?]. discriminate. }
  assert (Hsegments : bool_decide (path ≠ [])
                      = match path with [] => false | _ => true end).
  { destruct path; [|by apply bool_decide_eq_true_2].
    apply bool_decide_eq_false_2. intros H. by apply H. }
  rewrite !Hsome, Hsegments.
  destruct host as [host|], (ip6 || future), path as [|segment path],
    absolute;
    cbv beta iota; cbn [orb andb]; rewrite ?Htext, ?append_assoc;
    try reflexivity; by destruct Hpath.
Qed.

(** A string without a NUL character is the C string it is read as. *)
Lemma c_str_no_nul s : no_nul s -> c_str s = s.
Proof.
  induction s as [|c rest IH]; cbn [no_nul c_str]; [reflexivity|].
  intros [Hc Hrest]. destruct (Ascii.eqb_spec c Ascii.zero) as [->|_].
  - by destruct Hc.
  - by rewrite IH.
Qed.

Variable uriParseUriA : string -> option UriUriA.

(** C6, amended. Let [URI::parse] accept [s], and let the ranges that
    uriparser reported cover the C string it was given, which is [s]
    up to its first NUL character, with a port text (if any) that is
    the decimal form of its value and a path that is not a bare
    slash.  Then writing the parsed URI back gives that C string; so
    it gives [s] when [s] has no NUL character. *)
Theorem parse_stringify_roundtrip s result :
  (∀ uri, uriParseUriA (c_str s) = Some uri ->
          text uri = c_str s ∧ port_canonical uri ∧
          path_not_bare_slash uri) ->
  parse uriParseUriA s = inl result ->
  stringify result = c_str s ∧ (no_nul s -> stringify result = s).
Proof.
  intros Hparser. unfold parse.
  destruct (uriParseUriA (c_str s)) as [uri|]; [|discriminate].
  destruct (Hparser uri eq_refl) as (Htext & Hport & Hpath).
  intros Hunpack.
  assert (Hback : stringify result = c_str s)
    by (rewrite <- Htext; by apply unpack_stringify).
  split; [exact Hback|]. intros Hnul. by rewrite Hback, c_str_no_nul.
Qed.

End UriFacts.

(** ** The reference parser *)

Section Rfc3986Facts.

Import Uri Rfc3986.

Lemma break_none p s before :
  break p s = (before, None) -> s = before.
Proof.
  revert before. induction s as [|c s IH]; intros before; cbn.
  - intros H. by injection H as <-.
  - destruct (p c); [discriminate|].
    destruct (break p s) as [b after] eqn:E. intros H. injection H as <- ->.
    by rewrite (IH b eq_refl).
Qed.

Lemma break_some p s before c after :
  break p s = (before, Some (c, after)) ->
  s = before +:+ String c after ∧ p c = true.
Proof.
  revert before. induction s as [|x s IH]; intros before; cbn.
  - discriminate.
  - destruct (p x) eqn:Hp.
    + intros H. injection H as <- <- <-. by split.
    + destruct (break p s) as [b a] eqn:E. intros H. injection H as <- ->.
      destruct (IH b eq_refl) as [-> Hc]. by split.
Qed.

Lemma break_length p s before c after :
  break p s = (before, Some (c, after)) ->
  (String.length after < String.length s)%nat.
Proof.
  intros H. apply break_some in H as [-> _].
  induction before as [|x before IH]; simpl; lia.
Qed.

Lemma is_char_eq c x : is_char c x = true -> x = c.
Proof. unfold is_char. intros H. by apply Ascii.eqb_eq in H. Qed.

Lemma segments_nonempty fuel s : segments fuel s ≠ [].
Proof.
  destruct fuel; cbn; [discriminate|].
  destruct (break (is_char "/") s) as [segment [[c rest]|]]; discriminate.
Qed.

Lemma segments_text fuel s :
  (String.length s <= fuel)%nat -> path_text (segments fuel s) = s.
Proof.
  revert s. induction fuel as [|fuel IH]; intros s Hlen; [reflexivity|].
  cbn [segments].
  destruct (break (is_char "/") s) as [segment [[c rest]|]] eqn:E.
  - pose proof (break_length _ _ _ _ _ E) as Hrest.
    apply break_some in E as [-> Hc]. apply is_char_eq in Hc as ->.
    pose proof (segments_nonempty fuel rest) as Hne.
    cbn [path_text]. destruct (segments fuel rest) as [|x l] eqn:Es;
      [contradiction|].
    rewrite <- Es, IH by lia. reflexivity.
  - apply break_none in E as ->. reflexivity.
Qed.

Lemma strip_some prefix s rest :
  strip prefix s = Some rest -> s = prefix +:+ rest.
Proof.
  revert s. induction prefix as [|a prefix IH]; intros s; cbn.
  - intros H. by injection H as ->.
  - destruct s as [|b s]; [discriminate|].
    destruct (Ascii.eqb_spec a b) as [->|]; [|discriminate].
    intros H. by rewrite (IH _ H).
Qed.

Lemma append_nil_r (s : string) : s +:+ "" = s.
Proof.
  induction s as [|c s IH]; [reflexivity|].
  change (String c (s +:+ "") = String c s). by rewrite IH.
Qed.

Lemma host_port_text s host ip6 future port :
  host_port s = Some (host, ip6, future, port) ->
  host_text host ip6 future port = s.
Proof.
  unfold host_port, host_text.
  destruct (strip "[" s) as [literal|] eqn:Hstrip.
  - apply strip_some in Hstrip as ->.
    destruct (break (is_char "]") literal) as [inside [[c after]|]] eqn:E;
      [|discriminate].
    apply break_some in E as [-> Hc]. apply is_char_eq in Hc as ->.
    destruct (strip ":" after) as [p|] eqn:Hport.
    + apply strip_some in Hport as ->.
      intros H. injection H as <- <- <- <-.
      rewrite orb_negb_l, !append_assoc. reflexivity.
    + case_bool_decide as Hafter; [|discriminate]. subst after.
      intros H. injection H as <- <- <- <-.
      rewrite orb_negb_l, !append_assoc. reflexivity.
  - destruct (break (is_char ":") s) as [h [[c p]|]] eqn:E.
    + apply break_some in E as [-> Hc]. apply is_char_eq in Hc as ->.
      intros H. injection H as <- <- <- <-. reflexivity.
    + apply break_none in E as ->.
      intros H. injection H as <- <- <- <-. apply append_nil_r.
Qed.

Lemma authority_sound s a : authority s = Some a -> authority_text a = s.
Proof.
  unfold authority, authority_text.
  destruct (break (is_char "@") s) as [user [[c rest]|]] eqn:E.
  - apply break_some in E as [-> Hc]. apply is_char_eq in Hc as ->.
    destruct (host_port rest) as [[[[host ip6] future] port]|] eqn:Hhp;
      [|discriminate].
    apply host_port_text in Hhp. unfold host_text in Hhp.
    destruct (_ && _); [|discriminate].
    intros H. injection H as <-. cbn. rewrite Hhp, !append_assoc. reflexivity.
  - destruct (host_port s) as [[[[host ip6] future] port]|] eqn:Hhp;
      [|discriminate].
    apply host_port_text in Hhp. unfold host_text in Hhp.
    destruct (_ && _); [|discriminate].
    intros H. injection H as <-. cbn. exact Hhp.
Qed.

Lemma split_scheme_sound s scheme hier :
  split_scheme s = Some (scheme, hier) ->
  match scheme with
  | Some scheme => scheme +:+ ":"
  | None => ""
  end +:+ hier = s.
Proof.
  unfold split_scheme.
  destruct (break _ s) as [name [[c rest]|]] eqn:E.
  - destruct (is_char ":" c) eqn:Hc.
    + destruct (is_scheme name); [|discriminate].
      apply break_some in E as [-> _]. apply is_char_eq in Hc as ->.
      intros H. injection H as <- <-. by rewrite append_assoc.
    + intros H. by injection H as <- <-.
  - intros H. by injection H as <- <-.
Qed.

Lemma split_authority_sound hier auth rest :
  split_authority hier = Some (auth, rest) ->
  match auth with
  | Some a => "//" +:+ authority_text a
  | None => ""
  end +:+ rest = hier ∧
  (is_Some auth ->
   rest = "" ∨
   ∃ c after, rest = String c after ∧
              one_of ["/"%char; "?"%char; "#"%char] c = true).
Proof.
  unfold split_authority.
  destruct (strip "//" hier) as [r|] eqn:Hstrip.
  - apply strip_some in Hstrip as ->.
    destruct (break _ r) as [a [[c after]|]] eqn:E.
    + destruct (authority a) as [A|] eqn:HA; [|discriminate].
      apply authority_sound in HA. apply break_some in E as [-> Hc].
      intros H. injection H as <- <-. split.
      * rewrite HA, !append_assoc. reflexivity.
      * intros _. right. eauto.
    + destruct (authority a) as [A|] eqn:HA; [|discriminate].
      apply authority_sound in HA. apply break_none in E as ->.
      intros H. injection H as <- <-. split.
      * rewrite HA, !append_assoc, append_nil_r. reflexivity.
      * intros _. by left.
  - intros H. injection H as <- <-. split; [reflexivity|].
    intros [? ?]. discriminate.
Qed.

Lemma split_path_sound no_authority path pathHead absolutePath :
  (no_authority = false -> path = "" ∨ is_Some (strip "/" path)) ->
  split_path no_authority path = (pathHead, absolutePath) ->
  (if absolutePath || (bool_decide (pathHead ≠ []) && negb no_authority)
   then "/" else "") +:+ path_text pathHead = path.
Proof.
  intros Hshape. unfold split_path.
  destruct (strip "/" path) as [body|] eqn:Hstrip.
  - apply strip_some in Hstrip as ->.
    destruct (bool_decide (body = "") && no_authority) eqn:Hbare.
    + apply andb_true_iff in Hbare as [Hbody _].
      apply bool_decide_eq_true_1 in Hbody as ->.
      intros H. injection H as <- <-. reflexivity.
    + intros H. injection H as <- <-.
      rewrite bool_decide_eq_true_2 by apply segments_nonempty.
      rewrite segments_text by lia.
      destruct no_authority; reflexivity.
  - case_bool_decide as Hempty.
    + subst path. intros H. injection H as <- <-. reflexivity.
    + intros H. injection H as <- <-.
      rewrite bool_decide_eq_true_2 by apply segments_nonempty.
      rewrite segments_text by lia.
      destruct no_authority; [reflexivity|].
      destruct (Hshape eq_refl) as [?|[? ?]]; [contradiction|discriminate].
Qed.

Lemma split_tail_sound rest path tail query fragment :
  break (one_of ["?"%char; "#"%char]) rest = (path, tail) ->
  split_tail tail = (query, fragment) ->
  path
  +:+ match query with
      | Some query => "?" +:+ query
      | None => ""
      end
  +:+ match fragment with
      | Some fragment => "#" +:+ fragment
      | None => ""
      end = rest.
Proof.
  intros Hbreak. unfold split_tail. destruct tail as [[c r]|].
  - apply break_some in Hbreak as [-> Hc].
    destruct (is_char "#" c) eqn:Hhash.
    + apply is_char_eq in Hhash as ->.
      intros H. injection H as <- <-. reflexivity.
    + assert (c = "?"%char) as ->.
      { unfold one_of, existsb in Hc. unfold is_char in Hhash.
        rewrite Hhash, !orb_false_r in Hc. symmetry. by apply Ascii.eqb_eq. }
      destruct (break (is_char "#") r) as [q [[c f]|]] eqn:E.
      * apply break_some in E as [-> Hc']. apply is_char_eq in Hc' as ->.
        intros H. injection H as <- <-. reflexivity.
      * apply break_none in E as ->.
        intros H. injection H as <- <-. by rewrite append_nil_r.
  - apply break_none in Hbreak as ->.
    intros H. injection H as <- <-. by rewrite !append_nil_r.
Qed.

(** The reference parser reports ranges that cover its input. *)
Lemma parse_text s uri : Rfc3986.parse s = Some uri -> text uri = s.
Proof.
  unfold Rfc3986.parse.
  destruct (split_scheme s) as [[scheme hier]|] eqn:Hscheme; [|discriminate].
  destruct (split_authority hier) as [[auth rest]|] eqn:Hauth; [|discriminate].
  destruct (break _ rest) as [path tail] eqn:Hbreak.
  destruct (split_path _ path) as [segs absolute] eqn:Hpath.
  destruct (split_tail tail) as [q f] eqn:Htail.
  intros H. injection H as <-.
  apply split_scheme_sound in Hscheme as <-.
  apply split_authority_sound in Hauth as [<- Hrest].
  pose proof (split_tail_sound _ _ _ _ _ Hbreak Htail) as Hcover.
  apply split_path_sound in Hpath.
  - unfold text. cbn [Uri.scheme userInfo hostText hostData_ip6
      hostData_ipFuture portText Uri.pathHead Uri.absolutePath Uri.query
      Uri.fragment].
    rewrite <- Hcover, <- Hpath.
    assert (Hsome : ∀ h : option string,
              bool_decide (is_Some h) = if h is Some _ then true else false).
    { intros [h|]; [apply bool_decide_eq_true_2; eauto|].
      apply bool_decide_eq_false_2. intros [? ?]. discriminate. }
    rewrite Hsome.
    destruct auth as [a|]; cbn [fmap option_fmap option_map mbind option_bind
                                 default negb andb].
    + unfold authority_text. rewrite !append_assoc. reflexivity.
    + rewrite !append_assoc. reflexivity.
  - destruct auth as [a|]; [|discriminate]. intros _.
    destruct (Hrest (ltac:(eauto))) as [->|(c & after & -> & Hc)].
    + left. cbn in Hbreak. by injection Hbreak as <- _.
    + unfold one_of, existsb in Hc.
      destruct (Ascii.eqb_spec "/" c) as [<-|Hslash].
      * right. cbn in Hbreak.
        destruct (break _ after) as [b t]. injection Hbreak as <- _.
        cbn. eauto.
      * left. cbn [orb] in Hc. cbn [break] in Hbreak.
        unfold one_of at 1, existsb in Hbreak.
        rewrite Hc in Hbreak. by injection Hbreak as <- _.
Qed.

(** On the reference parser, an accepted string is written back as
    the C string that was read whenever its port text is canonical and
    its path is not a bare slash. *)
Corollary reference_roundtrip s result :
  (∀ uri, Rfc3986.parse (c_str s) = Some uri ->
          port_canonical uri ∧ path_not_bare_slash uri) ->
  Uri.parse Rfc3986.parse s = inl result ->
  stringify result = c_str s.
Proof.
  intros Hshape. unfold Uri.parse.
  destruct (Rfc3986.parse (c_str s)) as [uri|] eqn:Hparse; [|discriminate].
  destruct (Hshape uri eq_refl) as [Hport Hpath].
  intros Hunpack. rewrite <- (parse_text (c_str s) uri Hparse).
  by apply unpack_stringify.
Qed.

End Rfc3986Facts.

(** C6, as stated, fails: a port written with a leading zero, and an
    empty port, are both accepted by [URI::parse] and written back
    differently; and a string is read only up to its first NUL
    character, so what follows one is not written back. *)
Lemma parse_stringify_changes_port :
  let zero := Uri.mkURI "http" None (Some "localhost") (Some 80) "/" None None in
  let empty := Uri.mkURI "http" None (Some "localhost") None "/" None None in
  let cut := Uri.mkURI "http" None (Some "a") None "/x" None None in
  Uri.parse Rfc3986.parse "http://localhost:080/" = inl zero ∧
  Uri.stringify zero = "http://localhost:80/" ∧
  Uri.stringify zero ≠ "http://localhost:080/" ∧
  Uri.parse Rfc3986.parse "http://localhost:/" = inl empty ∧
  Uri.stringify empty = "http://localhost/" ∧
  Uri.stringify empty ≠ "http://localhost:/" ∧
  Uri.parse Rfc3986.parse ("http://a/x" +:+ String Ascii.zero "junk")
  = inl cut ∧
  Uri.stringify cut = "http://a/x" ∧
  Uri.stringify cut ≠ "http://a/x" +:+ String Ascii.zero "junk".
Proof. repeat apply conj; try discriminate; vm_compute; reflexivity. Qed.

(** * The scenarios of the specification and the tests of the repository *)

(** Scenario 3: a request to a master that is not the leader is
    redirected to the leader, with its path. *)
Example redirect_to_leader :
  Examples.run_redirect (Some Examples.named_leader) "/api/v1"
  = Replied (TemporaryRedirect "//leader-host:5050/api/v1").
Proof. vm_compute. reflexivity. Qed.

Example redirect_without_leader :
  Examples.run_redirect None "/api/v1"
  = Replied (ServiceUnavailable "No leader elected").
Proof. reflexivity. Qed.

(** Scenario 5: RESERVE rescinds offers until the recovered resources
    cover the operation; here both offers go, each recovered with the
    default filter. *)
Example reserve_rescinds_both_offers :
  Operation.authorized_then Examples.apply_cpus Examples.offered_agents
    "agent-1" (Operation.RESERVE [3]) true None
  = (Accepted,
     [Operation.recoverResources "framework-1" "agent-1" 2
        (Operation.mkFilters 5);
      Operation.removeOffer
        (Operation.mkOffer "offer-1" "framework-1" "agent-1" [2]) true;
      Operation.recoverResources "framework-2" "agent-1" 2
        (Operation.mkFilters 5);
      Operation.removeOffer
        (Operation.mkOffer "offer-2" "framework-2" "agent-1" [2]) true;
      Operation.apply Examples.offered (Operation.RESERVE [3])]).
Proof. vm_compute. reflexivity. Qed.

(** A reservation the first offer covers leaves the second offer
    alone. *)
Example reserve_rescinds_one_offer :
  Operation.authorized_then Examples.apply_cpus Examples.offered_agents
    "agent-1" (Operation.RESERVE [2]) true None
  = (Accepted,
     [Operation.recoverResources "framework-1" "agent-1" 2
        (Operation.mkFilters 5);
      Operation.removeOffer
        (Operation.mkOffer "offer-1" "framework-1" "agent-1" [2]) true;
      Operation.apply Examples.offered (Operation.RESERVE [2])]).
Proof. vm_compute. reflexivity. Qed.

(** A registered agent is marked gone by the continuation; a second
    call finds it gone and answers 200 again. *)
Example markAgentGone_registered_twice :
  let first :=
    MarkGone.markAgentGone_call Examples.mark_gone true Examples.agents
      "agent-1" 7 (Ready true) in
  fst first = Replied (OK "") ∧
  MarkGone.markAgentGone_again Examples.mark_gone [(8, Ready true)]
    (snd first) "agent-1"
  = [Replied (OK "")].
Proof. split; vm_compute; reflexivity. Qed.

(** [uri_tests.cpp], on the reference parser. *)
Example ParseHTTP :
  Uri.parse Rfc3986.parse "http://registry.docker.com:1234/abc/1"
  = inl (Uri.mkURI "http" None (Some "registry.docker.com") (Some 1234)
           "/abc/1" None None) ∧
  Uri.parse Rfc3986.parse "https://auth.docker.com"
  = inl (Uri.mkURI "https" None (Some "auth.docker.com") None "" None None) ∧
  Uri.parse Rfc3986.parse "mesos.com" = inr "Missing scheme in uri string" ∧
  Uri.parse Rfc3986.parse "://" = inr "Failed to parse uri string" ∧
  Uri.parse Rfc3986.parse "http://localhost:80:81/"
  = inr "Failed to parse uri string" ∧
  (∃ error, Uri.parse Rfc3986.parse "http://localhost:99999/" = inr error).
Proof. repeat apply conj; try (vm_compute; reflexivity). eexists. vm_compute. reflexivity. Qed.

Example ParseFile :
  Uri.parse Rfc3986.parse "file:relative/path"
  = inl (Uri.mkURI "file" None None None "relative/path" None None) ∧
  Uri.parse Rfc3986.parse "file:/absolute/path"
  = inl (Uri.mkURI "file" None None None "/absolute/path" None None) ∧
  Uri.parse Rfc3986.parse "file:///host/and/absolute/path"
  = inl (Uri.mkURI "file" None (Some "") None "/host/and/absolute/path"
           None None).
Proof. repeat apply conj; vm_compute; reflexivity. Qed.

Example ParseUser :
  Uri.parse Rfc3986.parse "ftp://lots:of:user:info:in:a:row@weird/"
  = inl (Uri.mkURI "ftp" (Some "lots:of:user:info:in:a:row") (Some "weird")
           None "/" None None).
Proof. vm_compute. reflexivity. Qed.

Example ParseQueryFragment :
  Uri.parse Rfc3986.parse "http://localhost#fragment?query"
  = inl (Uri.mkURI "http" None (Some "localhost") None "" None
           (Some "fragment?query")) ∧
  Uri.parse Rfc3986.parse "http://localhost:5050/#/frameworks"
  = inl (Uri.mkURI "http" None (Some "localhost") (Some 5050) "/" None
           (Some "/frameworks")) ∧
  Uri.parse Rfc3986.parse
    "magnet:?xt=urn:btih:c12fe1c06bba254a9dc9f519b335aa7c1367a88a&dn"
  = inl (Uri.mkURI "magnet" None None None ""
           (Some "xt=urn:btih:c12fe1c06bba254a9dc9f519b335aa7c1367a88a&dn")
           None).
Proof. repeat apply conj; vm_compute; reflexivity. Qed.

(** * The properties on the worked instances *)

(** [agent-2] is unreachable and unguarded: the call goes to the
    registrar. *)
Lemma markAgentGone_preconditions_in_order_witness :
  MarkGone.markAgentGone true Examples.agents "agent-2" 7
  = (MarkGone.Awaiting (MarkGone.MarkSlaveGone "agent-2" 7),
     MarkGone.mkMaster {[ "agent-1" := "agent-1" ]} ∅ {[ "agent-2" ]} ∅
       ({[ "agent-2" ]} ∪ ∅) ∅ ∅ [MarkGone.MarkSlaveGone "agent-2" 7]).
Proof.
  pose proof (markAgentGone_preconditions_in_order Examples.agents "agent-2" 7)
    as H.
  cbn zeta in H. destruct H as (_ & _ & _ & _ & _ & H & _).
  apply H.
  - repeat apply conj; apply (bool_decide_unpack _); vm_compute; exact I.
  - right. right. apply (bool_decide_unpack _). vm_compute. exact I.
Defined.

Lemma markAgentGone_unregistered_stays_marking_witness :
  let first :=
    MarkGone.markAgentGone_call Examples.mark_gone true Examples.agents
      "agent-2" 7 (Ready true) in
  fst first = Replied (OK "") ∧
  MarkGone.markAgentGone_again Examples.mark_gone
    [(8, Ready true); (9, Ready false)] (snd first) "agent-2"
  = [Replied (ServiceUnavailable
                "Agent 'agent-2' is already being transitioned to gone");
     Replied (ServiceUnavailable
                "Agent 'agent-2' is already being transitioned to gone")].
Proof.
  assert (Hu : MarkGone.unguarded Examples.agents "agent-2")
    by (repeat apply conj; apply (bool_decide_unpack _); vm_compute; exact I).
  assert (Hk : ("agent-2" ∈ MarkGone.recovered Examples.agents) ∨
               ("agent-2" ∈ MarkGone.unreachable Examples.agents))
    by (right; apply (bool_decide_unpack _); vm_compute; exact I).
  pose proof (markAgentGone_unregistered_stays_marking Examples.mark_gone
                Examples.agents "agent-2" 7 true eq_refl Hk Hu) as H.
  cbn zeta in H. destruct H as (H1 & _ & _ & _ & H5).
  split; [exact H1|].
  specialize (H5 [(8, Ready true); (9, Ready false)]).
  inversion H5 as [|o1 l1 E1 H5' Hl1]. inversion H5' as [|o2 l2 E2 H5'' Hl2].
  inversion H5''. subst. reflexivity.
Defined.

(** RESERVE of 3 cpus on the agent with two offers of 2 cpus: both
    offers are rescinded, the second one covering the operation. *)
Lemma operation_rescinds_offers_witness :
  ∃ required0 final,
    Operation.rescinds_spec Examples.apply_cpus (Operation.RESERVE [3])
      (Operation.offers Examples.offered)
      (Operation.mkRescinding required0 Operation.Resources_empty []) final ∧
    (∀ final',
       Operation.rescinds_spec Examples.apply_cpus (Operation.RESERVE [3])
         (Operation.offers Examples.offered)
         (Operation.mkRescinding required0 Operation.Resources_empty [])
         final' ->
       final' = final) ∧
    Operation.authorized_then Examples.apply_cpus Examples.offered_agents
      "agent-1" (Operation.RESERVE [3]) true None
    = (Accepted,
       Operation.effects final
       ++ [Operation.apply Examples.offered (Operation.RESERVE [3])]) ∧
    (∀ resources,
       Operation.RESERVE [3] = Operation.RESERVE resources ->
       required0 = Operation.popReservation (Operation.Resources_of resources)) ∧
    Operation.refuse_seconds Operation.Filters_default = 5.
Proof.
  apply (operation_rescinds_offers Examples.apply_cpus Examples.offered_agents
           "agent-1" Examples.offered (Operation.RESERVE [3]) None).
  vm_compute. reflexivity.
Defined.

(** The schedule naming [machine_1] is accepted, with no other event
    between its turns: [machine_1] drains and [machine_2], omitted, is
    back [UP]. *)
Lemma updateMaintenanceSchedule_modes_witness :
  let result := Examples.update_schedule Examples.maintained
                  Examples.next_schedule in
  fst result = Replied (OK "") ∧
  ∀ id machine,
    Maintenance.machines Examples.maintained !! id = Some machine ->
    ∃ machine',
      Maintenance.machines (snd result) !! id = Some machine' ∧
      (Maintenance.mode (Maintenance.info machine') = Maintenance.UP ∨
       Maintenance.mode (Maintenance.info machine') = Maintenance.DRAINING) ∧
      (id ∈ Maintenance.named Examples.next_schedule ->
       Maintenance.mode (Maintenance.info machine') = Maintenance.DRAINING) ∧
      (id ∉ Maintenance.named Examples.next_schedule ->
       Maintenance.mode (Maintenance.info machine') = Maintenance.UP).
Proof.
  cbn zeta. split; [vm_compute; reflexivity|].
  pose proof (updateMaintenanceSchedule_modes Maintenance.validation_of_modes
                Examples.maintained Examples.next_schedule (fun _ => true)
                (Ready true) (fun m => m) (fun m => m)) as H.
  cbn zeta in H. destruct H as [H _].
  destruct (H (OK "")
              (snd (Examples.update_schedule Examples.maintained
                      Examples.next_schedule)))
    as (submitted & _ & Hsubmitted & _ & _ & _ & Hmodes).
  - vm_compute. reflexivity.
  - vm_compute. reflexivity.
  - injection Hsubmitted as <-. apply Hmodes.
    intros id Hin. apply list_elem_of_In in Hin as [<-|[]].
    vm_compute. discriminate.
Defined.

(** SUBSCRIBE with a stream id, otherwise in order, is answered 400;
    so is TEARDOWN with a stale stream id. *)
Lemma scheduler_stream_id_witness :
  Examples.run_scheduler Examples.subscribe_with_stream_id
  = Replied (BadRequest
      "Subscribe calls should not include the 'Mesos-Stream-Id' header") ∧
  ∃ body,
    Examples.run_scheduler Examples.teardown_stale_stream_id
    = Replied (BadRequest body).
Proof.
  split.
  - unfold Examples.run_scheduler.
    refine (proj1 (scheduler_stream_id _ _ _ _ _ Examples.leading
                     Examples.frameworks Aborted "stream-2"
                     Examples.subscribe_with_stream_id None
                     APPLICATION_PROTOBUF
                     (Examples.scheduler_call Scheduler.SUBSCRIBE)
                     _ _ _ _ _ _ _ _) _ _);
      try (vm_compute; reflexivity).
    + intros _. left. vm_compute. reflexivity.
    + vm_compute. eauto.
  - unfold Examples.run_scheduler.
    refine (proj2 (scheduler_stream_id _ _ _ _ _ Examples.leading
                     Examples.frameworks Aborted "stream-2"
                     Examples.teardown_stale_stream_id None
                     APPLICATION_PROTOBUF
                     (Examples.scheduler_call Scheduler.TEARDOWN)
                     _ _ _ _ _ _ _ _) _
              (Scheduler.mkFramework "" true (Some "stream-1")) "stream-1"
              _ _ _ _);
      try (vm_compute; reflexivity); try (vm_compute; discriminate).
    intros [H|H]; vm_compute in H; discriminate.
Defined.

(** GET_HEALTH asking for a record stream with a JSON body. *)
Lemma _api_streaming_only_for_subscribe_witness :
  ∃ body,
    Api._api (fun type : Api.CallType => type) Examples.stringify_type
      (fun _ _ _ => OK "") Api.GET_HEALTH
      (Api.mkRequestMediaTypes JSON RECORDIO None (Some JSON)) None
    = Replied (NotAcceptable body).
Proof.
  refine (proj1 (proj2 (_api_streaming_only_for_subscribe
                          (fun type : Api.CallType => type)
                          Examples.stringify_type (fun _ _ _ => OK "")
                          Api.GET_HEALTH
                          (Api.mkRequestMediaTypes JSON RECORDIO None
                             (Some JSON)) None)) _ _ _).
  - reflexivity.
  - reflexivity.
  - discriminate.
Defined.

(** The URI of the specification's first scenario is written back as
    it was read. *)
Lemma parse_stringify_roundtrip_witness :
  Uri.parse Rfc3986.parse "http://[2001:db8::7]:5050/x?a#b"
  = inl (Uri.mkURI "http" None (Some "[2001:db8::7]") (Some 5050) "/x"
           (Some "a") (Some "b")) ∧
  Uri.stringify (Uri.mkURI "http" None (Some "[2001:db8::7]") (Some 5050) "/x"
                   (Some "a") (Some "b"))
  = "http://[2001:db8::7]:5050/x?a#b".
Proof.
  split; [vm_compute; reflexivity|].
  refine (proj2 (parse_stringify_roundtrip Rfc3986.parse
                   "http://[2001:db8::7]:5050/x?a#b" _ _ _) _).
  - intros uri H. vm_compute in H. injection H as <-.
    repeat apply conj.
    + vm_compute. reflexivity.
    + vm_compute. reflexivity.
    + intros H. vm_compute in H. discriminate.
  - vm_compute. reflexivity.
  - vm_compute. repeat split; discriminate.
Defined.

(** A record stream that does not declare the encoding of its records
    is answered 400. *)
Lemma api_message_content_type_witness :
  ∃ body,
    Examples.run_api Examples.leading Aborted Examples.undeclared_records None
    = Replied (BadRequest body).
Proof.
  unfold Examples.run_api.
  refine (proj1 (proj1 (api_message_content_type _ _ _ _ _ _ _
                          Examples.leading Aborted Examples.undeclared_records
                          None _ _ _ _) _) _);
    vm_compute; reflexivity.
Defined.

(** On a master whose id is [master], with a leader that advertises
    its host name, [/master/redirect/x] is answered 404. *)
Lemma redirect_answers_witness :
  Examples.run_redirect (Some Examples.named_leader) "/master/redirect/x"
  = Replied (NotFound "").
Proof.
  unfold Examples.run_redirect.
  pose proof (redirect_answers Examples.unresolvable url_path
                Examples.print_port (Some Examples.named_leader) "master"
                (mkRequest "POST" (mkURL None "/master/redirect/x" [] None) ∅
                   BODY false "")) as H.
  cbn zeta in H. destruct H as (_ & _ & H).
  specialize (H Examples.named_leader "leader-host" eq_refl eq_refl).
  destruct H as [_ H].
  refine (proj1 (H _ _) _).
  - discriminate.
  - discriminate.
  - right. exists "x". reflexivity.
Defined.

(** SUBSCRIBE asking for a record stream without [Message-Accept]
    gets JSON records. *)
Lemma api_message_accept_defaults_to_json_witness :
  Api.negotiate accepts_exactly Examples.streaming_subscribe
  = inr (Api.mkRequestMediaTypes JSON RECORDIO None (Some JSON)) ∧
  Examples.run_api Examples.leading Aborted Examples.streaming_subscribe None
  = Replied (OKPipe [("Content-Type", APPLICATION_JSON)]).
Proof.
  pose proof (api_message_accept_defaults_to_json accepts_exactly
                (fun type : Api.CallType => type) Examples.stringify_type
                Examples.deserialize_type (fun _ => None)
                (fun record => Api.RSome record) (fun _ _ _ => OK "")
                Examples.streaming_subscribe) as H.
  destruct H as (_ & _ & H); try (vm_compute; reflexivity).
  specialize (H JSON None). cbn zeta in H.
  destruct H as [Hnegotiate H]; [vm_compute; reflexivity|].
  split; [exact Hnegotiate|].
  unfold Examples.run_api.
  refine (proj2 (H Examples.leading Aborted None Api.SUBSCRIBE
                   _ _ _ _ _ _ _ _));
    vm_compute; reflexivity.
Defined.

(** ** Bringing machines down and up *)

Section MachinesFacts.

Import Maintenance Machines.

Implicit Types (m : Master) (id : MachineID) (ids : list MachineID).
Implicit Types (ws : list Window) (ss : list Schedule).

(** *** The loops over the schedules *)

Lemma delete_machines_take_drop (updated : gset MachineID) k ids :
  delete_machines updated k ids
  = Pruned.machines_left updated (take k ids) ++ drop k ids.
Proof.
  unfold Pruned.machines_left.
  revert ids. induction k as [|k IH]; intros ids; [reflexivity|].
  cbn [delete_machines]. rewrite IH. clear IH.
  destruct (ids !! k) as [id|] eqn:Hk.
  - rewrite (take_S_r _ _ _ Hk), filter_app.
    case_decide as Hin.
    + rewrite delete_take_drop.
      assert (Hlen : k = length (take k ids)).
      { symmetry. apply length_take_le. apply lookup_lt_Some in Hk. lia. }
      rewrite take_app_length' by exact Hlen.
      rewrite drop_app_length' by exact Hlen.
      rewrite filter_cons_False by (cbn; tauto).
      rewrite filter_nil. by rewrite app_nil_r.
    + rewrite filter_cons_True by exact Hin.
      rewrite filter_nil, <- app_assoc. cbn.
      by rewrite <- (drop_S _ _ _ Hk).
  - apply lookup_ge_None in Hk.
    rewrite !take_ge by lia. by rewrite !drop_ge by lia.
Qed.

Lemma delete_machines_left (updated : gset MachineID) ids :
  delete_machines updated (length ids) ids = Pruned.machines_left updated ids.
Proof.
  rewrite delete_machines_take_drop, firstn_all, drop_all.
  apply app_nil_r.
Qed.

Lemma delete_windows_take_drop (updated : gset MachineID) j ws :
  delete_windows updated j ws
  = omap (Pruned.window_left updated) (take j ws) ++ drop j ws.
Proof.
  revert ws. induction j as [|j IH]; intros ws; [reflexivity|].
  cbn [delete_windows]. rewrite IH. clear IH.
  destruct (ws !! j) as [window|] eqn:Hj.
  - assert (Hlen : j = length (take j ws)).
    { symmetry. apply length_take_le. apply lookup_lt_Some in Hj. lia. }
    rewrite (take_S_r _ _ _ Hj), omap_app. cbn [omap list_omap].
    rewrite delete_machines_left. unfold Pruned.window_left.
    destruct (Pruned.machines_left updated (machine_ids window))
      as [|id ids] eqn:Hleft.
    + rewrite bool_decide_true by reflexivity.
      rewrite delete_take_drop.
      rewrite take_app_length' by exact Hlen.
      rewrite drop_app_length' by exact Hlen.
      by rewrite app_nil_r.
    + rewrite bool_decide_false by discriminate.
      rewrite insert_take_drop by (apply lookup_lt_Some in Hj; exact Hj).
      rewrite take_app_length' by exact Hlen.
      rewrite (drop_app_length' _ _ j) by exact Hlen.
      cbn. by rewrite <- app_assoc.
  - apply lookup_ge_None in Hj.
    rewrite !take_ge by lia. by rewrite !drop_ge by lia.
Qed.

Lemma delete_windows_left (updated : gset MachineID) ws :
  delete_windows updated (length ws) ws
  = omap (Pruned.window_left updated) ws.
Proof.
  rewrite delete_windows_take_drop, firstn_all, drop_all.
  apply app_nil_r.
Qed.

Lemma delete_schedules_left (updated : gset MachineID) ss :
  delete_schedules updated ss = Pruned.schedules_left updated ss.
Proof.
  unfold Pruned.schedules_left.
  induction ss as [|schedule rest IH]; [reflexivity|].
  cbn [delete_schedules omap list_omap]. rewrite delete_windows_left, IH.
  unfold Pruned.schedule_left.
  destruct (omap (Pruned.window_left updated) (windows schedule)); reflexivity.
Qed.

(** *** The machines after the continuations *)

Lemma modes_set_down ids m id :
  modes (_startMaintenance_down ids m) !! id
  = if decide (id ∈ ids) then Some DOWN else modes m !! id.
Proof.
  unfold _startMaintenance_down. revert m.
  induction ids as [|id0 rest IH]; intros m; cbn [fold_left].
  - rewrite decide_False; [reflexivity|]. apply not_elem_of_nil.
  - rewrite IH, modes_set_mode.
    destruct (decide (id ∈ rest)) as [Hin|Hout].
    + rewrite decide_True; [reflexivity|]. by apply elem_of_cons; right.
    + destruct (decide (id = id0)) as [->|Hne].
      * rewrite lookup_insert_eq, decide_True; [reflexivity|].
        by apply elem_of_cons; left.
      * rewrite lookup_insert_ne by congruence.
        rewrite decide_False; [reflexivity|].
        intros [?|?]%elem_of_cons; done.
Qed.

Lemma reactivate_fold ids m updated0 m1 updated :
  fold_left reactivate ids (m, updated0) = (m1, updated) →
  updated = list_to_set ids ∪ updated0 ∧
  schedules m1 = schedules m ∧ registrar m1 = registrar m ∧
  ∀ id, machines m1 !! id =
    if decide (id ∈ ids)
    then Some (mkMachine
                 (mkMachineInfo (Maintenance.id (info (machine_at m id))) UP
                                None)
                 (slaves (machine_at m id)))
    else machines m !! id.
Proof.
  revert m updated0. induction ids as [|id0 rest IH]; intros m updated0;
    cbn [fold_left].
  - intros [= <- <-]. split; [|split; [|split]]; try reflexivity.
    cbn. by rewrite (left_id_L ∅ (∪)).
  - intros E. apply IH in E as (-> & -> & -> & Hm). clear IH.
    split; [|split; [|split]]; try reflexivity.
    + cbn [list_to_set]. unfold reactivate; cbn [snd].
      by rewrite (assoc_L (∪)), (comm_L (∪) (list_to_set rest)).
    + intros id. rewrite Hm. clear Hm. unfold reactivate; cbn [fst].
      assert (Hat : ∀ id', machines
                (clear_unavailability id0 (set_mode id0 UP m)) !! id'
              = if decide (id' = id0)
                then Some (mkMachine
                   (mkMachineInfo (Maintenance.id (info (machine_at m id0)))
                                  UP None)
                   (slaves (machine_at m id0)))
                else machines m !! id').
      { intros id'. unfold clear_unavailability, set_mode, set_machines,
          machine_at. cbn.
        destruct (decide (id' = id0)) as [->|Hne].
        - by rewrite !lookup_insert_eq.
        - by rewrite !lookup_insert_ne by congruence. }
      destruct (decide (id ∈ rest)) as [Hin|Hout].
      * rewrite decide_True by (by apply elem_of_cons; right).
        unfold machine_at at 1 2. rewrite Hat.
        destruct (decide (id = id0)) as [->|Hne]; reflexivity.
      * rewrite Hat. destruct (decide (id = id0)) as [->|Hne].
        -- rewrite decide_True by (by apply elem_of_cons; left). reflexivity.
        -- rewrite decide_False; [reflexivity|].
           intros [?|?]%elem_of_cons; done.
Qed.

Lemma _stopMaintenance_then_up m ids result response m' :
  _stopMaintenance_then m ids result = Some (response, m') →
  result = true ∧ response = OK "" ∧
  (∀ id, machines m' !! id =
     if decide (id ∈ ids)
     then Some (mkMachine
                  (mkMachineInfo (Maintenance.id (info (machine_at m id))) UP
                                 None)
                  (slaves (machine_at m id)))
     else machines m !! id) ∧
  schedules m'
  = Pruned.schedules_left (list_to_set ids) (schedules m) ∧
  registrar m' = registrar m.
Proof.
  unfold _stopMaintenance_then. destruct result; cbn [negb]; [|discriminate].
  destruct (fold_left reactivate ids (m, ∅)) as [m1 updated] eqn:Hfold.
  apply reactivate_fold in Hfold as (-> & Hs & Hr & Hm).
  intros [= <- <-]. repeat apply conj; try reflexivity.
  - exact Hm.
  - cbn [schedules]. rewrite delete_schedules_left, Hs.
    by rewrite (right_id_L ∅ (∪)).
  - exact Hr.
Qed.

(** What a whole call of [_startMaintenance] that is answered amounts
    to. *)
(** *** The schedules that are left *)

Lemma named_windows_left (updated : gset MachineID) ws :
  concat (map machine_ids (omap (Pruned.window_left updated) ws))
  = Pruned.machines_left updated (concat (map machine_ids ws)).
Proof.
  unfold Pruned.machines_left.
  induction ws as [|window rest IH]; [reflexivity|].
  cbn [omap list_omap map concat]. rewrite filter_app, <- IH.
  unfold Pruned.window_left, Pruned.machines_left.
  destruct (filter _ (machine_ids window)); reflexivity.
Qed.

Lemma named_schedules_left (updated : gset MachineID) ss :
  concat (map named (Pruned.schedules_left updated ss))
  = Pruned.machines_left updated (concat (map named ss)).
Proof.
  unfold Pruned.schedules_left.
  induction ss as [|schedule rest IH]; [reflexivity|].
  cbn [omap list_omap map concat].
  assert (Happ : ∀ l1 l2, Pruned.machines_left updated (l1 ++ l2)
                 = Pruned.machines_left updated l1
                   ++ Pruned.machines_left updated l2).
  { intros l1 l2. apply filter_app. }
  rewrite Happ, <- IH.
  pose proof (named_windows_left updated (windows schedule)) as Hws.
  fold (named schedule) in Hws. rewrite <- Hws.
  unfold Pruned.schedule_left.
  destruct (omap _ (windows schedule)); reflexivity.
Qed.

Lemma windows_left_kept (updated : gset MachineID) ws window' :
  window' ∈ omap (Pruned.window_left updated) ws →
  machine_ids window' ≠ [] ∧
  ∃ window, window ∈ ws ∧
    machine_ids window'
    = filter (fun id => id ∉ updated) (machine_ids window) ∧
    window_unavailability window' = window_unavailability window.
Proof.
  rewrite list_elem_of_omap. intros (window & Hin & Hleft).
  unfold Pruned.window_left, Pruned.machines_left in Hleft.
  destruct (filter _ (machine_ids window)) as [|id ids] eqn:Hf;
    [discriminate|].
  injection Hleft as <-. cbn. split; [discriminate|].
  exists window. by rewrite Hf.
Qed.

Lemma schedules_left_kept (updated : gset MachineID) ss schedule' :
  schedule' ∈ Pruned.schedules_left updated ss →
  windows schedule' ≠ [] ∧
  ∃ schedule, schedule ∈ ss ∧
    windows schedule'
    = omap (Pruned.window_left updated) (windows schedule).
Proof.
  unfold Pruned.schedules_left.
  rewrite list_elem_of_omap. intros (schedule & Hin & Hleft).
  unfold Pruned.schedule_left in Hleft.
  destruct (omap _ (windows schedule)) as [|w ws] eqn:Hf; [discriminate|].
  injection Hleft as <-. cbn. split; [discriminate|].
  exists schedule. by rewrite Hf.
Qed.

(** X1.  When machines are brought up, the loops over the stored
    schedules delete exactly these machines: the machines still
    scheduled are the ones scheduled before that were not brought up,
    in the same order; every window that is left comes from a window
    of before, with its unavailability and its other machines; and no
    window and no schedule is left empty. *)
Theorem stopMaintenance_prunes_schedules m ids response m' :
  _stopMaintenance_then m ids true = Some (response, m') →
  concat (map named (schedules m'))
  = filter (fun id => id ∉ ids) (concat (map named (schedules m))) ∧
  ∀ schedule', schedule' ∈ schedules m' →
    windows schedule' ≠ [] ∧
    ∀ window', window' ∈ windows schedule' →
      machine_ids window' ≠ [] ∧
      ∃ schedule window,
        schedule ∈ schedules m ∧ window ∈ windows schedule ∧
        machine_ids window'
        = filter (fun id => id ∉ ids) (machine_ids window) ∧
        window_unavailability window' = window_unavailability window.
Proof.
  intros E. apply _stopMaintenance_then_up in E as (_ & _ & _ & Hs & _).
  rewrite Hs. clear Hs.
  assert (Hfilter : ∀ l : list MachineID,
            filter (fun id => id ∉ (list_to_set ids : gset MachineID)) l
            = filter (fun id => id ∉ ids) l).
  { intros l. apply list_filter_iff. intros id.
    by rewrite elem_of_list_to_set. }
  split.
  - rewrite named_schedules_left. apply Hfilter.
  - intros schedule' Hin.
    apply schedules_left_kept in Hin as (Hne & schedule & Hin & Hws).
    split; [exact Hne|]. intros window' Hw. rewrite Hws in Hw.
    apply windows_left_kept in Hw as (Hne' & window & Hin' & Hids & Hun).
    split; [exact Hne'|]. exists schedule, window.
    rewrite <- Hfilter. auto.
Qed.

(** *** Reading the schedule and the status *)

Lemma machine_ids_approved (approved : MachineID -> bool) ids acc :
  fold_left
    (fun ids machine_id =>
       if negb (approved machine_id) then ids else ids ++ [machine_id])
    ids acc
  = acc ++ filter (fun id => approved id = true) ids.
Proof.
  revert acc. induction ids as [|id rest IH]; intros acc; cbn [fold_left].
  - by rewrite filter_nil, app_nil_r.
  - rewrite IH. destruct (approved id) eqn:Ha; cbn [negb].
    + rewrite filter_cons_True by exact Ha. by rewrite <- app_assoc.
    + rewrite filter_cons_False by congruence. reflexivity.
Qed.

Lemma windows_approved (approved : MachineID -> bool) ws acc :
  windows
    (fold_left
       (fun schedule window =>
          let window_ :=
            fold_left
              (fun ids machine_id =>
                 if negb (approved machine_id) then ids
                 else ids ++ [machine_id])
              (machine_ids window) [] in
          if (0 <? length window_)%nat
          then mkSchedule
                 (windows schedule
                  ++ [mkWindow window_ (window_unavailability window)])
          else schedule)
       ws acc)
  = windows acc
    ++ omap (fun window =>
               match filter (fun id => approved id = true)
                            (machine_ids window) with
               | [] => None
               | ids => Some (mkWindow ids (window_unavailability window))
               end)
            ws.
Proof.
  revert acc. induction ws as [|window ws IH]; intros acc;
    cbn [fold_left omap list_omap].
  - by rewrite app_nil_r.
  - rewrite IH, machine_ids_approved. cbn [app].
    destruct (filter _ (machine_ids window)) as [|id ids]; cbn.
    + reflexivity.
    + by rewrite <- app_assoc.
Qed.

Lemma _getMaintenanceSchedule_windows m approved :
  windows (_getMaintenanceSchedule m approved)
  = omap (fun window =>
            match filter (fun id => approved id = true)
                         (machine_ids window) with
            | [] => None
            | ids => Some (mkWindow ids (window_unavailability window))
            end)
         (default [] (windows <$> head (schedules m))).
Proof.
  unfold _getMaintenanceSchedule.
  destruct (schedules m) as [|front rest]; [reflexivity|].
  by rewrite windows_approved.
Qed.

(** X2.  The schedule that is read is the first stored schedule cut
    down to the machines the principal is approved for: its machines
    are the approved machines of that schedule, in order; each of its
    windows comes from a window of that schedule, with its
    unavailability and its approved machines; and no window is
    empty. *)
Theorem getMaintenanceSchedule_lists_approved m approved :
  named (_getMaintenanceSchedule m approved)
  = filter (fun id => approved id = true)
           (default [] (named <$> head (schedules m))) ∧
  ∀ window', window' ∈ windows (_getMaintenanceSchedule m approved) →
    machine_ids window' ≠ [] ∧
    ∃ front window,
      head (schedules m) = Some front ∧ window ∈ windows front ∧
      machine_ids window'
      = filter (fun id => approved id = true) (machine_ids window) ∧
      window_unavailability window' = window_unavailability window.
Proof.
  split.
  - unfold named at 1. rewrite _getMaintenanceSchedule_windows.
    destruct (head (schedules m)) as [front|]; [|reflexivity].
    cbn [fmap option_fmap option_map default]; unfold Datatypes.id. unfold named.
    induction (windows front) as [|window ws IH]; [reflexivity|].
    cbn [omap list_omap map concat]. rewrite filter_app, <- IH.
    destruct (filter _ (machine_ids window)); reflexivity.
  - intros window'. rewrite _getMaintenanceSchedule_windows.
    destruct (head (schedules m)) as [front|];
      [|intros Hin; by apply elem_of_nil in Hin].
    cbn [fmap option_fmap option_map default]; unfold Datatypes.id.
    rewrite list_elem_of_omap. intros (window & Hin & Hleft).
    destruct (filter _ (machine_ids window)) as [|id ids] eqn:Hf;
      [discriminate|].
    injection Hleft as <-. cbn. split; [discriminate|].
    exists front, window. by rewrite Hf.
Qed.

Lemma filter_all {A : Type} (P : A → Prop) `{∀ x, Decision (P x)}
    (l : list A) :
  (∀ x, x ∈ l → P x) → filter P l = l.
Proof.
  induction l as [|x l IH]; intros Hall; [reflexivity|].
  rewrite filter_cons_True by (apply Hall; by apply elem_of_cons; left).
  f_equal. apply IH. intros y Hin. apply Hall. by apply elem_of_cons; right.
Qed.

(** X3.  An accepted schedule is read back as it was written: after
    [___updateMaintenanceSchedule] has stored a schedule none of whose
    windows is empty, a principal approved for all its machines reads
    that very schedule. *)
Theorem updated_schedule_is_read_back m schedule response m' approved :
  ___updateMaintenanceSchedule m schedule true = Some (response, m') →
  (∀ id, id ∈ named schedule → approved id = true) →
  (∀ window, window ∈ windows schedule → machine_ids window ≠ []) →
  _getMaintenanceSchedule m' approved = schedule.
Proof.
  intros E Happroved Hne.
  assert (Hs : schedules m' = [schedule]).
  { unfold ___updateMaintenanceSchedule in E. cbn [negb] in E.
    by injection E as _ <-. }
  pose proof (_getMaintenanceSchedule_windows m' approved) as Hw.
  rewrite Hs in Hw. cbn [head fmap option_fmap option_map default] in Hw;
    unfold Datatypes.id in Hw.
  destruct (_getMaintenanceSchedule m' approved) as [ws'].
  destruct schedule as [ws]. cbn [windows] in *. f_equal. rewrite Hw.
  clear Hw Hs E. unfold named in Happroved. cbn [windows] in Happroved.
  induction ws as [|window ws IH]; [reflexivity|].
  cbn [omap list_omap].
  assert (Hall : filter (fun id => approved id = true) (machine_ids window)
                 = machine_ids window).
  { apply filter_all. intros id Hin.
    apply Happroved. cbn [map concat]. apply elem_of_app. by left. }
  rewrite Hall.
  destruct (machine_ids window) as [|id ids] eqn:Hids.
  - exfalso. apply (Hne window); [by apply elem_of_cons; left | exact Hids].
  - rewrite <- Hids. destruct window as [ids0 u]. cbn [machine_ids
      window_unavailability] in *. f_equal. apply IH.
    + intros id' Hin. apply Happroved. cbn [map concat]. apply elem_of_app.
      by right.
    + intros w Hin. apply Hne. by apply elem_of_cons; right.
Qed.

Section Status.

Context {InverseOfferStatus FrameworkID : Type} `{Countable FrameworkID}.
Implicit Types (result : gmap SlaveID (gmap FrameworkID InverseOfferStatus)).

Lemma status_listed (approved : MachineID -> bool) result
    (l : list (MachineID * Machine)) status0 :
  let status :=
    fold_left
      (fun status entry =>
         let '(id, machine) := entry in
         if negb (approved id) then status
         else
           match mode (info machine) with
           | DRAINING =>
               mkClusterStatus
                 (draining_machines status
                  ++ [mkDrainingMachine id
                        (unwrap_statuses result (slaves machine))])
                 (down_machines status)
           | DOWN =>
               mkClusterStatus (draining_machines status)
                               (down_machines status ++ [id])
           | UP => status
           end)
      l status0 in
  down_machines status
  = down_machines status0
    ++ map fst (filter (fun entry => approved entry.1 = true ∧
                                     mode (info entry.2) = DOWN) l) ∧
  map draining_id (draining_machines status)
  = map draining_id (draining_machines status0)
    ++ map fst (filter (fun entry => approved entry.1 = true ∧
                                     mode (info entry.2) = DRAINING) l).
Proof.
  cbv zeta. revert status0.
  induction l as [|[id machine] l IH]; intros status0; cbn [fold_left].
  - rewrite !filter_nil. cbn [map]. by rewrite !app_nil_r.
  - destruct (IH
      (if negb (approved id) then status0
       else match mode (info machine) with
            | UP => status0
            | DRAINING =>
                mkClusterStatus
                  (draining_machines status0
                   ++ [mkDrainingMachine id
                         (unwrap_statuses result (slaves machine))])
                  (down_machines status0)
            | DOWN =>
                mkClusterStatus (draining_machines status0)
                                (down_machines status0 ++ [id])
            end)) as [IHdown IHdraining].
    rewrite IHdown, IHdraining. clear IH IHdown IHdraining.
    destruct (approved id) eqn:Ha; cbn [negb].
    + destruct (mode (info machine)) eqn:Hmode;
        cbn [down_machines draining_machines].
      * rewrite !filter_cons_False by (cbn; intros [_ ?]; congruence).
        done.
      * rewrite filter_cons_False by (cbn; intros [_ ?]; congruence).
        rewrite filter_cons_True by (cbn; done).
        cbn [map fst]. rewrite map_app. cbn [map draining_id].
        by rewrite <- app_assoc.
      * rewrite filter_cons_True by (cbn; done).
        rewrite filter_cons_False by (cbn; intros [_ ?]; congruence).
        cbn [map fst]. by rewrite <- app_assoc.
    + rewrite !filter_cons_False by (cbn; intros [? _]; congruence).
      done.
Qed.

Lemma elem_of_machines_in_mode m (approved : MachineID -> bool) mode' id :
  id ∈ map fst (filter (fun entry : MachineID * Machine =>
                          approved entry.1 = true ∧
                          mode (info entry.2) = mode')
                       (map_to_list (machines m))) ↔
  approved id = true ∧ modes m !! id = Some mode'.
Proof.
  rewrite list_elem_of_In, in_map_iff. split.
  - intros ([id' machine] & <- & Hin). apply list_elem_of_In in Hin.
    apply list_elem_of_filter in Hin as [[Ha Hmode] Hin]. cbn in *.
    apply elem_of_map_to_list in Hin. split; [exact Ha|].
    apply modes_lookup_Some. eauto.
  - intros [Ha Hmode]. apply modes_lookup_Some in Hmode
      as (machine & Hat & Hmode).
    exists (id, machine). split; [reflexivity|]. apply list_elem_of_In.
    apply list_elem_of_filter. split; [by split|].
    by apply elem_of_map_to_list.
Qed.

Lemma NoDup_machines_in_mode m (approved : MachineID -> bool) mode' :
  NoDup (map fst (filter (fun entry : MachineID * Machine =>
                            approved entry.1 = true ∧
                            mode (info entry.2) = mode')
                         (map_to_list (machines m)))).
Proof.
  eapply sublist_NoDup; [apply (NoDup_fst_map_to_list (machines m))|].
  apply (fmap_sublist fst). apply sublist_filter.
Qed.

(** X4.  The maintenance status lists a machine as down exactly when
    the principal is approved for it and its mode is DOWN, and as
    draining exactly when the principal is approved for it and its
    mode is DRAINING; a machine that is UP is in neither list, and no
    machine is listed twice. *)
Theorem getMaintenanceStatus_lists_by_mode m approved result :
  let status := _getMaintenanceStatus m approved result in
  (∀ id, id ∈ down_machines status ↔
         approved id = true ∧ modes m !! id = Some DOWN) ∧
  (∀ id, id ∈ map draining_id (draining_machines status) ↔
         approved id = true ∧ modes m !! id = Some DRAINING) ∧
  NoDup (down_machines status) ∧
  NoDup (map draining_id (draining_machines status)).
Proof.
  cbv zeta. unfold _getMaintenanceStatus.
  destruct (status_listed approved result (map_to_list (machines m))
              (mkClusterStatus [] [])) as [Hdown Hdraining].
  cbv zeta in Hdown, Hdraining. rewrite Hdown, Hdraining.
  cbn [down_machines draining_machines map app].
  repeat apply conj.
  - intros id. apply elem_of_machines_in_mode.
  - intros id. apply elem_of_machines_in_mode.
  - apply NoDup_machines_in_mode.
  - apply NoDup_machines_in_mode.
Qed.

End Status.

End MachinesFacts.

Section MachineHandlersFacts.

Import Maintenance Machines.

Context {Slave : Type}.
Variable validation_machines : list MachineID -> option string.
Variable stringify_MachineID : MachineID -> string.
Variable removeSlave : Slave -> string -> Cluster Slave -> Cluster Slave.

Implicit Types (m : Master) (id : MachineID) (ids : list MachineID).
Implicit Types (c : Cluster Slave).

(** *** The checks on the machines *)

Lemma _startMaintenance_check_None ms approved ids :
  _startMaintenance_check stringify_MachineID ms approved ids = None ↔
  ∀ id, id ∈ ids →
    (∃ machine, ms !! id = Some machine ∧ mode (info machine) = DRAINING) ∧
    approved id = true.
Proof.
  induction ids as [|id0 rest IH]; cbn [_startMaintenance_check].
  - split; [|reflexivity]. intros _ id Hin. by apply elem_of_nil in Hin.
  - destruct (ms !! id0) as [machine|] eqn:Hm.
    + case_bool_decide as Hmode; cbn [negb].
      * destruct (approved id0) eqn:Ha; cbn [negb].
        -- rewrite IH. split.
           ++ intros H id Hin. apply elem_of_cons in Hin as [->|Hin]; eauto.
           ++ intros H id Hin. apply H. by apply elem_of_cons; right.
        -- split; [discriminate|]. intros H.
           destruct (H id0) as [_ H']; [by apply elem_of_cons; left|].
           congruence.
      * split; [discriminate|]. intros H.
        destruct (H id0) as [(machine' & H1 & H2) _];
          [by apply elem_of_cons; left|].
        congruence.
    + split; [discriminate|]. intros H.
      destruct (H id0) as [(machine' & H1 & H2) _];
        [by apply elem_of_cons; left|].
      congruence.
Qed.

Lemma _startMaintenance_check_Some ms approved ids response :
  _startMaintenance_check stringify_MachineID ms approved ids = Some response →
  status response = 400 ∨ status response = 403.
Proof.
  induction ids as [|id0 rest IH]; cbn [_startMaintenance_check];
    [discriminate|].
  destruct (ms !! id0) as [machine|].
  - case_bool_decide; cbn [negb].
    + destruct (approved id0); cbn [negb]; [exact IH|].
      intros [= <-]. by right.
    + intros [= <-]. by left.
  - intros [= <-]. by left.
Qed.

Lemma _stopMaintenance_check_None ms approved ids :
  _stopMaintenance_check stringify_MachineID ms approved ids = None ↔
  ∀ id, id ∈ ids →
    (∃ machine, ms !! id = Some machine ∧ mode (info machine) = DOWN) ∧
    approved id = true.
Proof.
  induction ids as [|id0 rest IH]; cbn [_stopMaintenance_check].
  - split; [|reflexivity]. intros _ id Hin. by apply elem_of_nil in Hin.
  - destruct (ms !! id0) as [machine|] eqn:Hm.
    + case_bool_decide as Hmode; cbn [negb].
      * destruct (approved id0) eqn:Ha; cbn [negb].
        -- rewrite IH. split.
           ++ intros H id Hin. apply elem_of_cons in Hin as [->|Hin]; eauto.
           ++ intros H id Hin. apply H. by apply elem_of_cons; right.
        -- split; [discriminate|]. intros H.
           destruct (H id0) as [_ H']; [by apply elem_of_cons; left|].
           congruence.
      * split; [discriminate|]. intros H.
        destruct (H id0) as [(machine' & H1 & H2) _];
          [by apply elem_of_cons; left|].
        congruence.
    + split; [discriminate|]. intros H.
      destruct (H id0) as [(machine' & H1 & H2) _];
        [by apply elem_of_cons; left|].
      congruence.
Qed.

Lemma _stopMaintenance_check_Some ms approved ids response :
  _stopMaintenance_check stringify_MachineID ms approved ids = Some response →
  status response = 400 ∨ status response = 403.
Proof.
  induction ids as [|id0 rest IH]; cbn [_stopMaintenance_check];
    [discriminate|].
  destruct (ms !! id0) as [machine|].
  - case_bool_decide; cbn [negb].
    + destruct (approved id0); cbn [negb]; [exact IH|].
      intros [= <-]. by right.
    + intros [= <-]. by left.
  - intros [= <-]. by left.
Qed.

Lemma _startMaintenance_started c ids approved :
  match _startMaintenance validation_machines stringify_MachineID c ids
                          approved with
  | Awaiting op =>
      op = StartMaintenance ids ∧ validation_machines ids = None ∧
      ∀ id, id ∈ ids →
        modes (master c) !! id = Some DRAINING ∧ approved id = true
  | Now response => status response = 400 ∨ status response = 403
  end.
Proof.
  unfold _startMaintenance.
  destruct (validation_machines ids) as [error|]; [by left|].
  destruct (_startMaintenance_check _ _ _ _) as [response|] eqn:Hcheck.
  - by apply _startMaintenance_check_Some in Hcheck.
  - repeat apply conj; try reflexivity.
    intros id Hin.
    destruct (proj1 (_startMaintenance_check_None _ _ _) Hcheck id Hin)
      as [Hm Ha].
    split; [|exact Ha]. by apply modes_lookup_Some.
Qed.

Lemma _stopMaintenance_started m ids approved :
  match _stopMaintenance validation_machines stringify_MachineID m ids
                         approved with
  | Awaiting op =>
      op = StopMaintenance ids ∧ validation_machines ids = None ∧
      ∀ id, id ∈ ids → modes m !! id = Some DOWN ∧ approved id = true
  | Now response => status response = 400 ∨ status response = 403
  end.
Proof.
  unfold _stopMaintenance.
  destruct (validation_machines ids) as [error|]; [by left|].
  destruct (_stopMaintenance_check _ _ _ _) as [response|] eqn:Hcheck.
  - by apply _stopMaintenance_check_Some in Hcheck.
  - repeat apply conj; try reflexivity.
    intros id Hin.
    destruct (proj1 (_stopMaintenance_check_None _ _ _) Hcheck id Hin)
      as [Hm Ha].
    split; [|exact Ha]. by apply modes_lookup_Some.
Qed.

Lemma _startMaintenance_then_down c ids result response c' sent :
  _startMaintenance_then removeSlave c ids result = Some (response, c', sent) →
  result = true ∧ response = OK "" ∧
  ∀ id, id ∈ ids → modes (master c') !! id = Some DOWN.
Proof.
  unfold _startMaintenance_then. destruct result; cbn [negb]; [|discriminate].
  destruct (fold_left _ ids _) as [[c1 sent1]|]; [|discriminate].
  intros [= <- <- <-]. repeat apply conj; try reflexivity.
  intros id Hin. cbn [master]. rewrite modes_set_down.
  by rewrite decide_True.
Qed.

Lemma startMaintenance_call_answered c ids approved registrarResult response
    c' sent :
  startMaintenance_call validation_machines stringify_MachineID removeSlave
    c ids approved registrarResult
  = (Answered (Replied response), c', sent) →
  (response = OK "" ∧ validation_machines ids = None ∧
   registrarResult = Ready true ∧
   (∀ id, id ∈ ids →
      modes (master c) !! id = Some DRAINING ∧ approved id = true) ∧
   (∀ id, id ∈ ids → modes (master c') !! id = Some DOWN))
  ∨ (status response ≠ 200 ∧ c' = c ∧ sent = []).
Proof.
  unfold startMaintenance_call.
  pose proof (_startMaintenance_started c ids approved) as Hstarted.
  destruct (_startMaintenance _ _ c ids approved) as [r|op].
  - intros [= <- <- <-]. right.
    repeat apply conj; try reflexivity. destruct Hstarted as [-> | ->]; lia.
  - destruct Hstarted as (_ & Hvalid & Hbefore).
    destruct registrarResult as [result| |]; try discriminate.
    destruct (_startMaintenance_then _ c ids result)
      as [[[r c1] sent1]|] eqn:Hthen; [|discriminate].
    intros [= <- <- <-].
    apply _startMaintenance_then_down in Hthen as (-> & -> & Hafter).
    left. repeat apply conj; try reflexivity; assumption.
Qed.

Lemma stopMaintenance_call_answered m ids approved registrarResult response
    m' :
  stopMaintenance_call validation_machines stringify_MachineID
    m ids approved registrarResult
  = (Answered (Replied response), m') →
  (response = OK "" ∧ validation_machines ids = None ∧
   registrarResult = Ready true ∧
   (∀ id, id ∈ ids → modes m !! id = Some DOWN ∧ approved id = true) ∧
   (∀ id, machines m' !! id =
      if decide (id ∈ ids)
      then Some (mkMachine
                   (mkMachineInfo (Maintenance.id (info (machine_at m id)))
                                  UP None)
                   (slaves (machine_at m id)))
      else machines m !! id) ∧
   schedules m' = Pruned.schedules_left (list_to_set ids) (schedules m) ∧
   registrar m' = registrar m)
  ∨ (status response ≠ 200 ∧ m' = m).
Proof.
  unfold stopMaintenance_call.
  pose proof (_stopMaintenance_started m ids approved) as Hstarted.
  destruct (_stopMaintenance _ _ m ids approved) as [r|op].
  - intros [= <- <-]. right.
    repeat apply conj; try reflexivity. destruct Hstarted as [-> | ->]; lia.
  - destruct Hstarted as (_ & Hvalid & Hbefore).
    destruct registrarResult as [result| |]; try discriminate.
    destruct (_stopMaintenance_then m ids result)
      as [[r m1]|] eqn:Hthen; [|discriminate].
    intros [= <- <-].
    apply _stopMaintenance_then_up in Hthen as (-> & -> & Hm & Hs & Hr).
    left. repeat apply conj; try reflexivity; assumption.
Qed.

(** X5.  Machines that were brought down can be brought up again: after
    a call that took a list of machines down, a call to bring the
    same machines up, by a principal approved for each of them, is
    answered 200 once the registrar has applied it, and leaves every
    one of them UP. *)
Theorem machines_brought_down_come_up c ids approved registrarResult c' sent
    approved' :
  startMaintenance_call validation_machines stringify_MachineID removeSlave
    c ids approved registrarResult
  = (Answered (Replied (OK "")), c', sent) →
  (∀ id, id ∈ ids → approved' id = true) →
  ∃ m'',
    stopMaintenance_call validation_machines stringify_MachineID
      (master c') ids approved' (Ready true)
    = (Answered (Replied (OK "")), m'') ∧
    ∀ id, id ∈ ids → modes m'' !! id = Some UP.
Proof.
  intros E Happroved.
  apply startMaintenance_call_answered in E
    as [(_ & Hvalid & _ & _ & Hdown) | (Hstatus & _)];
    [|by cbn in Hstatus].
  unfold stopMaintenance_call, _stopMaintenance. rewrite Hvalid.
  assert (Hcheck : _stopMaintenance_check stringify_MachineID
                     (machines (master c')) approved' ids = None).
  { apply _stopMaintenance_check_None. intros id Hin.
    split; [|by apply Happroved].
    by apply modes_lookup_Some, Hdown. }
  rewrite Hcheck.
  destruct (_stopMaintenance_then (master c') ids true)
    as [[response m'']|] eqn:Hthen.
  - pose proof Hthen as Hup.
    apply _stopMaintenance_then_up in Hup as (_ & -> & Hm & _).
    exists m''. split; [reflexivity|]. intros id Hin.
    apply modes_lookup_Some. rewrite Hm, decide_True by exact Hin.
    eexists. split; reflexivity.
  - unfold _stopMaintenance_then in Hthen. cbn [negb] in Hthen.
    destruct (fold_left reactivate ids _); discriminate.
Qed.

(** *** The two machine endpoints *)

Section Endpoints.

Context {JSONArray : Type}.
Variable JSON_parse_Array : string -> JSONArray + string.
Variable protobuf_parse_MachineIDs : JSONArray -> list MachineID + string.

Local Abbreviation machineDown :=
  (machineDown validation_machines stringify_MachineID removeSlave
               JSON_parse_Array protobuf_parse_MachineIDs).
Local Abbreviation machineUp :=
  (machineUp validation_machines stringify_MachineID
             JSON_parse_Array protobuf_parse_MachineIDs).

(** X6.  A request to [/machine/down] that the leading master answers
    is answered 200 only when it is a POST whose body lists machines
    that are all DRAINING and all approved, and the registrar applied
    the operation; every listed machine is DOWN afterwards.  Any other
    answer leaves the master as it was and shuts no agent down. *)
Theorem machineDown_brings_down redirected c request approved registrarResult
    response c' sent :
  machineDown true redirected c request approved registrarResult
  = (Answered (Replied response), c', sent) →
  (status response = 200 ∧ method request = "POST" ∧
   ∃ jsonIds ids,
     JSON_parse_Array (body request) = inl jsonIds ∧
     protobuf_parse_MachineIDs jsonIds = inl ids ∧
     validation_machines ids = None ∧
     registrarResult = Ready true ∧
     (∀ id, id ∈ ids →
        modes (master c) !! id = Some DRAINING ∧ approved id = true) ∧
     (∀ id, id ∈ ids → modes (master c') !! id = Some DOWN))
  ∨ (status response ≠ 200 ∧ c' = c ∧ sent = []).
Proof.
  unfold Machines.machineDown. cbn [negb].
  case_bool_decide as Hmethod; cbn [negb].
  - destruct (JSON_parse_Array (body request)) as [jsonIds|error] eqn:Hjson.
    + destruct (protobuf_parse_MachineIDs jsonIds) as [ids|error] eqn:Hids.
      * intros E. apply startMaintenance_call_answered in E
          as [(-> & Hvalid & Hrr & Hbefore & Hafter) | Hrejected].
        -- left. repeat apply conj; try reflexivity; try assumption.
           exists jsonIds, ids. repeat apply conj; try reflexivity; assumption.
        -- by right.
      * intros [= <- <- <-]. right. repeat apply conj; try reflexivity.
        cbn. lia.
    + intros [= <- <- <-]. right. repeat apply conj; try reflexivity.
      cbn. lia.
  - intros [= <- <- <-]. right. repeat apply conj; try reflexivity.
    cbn. lia.
Qed.

(** X7.  A request to [/machine/up] that the leading master answers is
    answered 200 only when it is a POST whose body lists machines that
    are all DOWN and all approved, and the registrar applied the
    operation; afterwards every listed machine is UP without an
    unavailability, and every other machine is as it was.  Any other
    answer leaves the master as it was. *)
Theorem machineUp_brings_up redirected m request approved registrarResult
    response m' :
  machineUp true redirected m request approved registrarResult
  = (Answered (Replied response), m') →
  (status response = 200 ∧ method request = "POST" ∧
   ∃ jsonIds ids,
     JSON_parse_Array (body request) = inl jsonIds ∧
     protobuf_parse_MachineIDs jsonIds = inl ids ∧
     validation_machines ids = None ∧
     registrarResult = Ready true ∧
     (∀ id, id ∈ ids → modes m !! id = Some DOWN ∧ approved id = true) ∧
     (∀ id machine, id ∈ ids → machines m !! id = Some machine →
        machines m' !! id
        = Some (mkMachine
                  (mkMachineInfo (Maintenance.id (info machine)) UP None)
                  (slaves machine))) ∧
     (∀ id, id ∉ ids → machines m' !! id = machines m !! id))
  ∨ (status response ≠ 200 ∧ m' = m).
Proof.
  unfold Machines.machineUp. cbn [negb].
  case_bool_decide as Hmethod; cbn [negb].
  - destruct (JSON_parse_Array (body request)) as [jsonIds|error] eqn:Hjson.
    + destruct (protobuf_parse_MachineIDs jsonIds) as [ids|error] eqn:Hids.
      * intros E. apply stopMaintenance_call_answered in E
          as [(-> & Hvalid & Hrr & Hbefore & Hm & _) | Hrejected].
        -- left. repeat apply conj; try reflexivity; try assumption.
           exists jsonIds, ids.
           repeat apply conj; try reflexivity; try assumption.
           ++ intros id machine Hin Hat. rewrite Hm.
              rewrite decide_True by exact Hin.
              unfold machine_at. by rewrite Hat.
           ++ intros id Hout. rewrite Hm. by rewrite decide_False.
        -- by right.
      * intros [= <- <-]. right. repeat apply conj; try reflexivity.
        cbn. lia.
    + intros [= <- <-]. right. repeat apply conj; try reflexivity.
      cbn. lia.
  - intros [= <- <-]. right. repeat apply conj; try reflexivity.
    cbn. lia.
Qed.

End Endpoints.

End MachineHandlersFacts.
(** ** The handlers of the mutating operations *)

Section PipelineFacts.

Import Operation Pipeline.

Context {Resource Resources : Type} `{!ResourcesOps Resource Resources}.
Variable Resources_apply :
  Resources -> OfferOperation (Resource := Resource) -> option Resources.
Variable validateAndUpgradeResources :
  OfferOperation (Resource := Resource)
  -> OfferOperation (Resource := Resource) + string.
Variable validate :
  OfferOperation (Resource := Resource) -> option Principal
  -> Slave (Resource := Resource) -> option string.
Variable stringify_Slave : Slave (Resource := Resource) -> string.

Local Abbreviation _operation := (_operation Resources_apply).

Lemma rescind_loop_rescinded operation offers required totalRecovered
    effects0 :
  ∃ kept,
    kept `sublist_of` offers ∧
    effects (rescind_loop Resources_apply operation offers required
                          totalRecovered effects0)
    = effects0 ++ concat (map rescinded kept).
Proof.
  revert required totalRecovered effects0.
  induction offers as [|offer rest IH]; intros required totalRecovered
    effects0; cbn [rescind_loop].
  - exists []. split; [constructor|]. cbn [map concat effects].
    by rewrite app_nil_r.
  - destruct (Resources_eqb _ _).
    + destruct (IH required totalRecovered effects0) as (kept & Hsub & ->).
      exists kept. split; [by apply sublist_cons|reflexivity].
    + destruct (Resources_apply _ operation).
      * exists [offer]. split.
        -- apply sublist_skip. apply sublist_nil_l.
        -- cbn [map concat effects]. by rewrite app_nil_r.
      * match goal with
        | |- context [rescind_loop _ _ _ ?r ?t ?e] =>
            destruct (IH r t e) as (kept & Hsub & ->)
        end.
        exists (offer :: kept). split; [by apply sublist_skip|].
        cbn [map concat]. by rewrite <- app_assoc.
Qed.

(** [_operation] answers 400 without any effect when the agent is
    not registered.  Otherwise it rescinds some of the agent's own
    outstanding offers, in the order the agent lists them and each with
    the default filter, then applies the operation to the agent, once
    and last, whether or not the rescinded offers cover it; the answer
    is 202, or 409 with the failure of the application. *)
Lemma operation_applies_once_and_last registered slaveId required operation
    applied :
  match registered !! slaveId with
  | None =>
      _operation registered slaveId required operation applied
      = (BadRequest "No agent found with specified ID", [])
  | Some slave =>
      ∃ kept,
        kept `sublist_of` offers slave ∧
        _operation registered slaveId required operation applied
        = (match applied with
           | None => Accepted
           | Some failure => Conflict failure
           end,
           concat (map rescinded kept) ++ [apply slave operation])
  end.
Proof.
  unfold Operation._operation.
  destruct (registered !! slaveId) as [slave|]; [|reflexivity].
  destruct (rescind_loop_rescinded operation (offers slave) required
              Resources_empty []) as (kept & Hsub & ->).
  exists kept. split; [exact Hsub|reflexivity].
Qed.

(** How a call of [_operation] ends. *)
Lemma _operation_settled registered' slaveId required operation applied :
  let '(response, effects) :=
    _operation registered' slaveId required operation applied in
  (effects = [] ∧ status response = 400) ∨
  ((status response = 202 ∨ status response = 409) ∧
   ∃ slave', registered' !! slaveId = Some slave' ∧
             last effects = Some (apply slave' operation)).
Proof.
  unfold Operation._operation.
  destruct (registered' !! slaveId) as [slave'|]; [|by left].
  right. split.
  - destruct applied; [by right | by left].
  - exists slave'. split; [reflexivity|]. apply last_snoc.
Qed.

(** What a handler of the pipeline has done when it has answered
    [result] to a request for [requested] on the agent [slaveId]:
    nothing, with the answer 400 or 403; or else the agent was
    registered when the request arrived and when the continuation ran,
    the operation was upgraded and validated, the principal was
    authorized, and the last effect applies the upgraded operation to
    the agent, with the answer 202 or 409. *)
Local Abbreviation settled registered registered' slaveId principal authorized
    requested result :=
  ((result.2 = [] ∧ (status result.1 = 400 ∨ status result.1 = 403)) ∨
   (authorized = true ∧ (status result.1 = 202 ∨ status result.1 = 409) ∧
    ∃ slave slave' operation,
      registered !! slaveId = Some slave ∧
      registered' !! slaveId = Some slave' ∧
      validateAndUpgradeResources requested = inl operation ∧
      validate operation principal slave = None ∧
      last result.2 = Some (apply slave' operation))).

Local Ltac settle :=
  intros;
  match goal with
  | |- context [principal_without_value ?p] =>
      destruct (principal_without_value p); [by left; split; [|right]|]
  | _ => idtac
  end;
  match goal with
  | |- context [?registered !! ?slaveId] =>
      destruct (registered !! slaveId) eqn:Hslave;
        [|by left; split; [|left]]
  end;
  match goal with
  | |- context [validateAndUpgradeResources ?requested] =>
      destruct (validateAndUpgradeResources requested) eqn:Hupgrade;
        [|by left; split; [|left]]
  end;
  match goal with
  | |- context [validate ?operation ?principal ?slave] =>
      destruct (validate operation principal slave) eqn:Hvalid;
        [by left; split; [|left]|]
  end;
  match goal with
  | |- context [negb ?authorized] =>
      destruct authorized; cbn [negb]; [|by left; split; [|right]]
  end;
  match goal with
  | |- context [Operation._operation _ ?registered' ?slaveId ?required
                                     ?operation ?applied] =>
      let Hsettled := fresh "Hsettled" in
      let Hstatus := fresh "Hstatus" in
      let Hslave' := fresh "Hslave'" in
      let Hlast := fresh "Hlast" in
      pose proof (_operation_settled registered' slaveId required operation
                    applied) as Hsettled;
      destruct (Operation._operation _ registered' slaveId required operation
                                     applied);
      cbn [fst snd];
      destruct Hsettled as [[-> Hstatus] | [Hstatus (? & Hslave' & Hlast)]];
        [left; split; [reflexivity | by left]
        |right; repeat apply conj; try done;
         do 3 eexists; repeat apply conj;
         first [eassumption | reflexivity]]
  end.

(** X8.  The six handlers of the pipeline change nothing unless every
    check has passed: each of them either answers 400 or 403 without
    any effect, or has found the agent registered both when the
    request arrived and when the continuation ran, has upgraded and
    validated the operation and found the principal authorized, and
    then ends by applying the upgraded operation to the agent, with
    the answer 202 or 409. *)
Theorem pipeline_changes_nothing_unless_checked registered registered'
    slaveId principal authorized applied :
  (∀ resources,
     settled registered registered' slaveId principal authorized
       (RESERVE resources)
       (_reserve Resources_apply validateAndUpgradeResources validate
          stringify_Slave registered registered' slaveId resources principal
          authorized applied)) ∧
  (∀ resources,
     settled registered registered' slaveId principal authorized
       (UNRESERVE resources)
       (_unreserve Resources_apply validateAndUpgradeResources validate
          registered registered' slaveId resources principal authorized
          applied)) ∧
  (∀ volumes,
     settled registered registered' slaveId principal authorized
       (CREATE volumes)
       (_createVolumes Resources_apply validateAndUpgradeResources validate
          stringify_Slave registered registered' slaveId volumes principal
          authorized applied)) ∧
  (∀ volumes,
     settled registered registered' slaveId principal authorized
       (DESTROY volumes)
       (_destroyVolumes Resources_apply validateAndUpgradeResources validate
          registered registered' slaveId volumes principal authorized
          applied)) ∧
  (∀ volume addition,
     settled registered registered' slaveId principal authorized
       (GROW_VOLUME volume addition)
       (growVolume Resources_apply validateAndUpgradeResources validate
          stringify_Slave registered registered' slaveId volume addition
          principal authorized applied)) ∧
  (∀ volume subtract,
     settled registered registered' slaveId principal authorized
       (SHRINK_VOLUME volume subtract)
       (shrinkVolume Resources_apply validateAndUpgradeResources validate
          stringify_Slave registered registered' slaveId volume subtract
          principal authorized applied)).
Proof.
  repeat apply conj.
  - unfold _reserve. settle.
  - unfold _unreserve. settle.
  - unfold _createVolumes. settle.
  - unfold _destroyVolumes. settle.
  - unfold growVolume. settle.
  - unfold shrinkVolume. settle.
Qed.

End PipelineFacts.
(** ** The scheduler API, further *)

Section SchedulerServes.

Import Scheduler.

Context {JSONValue : Type}.
Variable accepts : string -> string -> bool.
Variable ParseFromString : string -> option Call.
Variable JSON_parse : string -> JSONValue + string.
Variable protobuf_parse : JSONValue -> Call + string.
Variable reconcileOperations : Framework -> Call -> ContentType -> Response.

Local Abbreviation decode := (decode ParseFromString JSON_parse protobuf_parse).
Local Abbreviation serve := (serve reconcileOperations).
Local Abbreviation scheduler :=
  (scheduler accepts ParseFromString JSON_parse protobuf_parse
             reconcileOperations).


Lemma decode_refuses contentType body response :
  decode contentType body = inl response ->
  status response = 400 ∨ status response = 415.
Proof.
  unfold Scheduler.decode.
  destruct (decide (contentType = APPLICATION_PROTOBUF)).
  - destruct (ParseFromString body); [discriminate|].
    intros [= <-]. by left.
  - destruct (decide (contentType = APPLICATION_JSON)).
    + destruct (JSON_parse body) as [value|error]; [|intros [= <-]; by left].
      destruct (protobuf_parse value); [discriminate|].
      intros [= <-]. by left.
    + intros [= <-]. by right.
Qed.


(** X10.  The leading master answers 202 on the scheduler endpoint only
    to a POST whose body decodes to a call that passes the validation,
    that is neither SUBSCRIBE nor of unknown type, and that comes from
    a framework the master knows, whose principal the authenticated
    principal does not differ from, which is connected, over HTTP,
    with the stream id the request carries. *)
Theorem scheduler_accepts_only_checked_calls master frameworks redirected
    streamId request principal :
  elected master = true ->
  scheduler master frameworks redirected streamId request principal
  = Replied Accepted ->
  principal_without_value principal = false ∧
  recovered master = Some true ∧
  method request = "POST" ∧
  ∃ contentType call framework,
    headers request !! "Content-Type" = Some contentType ∧
    decode contentType (body request) = inr call ∧
    validate call principal = None ∧
    call_type call ≠ SUBSCRIBE ∧ call_type call ≠ UNKNOWN ∧
    frameworks !! call_framework_id call = Some framework ∧
    (∀ p, principal = Some p ->
          principal_differs p (info_principal framework) = false) ∧
    connected framework = true ∧
    ∃ registered,
      http framework = Some registered ∧
      headers request !! "Mesos-Stream-Id" = Some registered.
Proof.
  intros Helected. unfold Scheduler.scheduler. rewrite Helected. cbn [negb].
  destruct (principal_without_value principal); [discriminate|].
  destruct (recovered master) as [[]|]; try discriminate.
  case_bool_decide as Hmethod; cbn [negb]; [|discriminate].
  destruct (headers request !! "Content-Type") as [contentType|];
    [|discriminate].
  destruct (decode contentType (body request)) as [response|call] eqn:Hdecode.
  { intros [= ->]. apply decode_refuses in Hdecode as [?|?]; discriminate. }
  destruct (validate call principal) eqn:Hvalid; [discriminate|].
  intros Hserved.
  assert (Hserve : call_type call ≠ SUBSCRIBE ∧
                   ∃ acceptType,
                     serve frameworks request principal call acceptType
                     = Replied Accepted).
  { destruct (bool_decide (call_type call = SUBSCRIBE)) eqn:Hsubscribe;
      cbn [orb] in Hserved.
    - destruct (acceptsMediaType accepts request "Accept" APPLICATION_JSON).
      + destruct (bool_decide
                    (is_Some (headers request !! "Mesos-Stream-Id")));
          discriminate.
      + destruct (acceptsMediaType accepts request "Accept"
                                   APPLICATION_PROTOBUF); [|discriminate].
        destruct (bool_decide
                    (is_Some (headers request !! "Mesos-Stream-Id")));
          discriminate.
    - apply bool_decide_eq_false in Hsubscribe. split; [exact Hsubscribe|].
      destruct (bool_decide (call_type call = RECONCILE_OPERATIONS)).
      + destruct (acceptsMediaType accepts request "Accept" APPLICATION_JSON);
          [eauto|].
        destruct (acceptsMediaType accepts request "Accept"
                                   APPLICATION_PROTOBUF);
          [eauto|discriminate].
      + eauto. }
  clear Hserved. destruct Hserve as [Hsubscribe [acceptType Hserve]].
  repeat apply conj; try reflexivity; try assumption.
  exists contentType, call. unfold Scheduler.serve in Hserve.
  destruct (frameworks !! call_framework_id call) as [framework|];
    [|discriminate].
  exists framework.
  destruct (match principal with Some p => _ | None => false end)
    eqn:Hprincipal; [discriminate|].
  destruct (connected framework); cbn [negb] in Hserve; [|discriminate].
  destruct (http framework) as [registered|]; [|discriminate].
  destruct (headers request !! "Mesos-Stream-Id") as [streamId'|];
    [|discriminate].
  case_bool_decide as Hstream; cbn [negb] in Hserve; [|discriminate].
  repeat apply conj; try reflexivity; try assumption.
  - intros Hunknown. rewrite Hunknown in Hserve. discriminate.
  - intros p ->. exact Hprincipal.
  - exists registered. by subst.
Qed.

End SchedulerServes.
(** ** The operator API, further *)

Section ApiServes.

Import Api.

Context {Call : Type}.
Variable accepts : string -> string -> bool.
Variable call_type : Call -> CallType.
Variable stringify_CallType : CallType -> string.
Variable deserialize : ContentType -> string -> Call + string.
Variable validate : Call -> option string.
Variable first_record : string -> Result string.
Variable handle : Call -> option Principal -> ContentType -> Response.

Local Abbreviation api :=
  (api accepts call_type stringify_CallType deserialize validate first_record
       handle).
Local Abbreviation receive := (receive deserialize validate first_record).

(** The media types [api] settles on: the type of the messages is
    there exactly for a streaming type, and is never a streaming type
    itself. *)
Lemma negotiate_content_message request contentType messageContentType :
  negotiate_content request = inr (contentType, messageContentType) ->
  (streamingMediaType contentType = true ->
   messageContentType = Some JSON ∨ messageContentType = Some PROTOBUF) ∧
  (streamingMediaType contentType = false -> messageContentType = None).
Proof.
  unfold negotiate_content.
  destruct (headers request !! "Content-Type") as [contentType_|];
    [|discriminate].
  destruct (if decide (contentType_ = APPLICATION_JSON) then Some JSON
            else if decide (contentType_ = APPLICATION_PROTOBUF)
                 then Some PROTOBUF
                 else if decide (contentType_ = APPLICATION_RECORDIO)
                      then Some RECORDIO else None) as [ct|];
    [|discriminate].
  destruct (streamingMediaType ct) eqn:Hstreaming.
  - destruct (headers request !! MESSAGE_CONTENT_TYPE) as [v|];
      [|discriminate].
    repeat case_decide; try discriminate;
      intros [= <- <-]; rewrite Hstreaming; split; auto; discriminate.
  - destruct (headers request !! MESSAGE_CONTENT_TYPE) as [v|];
      [discriminate|].
    intros [= <- <-]. rewrite Hstreaming. split; [discriminate|done].
Qed.

Lemma negotiate_accept_message request acceptType messageAcceptType :
  negotiate_accept accepts request = inr (acceptType, messageAcceptType) ->
  (streamingMediaType acceptType = true ->
   messageAcceptType = Some JSON ∨ messageAcceptType = Some PROTOBUF) ∧
  (streamingMediaType acceptType = false -> messageAcceptType = None).
Proof.
  unfold negotiate_accept.
  destruct (if acceptsMediaType accepts request "Accept" APPLICATION_JSON
            then Some JSON
            else if acceptsMediaType accepts request "Accept"
                                     APPLICATION_PROTOBUF
                 then Some PROTOBUF
                 else if acceptsMediaType accepts request "Accept"
                                          APPLICATION_RECORDIO
                      then Some RECORDIO else None) as [at_|];
    [|discriminate].
  destruct (streamingMediaType at_) eqn:Hstreaming.
  - destruct (acceptsMediaType accepts request MESSAGE_ACCEPT
                               APPLICATION_JSON).
    + intros [= <- <-]. rewrite Hstreaming. split; auto; discriminate.
    + destruct (acceptsMediaType accepts request MESSAGE_ACCEPT
                                 APPLICATION_PROTOBUF); [|discriminate].
      intros [= <- <-]. rewrite Hstreaming. split; auto; discriminate.
  - destruct (bool_decide (is_Some (headers request !! MESSAGE_ACCEPT)));
      [discriminate|].
    intros [= <- <-]. rewrite Hstreaming. split; [discriminate|done].
Qed.

(** X11.  The media types that [api] settles on for a request are
    consistent: the encoding of the messages ([Message-Content-Type],
    [Message-Accept]) is known exactly when the corresponding type is
    the streaming one, and is then JSON or protobuf. *)
Theorem negotiate_message_types request mediaTypes :
  negotiate accepts request = inr mediaTypes ->
  (if streamingMediaType (content mediaTypes)
   then messageContent mediaTypes = Some JSON ∨
        messageContent mediaTypes = Some PROTOBUF
   else messageContent mediaTypes = None) ∧
  (if streamingMediaType (accept mediaTypes)
   then messageAccept mediaTypes = Some JSON ∨
        messageAccept mediaTypes = Some PROTOBUF
   else messageAccept mediaTypes = None).
Proof.
  unfold negotiate.
  destruct (negotiate_content request) as [|[contentType messageContentType]]
    eqn:Hcontent; [discriminate|].
  destruct (negotiate_accept accepts request)
    as [|[acceptType messageAcceptType]] eqn:Haccept; [discriminate|].
  intros [= <-]. cbn [content accept messageContent messageAccept].
  apply negotiate_content_message in Hcontent as [Hc1 Hc2].
  apply negotiate_accept_message in Haccept as [Ha1 Ha2].
  split.
  - destruct (streamingMediaType contentType); auto.
  - destruct (streamingMediaType acceptType); auto.
Qed.


End ApiServes.
(** ** Tearing a framework down *)

Section TeardownFacts.

Import Teardown.

Context {Master Framework Subject : Type}.
Variable getFramework : Master -> FrameworkID -> option Framework.
Variable removeFramework : Framework -> Master -> Master.
Variable info : Framework -> Scheduler.FrameworkInfo.
Variable createSubject : option Principal -> option Subject.

Local Abbreviation _teardown :=
  (_teardown getFramework removeFramework info createSubject).

(** X13.  [_teardown] removes a framework only when it is allowed to:
    it answers 200 exactly when it has removed the framework it found
    at that moment, and it does so only if the master has no
    authorizer, or if the authorizer has approved the request that
    names the principal of the framework found when the call arrived
    (if that framework has one) and the framework is still there when
    the answer comes.  In every other case the answer is 400 or 403
    and the handler leaves the master as it finds it. *)
Theorem teardown_removes_only_when_allowed m authorizer id principal between
    response m' :
  _teardown m authorizer id principal between = (response, m') ->
  (status response = 200 ∧
   ∃ found,
     getFramework m id = Some found ∧
     ((authorizer = None ∧ m' = removeFramework found m) ∨
      (∃ authorized framework,
         authorizer = Some authorized ∧
         authorized
           (mkAuthorizationRequest
              (createSubject principal)
              match Scheduler.principal (info found) with
              | Some name => Some (info found, name)
              | None => None
              end) = true ∧
         getFramework (between m) id = Some framework ∧
         m' = removeFramework framework (between m))))
  ∨ ((status response = 400 ∨ status response = 403) ∧
     (m' = m ∨ (is_Some authorizer ∧ m' = between m))).
Proof.
  unfold Teardown._teardown, __teardown.
  destruct (getFramework m id) as [found|] eqn:Hfound.
  - destruct authorizer as [authorized|].
    + destruct (authorized _) eqn:Hauthorized; cbn [negb].
      * destruct (getFramework (between m) id) as [framework|] eqn:Hthen.
        -- intros [= <- <-]. left. split; [reflexivity|].
           exists found. split; [reflexivity|]. right.
           exists authorized, framework. auto.
        -- intros [= <- <-]. right. split; [by left|]. right. eauto.
      * intros [= <- <-]. right. split; [by right|]. right. eauto.
    + intros [= <- <-]. left. split; [reflexivity|].
      exists found. split; [reflexivity|]. by left.
  - intros [= <- <-]. right. split; [by left|]. by left.
Qed.

End TeardownFacts.

(** ** The flags of the master *)

Section FlagsFacts.

Import Flags.

Variable render : gmap string string -> option string -> string.

Lemma __flags_from (flags : list Flag) (values : gmap string string) name
    value :
  fold_left
    (fun values flag =>
       match stringify flag with
       | Some value => <[effective_name flag := value]> values
       | None => values
       end)
    flags values !! name = Some value ->
  values !! name = Some value ∨
  ∃ flag, flag ∈ flags ∧ effective_name flag = name ∧
          stringify flag = Some value.
Proof.
  revert values. induction flags as [|flag rest IH]; intros values;
    cbn [fold_left]; [by left|].
  intros H. apply IH in H as [H|(flag' & Hin & Hname & Hvalue)].
  - destruct (stringify flag) as [v|] eqn:Hv; [|by left].
    destruct (decide (effective_name flag = name)) as [Heq|Hne].
    + rewrite <- Heq, lookup_insert_eq in H. injection H as ->.
      right. exists flag. split; [by apply elem_of_cons; left|done].
    + rewrite lookup_insert_ne in H by exact Hne. by left.
  - right. exists flag'. split; [by apply elem_of_cons; right|done].
Qed.

(** X14.  The flags endpoint answers 200 exactly when the principal
    is not one with claims and no value and either the master has no
    authorizer, whatever the method of the request, or the request is
    a GET and the authorizer approves it; and every value in the
    object of flags is the value of a flag of that name, so that a
    flag without a value is not listed. *)
Theorem flags_answers request principal authorizer master_flags :
  (status (flags render request principal authorizer master_flags) = 200 ↔
   principal_without_value principal = false ∧
   (authorizer = None ∨ (method request = "GET" ∧ authorizer = Some true))) ∧
  ∀ name value,
    __flags master_flags !! name = Some value ->
    ∃ flag, flag ∈ master_flags ∧ effective_name flag = name ∧
            stringify flag = Some value.
Proof.
  split.
  - unfold flags, _flags.
    destruct (principal_without_value principal).
    { cbn. split; [discriminate|]. intros [? _]. discriminate. }
    destruct authorizer as [[]|]; case_bool_decide as Hmethod;
      cbn [negb andb status];
      (split;
       [intros H;
        first [discriminate H
              |split; [reflexivity|]; first [by left | by right]]
       |intros [_ [H|[H1 H2]]];
        first [reflexivity | discriminate | contradiction]]).
  - intros name value H. unfold __flags in H.
    apply __flags_from in H as [H|H]; [|exact H].
    by rewrite lookup_empty in H.
Qed.

End FlagsFacts.
(** ** The read handlers *)

Section ReadersFacts.

Import Readers Viewable.

Context {FrameworkInfo ExecutorInfo TaskInfo Task : Type}.

Variable approved_framework : FrameworkInfo -> bool.
Variable approved_executor : ExecutorInfo -> FrameworkInfo -> bool.
Variable approved_task_info : TaskInfo -> FrameworkInfo -> bool.
Variable approved_task : Task -> FrameworkInfo -> bool.
Variable createTask : TaskInfo -> TaskState -> FrameworkID -> Task.

Local Abbreviation Framework :=
  (Readers.Framework FrameworkInfo ExecutorInfo TaskInfo Task).

Implicit Types framework : Framework.
Implicit Types frameworks : Frameworks Framework.

(** A loop that appends to its result is the result so far followed
    by what each element adds. *)
Lemma fold_left_appends {A B : Type} (step : list B -> A -> list B)
    (added : A -> list B) (l : list A) (acc : list B) :
  (∀ acc x, step acc x = acc ++ added x) ->
  fold_left step l acc = acc ++ flat_map added l.
Proof.
  intros Hstep. revert acc.
  induction l as [|x l IH]; intros acc; cbn [fold_left flat_map].
  - by rewrite app_nil_r.
  - by rewrite IH, Hstep, <- app_assoc.
Qed.

Lemma fold_left_skips {A B : Type} (keep : A -> bool) (made : A -> B)
    (l : list A) (acc : list B) :
  fold_left (fun acc x => if negb (keep x) then acc else acc ++ [made x])
            l acc
  = acc ++ map made (List.filter keep l).
Proof.
  revert acc.
  induction l as [|x l IH]; intros acc; cbn [fold_left List.filter map].
  - by rewrite app_nil_r.
  - rewrite IH. destruct (keep x); cbn [negb map]; [|done].
    by rewrite <- app_assoc.
Qed.

Lemma approved_frameworks_viewable frameworks :
  approved_frameworks approved_framework frameworks
  = viewable approved_framework frameworks.
Proof.
  unfold approved_frameworks, viewable.
  rewrite !(fold_left_skips
              (fun framework => approved_framework (info framework))
              (fun framework => framework)).
  by rewrite !map_id, List.filter_app.
Qed.

(** X15.  [_getExecutors] lists, in the order of the frameworks
    (registered before completed), of their agents and of the executors
    on each, exactly the executors that the principal may view in a
    framework the principal may view, each with the id of its agent:
    an executor of a framework that may not be viewed is left out even
    when the executor itself could be viewed. *)
Theorem getExecutors_lists_viewable frameworks :
  _getExecutors approved_framework approved_executor frameworks
  = flat_map (viewable_executors approved_executor)
             (viewable approved_framework frameworks).
Proof.
  unfold _getExecutors. rewrite approved_frameworks_viewable.
  rewrite (fold_left_appends _ (viewable_executors approved_executor));
    [done|].
  intros acc framework.
  apply fold_left_appends. intros acc' [slaveId executorsMap].
  apply (fold_left_skips
           (fun executorInfo =>
              approved_executor executorInfo (info framework))
           (fun executorInfo => mkExecutor executorInfo slaveId)).
Qed.

Lemma active_loop framework (tasks : list (option Task)) (acc : list Task) :
  fold_left
    (fun active task =>
       match active, task with
       | None, _ => None
       | Some _, None => None
       | Some active, Some task =>
           if negb (approved_task task (info framework))
           then Some active
           else Some (active ++ [task])
       end)
    tasks (Some acc)
  = if forallb not_null tasks
    then Some (acc ++ viewable_of approved_task framework
                        (omap (fun task => task) tasks))
    else None.
Proof.
  revert acc.
  induction tasks as [|[task|] tasks IH]; intros acc;
    cbn [fold_left forallb not_null omap andb].
  - by rewrite app_nil_r.
  - unfold viewable_of. simpl.
    destruct (approved_task task (info framework)); simpl; rewrite IH;
      destruct (forallb not_null tasks); try done.
    unfold viewable_of. by rewrite <- app_assoc.
  - clear IH. by induction tasks.
Qed.

Lemma framework_tasks_None (l : list Framework) :
  fold_left
    (framework_tasks approved_task_info approved_task createTask) l None
  = None.
Proof. by induction l. Qed.

Lemma getTasks_loop (l : list Framework) (getTasks : GetTasks Task) :
  fold_left (framework_tasks approved_task_info approved_task createTask)
            l (Some getTasks)
  = if forallb (fun framework => forallb not_null (tasks framework)) l
    then Some (mkGetTasks
                 (get_pending_tasks getTasks
                  ++ flat_map
                       (viewable_pending approved_task_info createTask) l)
                 (get_tasks getTasks
                  ++ flat_map
                       (fun framework =>
                          viewable_of approved_task framework
                            (omap (fun task => task) (tasks framework))) l)
                 (get_unreachable_tasks getTasks
                  ++ flat_map
                       (fun framework =>
                          viewable_of approved_task framework
                            (unreachableTasks framework))
                       l)
                 (get_completed_tasks getTasks
                  ++ flat_map
                       (fun framework =>
                          viewable_of approved_task framework
                            (completedTasks framework))
                       l))
    else None.
Proof.
  revert getTasks.
  induction l as [|framework l IH]; intros getTasks;
    cbn [fold_left forallb flat_map].
  - rewrite !app_nil_r. by destruct getTasks.
  - unfold framework_tasks at 2. cbv zeta. rewrite active_loop.
    destruct (forallb not_null (tasks framework)); cbn [andb].
    + rewrite IH.
      destruct (forallb _ l); [|done].
      cbn [get_pending_tasks get_tasks get_unreachable_tasks
           get_completed_tasks].
      rewrite (fold_left_skips
                 (fun taskInfo =>
                    approved_task_info taskInfo (info framework))
                 (fun taskInfo =>
                    createTask taskInfo TASK_STAGING (id framework))).
      rewrite !(fold_left_skips
                  (fun task => approved_task task (info framework))
                  (fun task => task)).
      rewrite !map_id. unfold viewable_pending, viewable_of.
      by rewrite <- !app_assoc.
    + apply framework_tasks_None.
Qed.

(** X16.  [_getTasks] stops at a null task pointer in a framework the
    principal may view ([CHECK_NOTNULL]); otherwise each of its four
    lists holds, in the order of the frameworks (registered before
    completed), exactly the tasks of that kind the principal may view
    in a framework the principal may view, a pending task being made
    with [createTask] in state [TASK_STAGING] under the id of its
    framework.  A null pointer in a framework that may not be viewed
    is never looked at. *)
Theorem getTasks_lists_viewable frameworks :
  _getTasks approved_framework approved_task_info approved_task createTask
            frameworks
  = if forallb (fun framework => forallb not_null (tasks framework))
               (viewable approved_framework frameworks)
    then Some (mkGetTasks
                 (flat_map (viewable_pending approved_task_info createTask)
                    (viewable approved_framework frameworks))
                 (flat_map
                    (fun framework =>
                       viewable_of approved_task framework
                         (omap (fun task => task) (tasks framework)))
                    (viewable approved_framework frameworks))
                 (flat_map
                    (fun framework =>
                       viewable_of approved_task framework
                         (unreachableTasks framework))
                    (viewable approved_framework frameworks))
                 (flat_map
                    (fun framework =>
                       viewable_of approved_task framework
                         (completedTasks framework))
                    (viewable approved_framework frameworks)))
    else None.
Proof.
  unfold _getTasks.
  by rewrite approved_frameworks_viewable, getTasks_loop.
Qed.

End ReadersFacts.
(** ** Parsing a URI, further *)

Section UriParses.

Import Uri.

Variable uriParseUriA : string -> option UriUriA.

(** X17.  [URI::parse] fails for one of three reasons only, and says
    which: uriparser does not accept the C string; the reference has
    no scheme; or the reference has a port that is not empty and that
    [numify] does not turn into a number, and then the error carries
    the reason [numify] gives.  A reference without a port, or with
    an empty one, never fails for its port. *)
Theorem parse_fails_with_reason s error :
  parse uriParseUriA s = inr error ->
  (uriParseUriA (c_str s) = None ∧ error = "Failed to parse uri string") ∨
  ∃ uri,
    uriParseUriA (c_str s) = Some uri ∧
    ((scheme uri = None ∧ error = "Missing scheme in uri string") ∨
     ∃ port reason,
       is_Some (scheme uri) ∧
       portText uri = Some port ∧ port ≠ "" ∧
       numify port = inr reason ∧
       error = "Failed to parse port: " +:+ reason).
Proof.
  unfold parse. destruct (uriParseUriA (c_str s)) as [uri|] eqn:Hparsed.
  - intros Hunpack. right. exists uri. split; [done|].
    unfold unpack in Hunpack.
    destruct (scheme uri) as [scheme|] eqn:Hscheme.
    + right. cbv zeta in Hunpack.
      destruct (portText uri) as [port|] eqn:Hport; cbn [default] in Hunpack;
        unfold Datatypes.id in Hunpack.
      * case_bool_decide as Hempty; [|done].
        destruct (numify port) as [number|reason] eqn:Hnumber;
          cbn beta iota in Hunpack; [done|].
        exists port, reason. by simplify_eq.
      * by case_bool_decide.
    + left. by simplify_eq.
  - intros [= <-]. by left.
Qed.

(** X18.  What [URI::parse] returns is read off the reference
    uriparser found: its scheme; a port exactly when the reference has
    a port that is not empty (the number [numify] makes of it); a host
    exactly when the reference has one, written between brackets when
    it is an IPv6 or IPvFuture literal; and a path that is empty when
    the reference has no segment, and that starts with a slash
    whenever there is a host and a segment. *)
Theorem parse_reads_the_reference s result :
  parse uriParseUriA s = inl result ->
  ∃ uri,
    uriParseUriA (c_str s) = Some uri ∧
    scheme uri = Some (uri_scheme result) ∧
    (uri_port result = None ↔ default "" (portText uri) = "") ∧
    (∀ number, uri_port result = Some number ->
               ∃ port, portText uri = Some port ∧ numify port = inl number) ∧
    (uri_host result = None ↔ hostText uri = None) ∧
    (∀ host, uri_host result = Some host ->
             hostData_ip6 uri || hostData_ipFuture uri = true ->
             ∃ literal, hostText uri = Some literal ∧
                        host = "[" +:+ literal +:+ "]") ∧
    (pathHead uri = [] -> uri_path result = "") ∧
    (uri_host result ≠ None -> pathHead uri ≠ [] ->
     uri_path result = "/" +:+ path_text (pathHead uri)).
Proof.
  unfold parse. destruct (uriParseUriA (c_str s)) as [uri|]; [|done].
  intros Hunpack. exists uri. split; [done|].
  unfold unpack in Hunpack.
  destruct (scheme uri) as [scheme|]; [|done]. cbv zeta in Hunpack.
  destruct (portText uri) as [port|] eqn:Hport; cbn [default] in *;
    unfold Datatypes.id in *.
  1: case_bool_decide as Hempty;
       [destruct (numify port) as [number|reason] eqn:Hnumber;
        cbn beta iota in Hunpack; [|done]
       |].
  3: rewrite bool_decide_eq_false_2 in Hunpack by (intros H; by apply H).
  all: injection Hunpack as <-; cbn [uri_scheme uri_port uri_host uri_path].
  all: repeat apply conj; try done.
  all: try (intros number' [= <-]; by exists port).
  all: try (by destruct (hostText uri); [destruct (_ || _)|]).
  all: try (by intros ->).
  all: try (intros host Hhost Hliteral; rewrite Hliteral in Hhost;
            destruct (hostText uri) as [literal|]; [|done];
            injection Hhost as <-; by exists literal).
  all: intros Hhost Hpath;
    destruct (pathHead uri) as [|segment segments]; [done|];
    destruct (hostText uri); [|done];
    destruct (hostData_ip6 uri || hostData_ipFuture uri);
    rewrite bool_decide_eq_true_2 by eauto; by rewrite orb_true_r.
Qed.

End UriParses.
(** ** Bringing machines down and up, on the worked instances *)

(** [machine_1], which is draining, is brought down, and the agent on
    it is told to shut down. *)
Lemma machineDown_brings_down_witness :
  let result := Instances.machine_down Instances.cluster "host-1" in
  result.1.1 = Machines.Answered (Replied (OK "")) ∧
  result.2 = ["agent-1"] ∧
  Maintenance.modes (Machines.master result.1.2) !! Examples.machine_1
  = Some Maintenance.DOWN.
Proof.
  cbn zeta. split; [vm_compute; reflexivity|].
  split; [vm_compute; reflexivity|].
  destruct (machineDown_brings_down Instances.some_machine
              Maintenance.hostname Instances.remove_slave
              (fun body : string => inl body) Instances.parse_machines
              Aborted Instances.cluster
              (Instances.machine_request "POST" "host-1") (fun _ => true)
              (Ready true) (OK "")
              (Instances.machine_down Instances.cluster "host-1").1.2
              (Instances.machine_down Instances.cluster "host-1").2)
    as [(_ & _ & jsonIds & ids & Hjson & Hids & _ & _ & _ & Hdown)
       | (Hstatus & _)].
  - vm_compute. reflexivity.
  - apply Hdown. injection Hjson as <-. vm_compute in Hids.
    injection Hids as <-. apply list_elem_of_In. left. reflexivity.
  - exfalso. apply Hstatus. reflexivity.
Defined.

(** [machine_1], brought down, is brought up again; [machine_2] is left
    as it was. *)
Lemma machineUp_brings_up_witness :
  let down := Machines.master
                (Instances.machine_down Instances.cluster "host-1").1.2 in
  let result := Instances.machine_up down "host-1" in
  result.1 = Machines.Answered (Replied (OK "")) ∧
  Maintenance.machines result.2 !! Examples.machine_1
  = Some (Maintenance.mkMachine
            (Maintenance.mkMachineInfo (Some Examples.machine_1)
               Maintenance.UP None)
            {[ "agent-1" ]}) ∧
  Maintenance.machines result.2 !! Examples.machine_2
  = Maintenance.machines down !! Examples.machine_2.
Proof.
  cbn zeta. split; [vm_compute; reflexivity|].
  destruct (machineUp_brings_up Instances.some_machine
              Maintenance.hostname
              (fun body : string => inl body) Instances.parse_machines
              Aborted
              (Machines.master
                 (Instances.machine_down Instances.cluster "host-1").1.2)
              (Instances.machine_request "POST" "host-1") (fun _ => true)
              (Ready true) (OK "")
              (Instances.machine_up
                 (Machines.master
                    (Instances.machine_down Instances.cluster "host-1").1.2)
                 "host-1").2)
    as [(_ & _ & jsonIds & ids & Hjson & Hids & _ & _ & _ & Hup & Hother)
       | (Hstatus & _)].
  - vm_compute. reflexivity.
  - injection Hjson as <-. vm_compute in Hids. injection Hids as <-.
    split.
    + refine (Hup Examples.machine_1
                (Maintenance.mkMachine
                   (Maintenance.mkMachineInfo (Some Examples.machine_1)
                      Maintenance.DOWN
                      (Some (Maintenance.mkUnavailability 100 None)))
                   {[ "agent-1" ]}) _ _).
      * apply list_elem_of_In. left. reflexivity.
      * vm_compute. reflexivity.
    + apply Hother. intros Hin. apply list_elem_of_In in Hin as [Heq|[]].
      discriminate.
  - exfalso. apply Hstatus. reflexivity.
Defined.

(** Bringing [machine_1] up leaves [machine_2], and nothing else, in
    the schedule. *)
Lemma stopMaintenance_prunes_schedules_witness :
  let down := Machines.master
                (Instances.machine_down Instances.cluster "host-1").1.2 in
  let m' := (Instances.machine_up down "host-1").2 in
  concat (map Maintenance.named (Maintenance.schedules m'))
  = filter (fun id => id ∉ [Examples.machine_1])
           (concat (map Maintenance.named (Maintenance.schedules down))) ∧
  Maintenance.schedules m'
  = [Maintenance.mkSchedule [Instances.window_2]].
Proof.
  cbn zeta. split; [|vm_compute; reflexivity].
  refine (proj1 (stopMaintenance_prunes_schedules _ [Examples.machine_1]
                   (OK "") _ _)).
  vm_compute. reflexivity.
Defined.

(** [machine_1], brought down, can be brought up. *)
Lemma machines_brought_down_come_up_witness :
  ∃ m'',
    Machines.stopMaintenance_call Instances.some_machine Maintenance.hostname
      (Machines.master
         (Instances.machine_down Instances.cluster "host-1").1.2)
      [Examples.machine_1] (fun _ => true) (Ready true)
    = (Machines.Answered (Replied (OK "")), m'') ∧
    ∀ id, id ∈ [Examples.machine_1] →
          Maintenance.modes m'' !! id = Some Maintenance.UP.
Proof.
  apply (machines_brought_down_come_up Instances.some_machine
           Maintenance.hostname Instances.remove_slave Instances.cluster
           [Examples.machine_1] (fun _ => true) (Ready true)
           (Instances.machine_down Instances.cluster "host-1").1.2
           (Instances.machine_down Instances.cluster "host-1").2
           (fun _ => true)).
  - vm_compute. reflexivity.
  - reflexivity.
Defined.

(** The schedule naming [machine_1], once accepted, is read back. *)
Lemma updated_schedule_is_read_back_witness :
  Machines._getMaintenanceSchedule
    (Examples.update_schedule Examples.maintained Examples.next_schedule).2
    (fun _ => true)
  = Examples.next_schedule.
Proof.
  apply (updated_schedule_is_read_back
           (Maintenance.mkMaster
              (Maintenance.machines Examples.maintained)
              (Maintenance.schedules Examples.maintained)
              (Maintenance.registrar Examples.maintained
               ++ [Maintenance.UpdateSchedule Examples.next_schedule]))
           Examples.next_schedule (OK "")).
  - vm_compute. reflexivity.
  - reflexivity.
  - intros window Hin. apply list_elem_of_In in Hin as [<-|[]].
    discriminate.
Defined.
(** ** The two APIs and the teardown, on the worked instances *)


(** The TEARDOWN that is accepted names the subscribed framework and
    carries its stream id. *)
Lemma scheduler_accepts_only_checked_calls_witness :
  Examples.run_scheduler Instances.teardown_stream_1 = Replied Accepted ∧
  method Instances.teardown_stream_1 = "POST" ∧
  ∃ framework registered,
    Examples.frameworks !! "framework-1" = Some framework ∧
    Scheduler.http framework = Some registered ∧
    headers Instances.teardown_stream_1 !! "Mesos-Stream-Id"
    = Some registered.
Proof.
  split; [vm_compute; reflexivity|].
  destruct (scheduler_accepts_only_checked_calls accepts_exactly
              Examples.parse_call
              (fun body : string => inl body)
              (fun value : string =>
                 match Examples.parse_call value with
                 | Some call => inl call
                 | None => inr "Unknown call"
                 end)
              (fun _ _ _ => OK "")
              Examples.leading Examples.frameworks Aborted "stream-2"
              Instances.teardown_stream_1 None)
    as (_ & _ & Hmethod & contentType & call & framework & Hcontent & Hcall
        & _ & _ & _ & Hframework & _ & _ & registered & Hhttp & Hstream).
  - vm_compute. reflexivity.
  - vm_compute. reflexivity.
  - split; [exact Hmethod|].
    exists framework, registered. split; [|by split].
    vm_compute in Hcontent. injection Hcontent as <-.
    vm_compute in Hcall. injection Hcall as <-.
    exact Hframework.
Defined.

(** A record stream of JSON messages, answered as a record stream. *)
Lemma negotiate_message_types_witness :
  ∃ mediaTypes,
    Api.negotiate accepts_exactly Examples.streaming_get_health
    = inr mediaTypes ∧
    (Api.messageContent mediaTypes = Some JSON ∨
     Api.messageContent mediaTypes = Some PROTOBUF) ∧
    (Api.messageAccept mediaTypes = Some JSON ∨
     Api.messageAccept mediaTypes = Some PROTOBUF).
Proof.
  exists (Api.mkRequestMediaTypes RECORDIO RECORDIO (Some JSON) (Some JSON)).
  split; [vm_compute; reflexivity|].
  apply (negotiate_message_types accepts_exactly
           Examples.streaming_get_health
           (Api.mkRequestMediaTypes RECORDIO RECORDIO (Some JSON) (Some JSON))).
  vm_compute. reflexivity.
Defined.


(** The principal [ops] tears down its own framework, and no other
    principal does. *)
Lemma teardown_removes_only_when_allowed_witness :
  (Instances.teardown (Some Instances.ops)).1 = OK "" ∧
  (Instances.teardown (Some Instances.ops)).2
  = delete "framework-1" Instances.registered_frameworks.
Proof.
  split; [vm_compute; reflexivity|].
  destruct (teardown_removes_only_when_allowed
              (fun (m : gmap Teardown.FrameworkID Scheduler.FrameworkInfo)
                   id => m !! id)
              (fun framework m => delete (Scheduler.id framework) m)
              (fun framework => framework)
              (fun principal : option Principal => principal)
              Instances.registered_frameworks (Some Instances.own_frameworks)
              "framework-1" (Some Instances.ops) (fun m => m)
              (Instances.teardown (Some Instances.ops)).1
              (Instances.teardown (Some Instances.ops)).2)
    as [(_ & found & _ & [(Hnone & _)
                         | (authorized & framework & _ & _ & Hget & Hm')])
       | (Hstatus & _)].
  - vm_compute. reflexivity.
  - discriminate Hnone.
  - rewrite Hm'.
    vm_compute in Hget. injection Hget as <-. reflexivity.
  - exfalso. destruct Hstatus as [Hstatus|Hstatus];
      vm_compute in Hstatus; discriminate Hstatus.
Defined.
(** ** Parsing a URI, on the worked instances *)

(** A port that does not fit 16 bits is the reason the parse fails. *)
Lemma parse_fails_with_reason_witness :
  Uri.parse Rfc3986.parse "http://a:99999/x"
  = inr "Failed to parse port: Failed to convert '99999' to number" ∧
  ∃ uri port,
    Rfc3986.parse "http://a:99999/x" = Some uri ∧
    Uri.portText uri = Some port ∧ port ≠ "".
Proof.
  split; [vm_compute; reflexivity|].
  destruct (parse_fails_with_reason Rfc3986.parse "http://a:99999/x"
              "Failed to parse port: Failed to convert '99999' to number")
    as [[Hnone _] | (uri & Hparsed & [[_ Herror]
                                     | (port & _ & _ & Hport & Hempty & _)])].
  - vm_compute. reflexivity.
  - vm_compute in Hnone. discriminate Hnone.
  - vm_compute in Herror. discriminate Herror.
  - exists uri, port. split; [exact Hparsed|]. by split.
Defined.

(** An IPv6 literal comes back between its brackets, with its port and
    a path that starts with a slash. *)
Lemma parse_reads_the_reference_witness :
  ∃ result,
    Uri.parse Rfc3986.parse "http://[2001:db8::7]:5050/x?a#b" = inl result ∧
    Uri.uri_host result = Some "[2001:db8::7]" ∧
    Uri.uri_path result = "/x".
Proof.
  exists (Uri.mkURI "http" None (Some "[2001:db8::7]") (Some 5050) "/x"
            (Some "a") (Some "b")).
  split; [vm_compute; reflexivity|].
  destruct (parse_reads_the_reference Rfc3986.parse
              "http://[2001:db8::7]:5050/x?a#b"
              (Uri.mkURI "http" None (Some "[2001:db8::7]") (Some 5050) "/x"
                 (Some "a") (Some "b")))
    as (uri & Hparsed & _ & _ & _ & _ & _ & _ & Hpath).
  - vm_compute. reflexivity.
  - split; [reflexivity|].
    rewrite Hpath; [|discriminate|].
    + vm_compute in Hparsed. by injection Hparsed as <-.
    + vm_compute in Hparsed. by injection Hparsed as <-.
Defined.
